(** * rcb4: the ARM-H7 device interface (src/rcb4/armh7interface.py)

    A shallow embedding of [ARMH7Interface]: the serial transport with its
    frame-reassembly read loop, the request builders (memory read, memory
    write, function call, slot-vector access) and the domain operations built
    on them (wheel discovery, worm-module calibration).

    Conventions.
    - A byte string, a [bytearray] and a list of ints are all [list Z]; the
      range check Python performs when an int becomes a byte is written out
      ([bytes_], [ba_store]).
    - Python's dynamically typed values are [pyval].
    - A method is a function [State -> result A * State]: the state holds the
      attributes of [self], the serial line and the console.  An exception is
      the result [Raise e]; the state reached when it was raised is kept.
    - [serial_read] loops until a complete frame has arrived.  The model
      bounds every such loop by [fuel] read attempts and answers [Diverge]
      when the bound is hit.
    - The host is little-endian ([struct.pack] with native byte order). *)

From stdpp Require Import gmap strings list fin_maps sorting.
From Stdlib Require Import ZArith Lia.
From Stdlib Require Import Floats.SpecFloat.

Set Warnings "-register-all".
Open Scope Z_scope.

(** ** Python values and exceptions *)

Inductive exn : Type :=
| RuntimeError (msg : string)
| ValueError
| TypeError
| IndexError
| KeyError
| OverflowError
| AttributeError
| StructError.

(** A finite float is carried as the dyadic rational [mant * 2 ^ expo]. *)
Inductive pyval : Type :=
| VNone
| VInt (z : Z)
| VFloat (mant expo : Z)
| VList (items : list pyval).

Inductive result (A : Type) : Type :=
| Ret (a : A)
| Raise (e : exn)
| Diverge.

Arguments Ret {A} a.
Arguments Raise {A} e.
Arguments Diverge {A}.

(** ** The serial line, the console and [self] *)

(** One call of [serial.read_until()]: the bytes that arrived before the
    terminator or the timeout (possibly none), or a [SerialException]. *)
Inductive RxEvent : Type :=
| RxBytes (bs : list Z)
| RxError.

(** [tx] logs the argument of every [serial.write] call, oldest first; [rx]
    is what the following [read_until] calls will see; [tx_faults] tells, call
    by call, whether [serial.write] raises [SerialException]. *)
Record Wire : Type := mkWire {
  tx : list (list Z);
  rx : list RxEvent;
  tx_faults : list bool
}.

(** What the code prints; one constructor per [print] call of the source. *)
Inductive Print : Type :=
| PrintErrorSending                      (* "Error sending data: {e}" *)
| PrintErrorReading                      (* "Error reading data: {e}" *)
| PrintShouldBeLessThan240 (n : Z)       (* "n={n} should be less than 240" *)
| PrintWormIndexOutOfRange (idx : Z)     (* read_worm_angle, first message *)
| PrintWormIndexNotListed (idx : Z) (ids : list Z)
                                         (* read_worm_angle, second message *)
| PrintInvalidWormIdxLower (idx : Z)     (* "invalid argument worm_idx={worm_idx}" *)
| PrintInvalidWormIdx (idx : Z)          (* "Invalid argument worm_idx={worm_idx}" *)
| PrintCalibIds (worm_idx : Z) (module_type servo_idx sensor_idx : pyval)
| PrintCalibParams (magenc_offset upper_limit thleshold_scale
                    timeout_time_scale gear_ratio : pyval).

(** [serial] is [self.serial]: [None] until [open] succeeds, then the port
    object (named by its device path).  [wire] is the line behind it. *)
Record State : Type := mkState {
  serial : option string;
  wire : Wire;
  stdout : list Print;
  id_vector : option (list Z);
  servo_sorted_ids : option (list Z);
  worm_sorted_ids : option (list Z);
  wheel_servo_sorted_ids : option (list Z)
}.

Definition set_wire (w : Wire) (st : State) : State :=
  mkState (serial st) w (stdout st) (id_vector st) (servo_sorted_ids st)
          (worm_sorted_ids st) (wheel_servo_sorted_ids st).

Definition print (p : Print) (st : State) : State :=
  mkState (serial st) (wire st) (stdout st ++ [p]) (id_vector st)
          (servo_sorted_ids st) (worm_sorted_ids st)
          (wheel_servo_sorted_ids st).

Definition set_worm_sorted_ids (ids : list Z) (st : State) : State :=
  mkState (serial st) (wire st) (stdout st) (id_vector st)
          (servo_sorted_ids st) (Some ids) (wheel_servo_sorted_ids st).

Definition set_wheel_servo_sorted_ids (ids : list Z) (st : State) : State :=
  mkState (serial st) (wire st) (stdout st) (id_vector st)
          (servo_sorted_ids st) (worm_sorted_ids st) (Some ids).

(** ** The method monad *)

Definition M (A : Type) : Type := State -> result A * State.

Definition ret {A} (a : A) : M A := fun st => (Ret a, st).
Definition raise {A} (e : exn) : M A := fun st => (Raise e, st).

Definition bind {A B} (m : M A) (k : A -> M B) : M B :=
  fun st =>
    match m st with
    | (Ret a, st') => k a st'
    | (Raise e, st') => (Raise e, st')
    | (Diverge, st') => (Diverge, st')
    end.

Declare Scope py_scope.
Delimit Scope py_scope with py.
Notation "x <- m ;; k" := (bind m (fun x => k))
  (at level 100, m at next level, right associativity) : py_scope.
Notation "m ;;; k" := (bind m (fun _ => k))
  (at level 100, right associativity) : py_scope.
Open Scope py_scope.

(** Lift a pure step that may raise. *)
Definition lift {A} (r : exn + A) : M A :=
  match r with
  | inr a => ret a
  | inl e => raise e
  end.

Definition say (p : Print) : M unit := fun st => (Ret tt, print p st).

(** ** Bytes *)

Definition is_byte (b : Z) : bool := (0 <=? b) && (b <? 256).

(** [bytes(byte_list)]: every item must be in [range(256)]. *)
Definition bytes_ (byte_list : list Z) : exn + list Z :=
  if forallb is_byte byte_list then inr byte_list else inl ValueError.

(** [bytearray(n)]: [n] zero bytes; a negative [n] is a [ValueError]. *)
Definition bytearray (n : Z) : exn + list Z :=
  if n <? 0 then inl ValueError else inr (replicate (Z.to_nat n) 0).

(** [b[i] = v] on a bytearray; a negative index counts from the end. *)
Definition ba_store (i : Z) (v : Z) (b : list Z) : exn + list Z :=
  let j := if i <? 0 then i + Z.of_nat (length b) else i in
  if negb (is_byte v) then inl ValueError
  else if (j <? 0) || (Z.of_nat (length b) <=? j) then inl IndexError
  else inr (<[Z.to_nat j := v]> b).

(** [x.to_bytes(k, byteorder='little')]. *)
Fixpoint le_bytes (k : nat) (x : Z) : list Z :=
  match k with
  | O => []
  | S k' => Z.land x 255 :: le_bytes k' (Z.shiftr x 8)
  end.

(** The unsigned integer a little-endian byte string denotes. *)
Fixpoint le_value (bs : list Z) : Z :=
  match bs with
  | [] => 0
  | b :: bs' => b + 256 * le_value bs'
  end.

Definition to_bytes (k : nat) (x : Z) : exn + list Z :=
  if (x <? 0) || (2 ^ (8 * Z.of_nat k) <=? x) then inl OverflowError
  else inr (le_bytes k x).

(** [b[lo:hi] = src] on a bytearray, for [0 <= lo <= hi]: the slice is
    clamped to the array and replaced by [src], whatever its length. *)
Definition ba_store_slice (lo hi : nat) (src : list Z) (b : list Z) : list Z :=
  take lo b ++ src ++ drop (Nat.max lo hi) b.

(** [b[lo:hi]] for [0 <= lo]. *)
Definition slice (lo hi : nat) (b : list Z) : list Z :=
  take (hi - lo) (drop lo b).

(** ** Transport: [serial_write] and [serial_read] *)

(** [self.serial.write(data)]: [true] when it raised [SerialException]. *)
Definition port_write (data : list Z) (w : Wire) : bool * Wire :=
  match tx_faults w with
  | [] => (false, mkWire (tx w ++ [data]) (rx w) [])
  | f :: fs => (f, mkWire (tx w ++ [data]) (rx w) fs)
  end.

(** [self.serial.read_until()]: with nothing queued the call times out and
    yields the empty byte string. *)
Definition port_read (w : Wire) : RxEvent * Wire :=
  match rx w with
  | [] => (RxBytes [], w)
  | ev :: evs => (ev, mkWire (tx w) evs (tx_faults w))
  end.

(** First loop of [serial_read]: [while len(ret) == 0: ret = read_until()].
    [Some ret] leaves the loop with [ret]; [None] is the handler's
    [return None]. *)
Fixpoint serial_read_first (fuel : nat) : M (option (list Z)) :=
  fun st =>
    match fuel with
    | O => (Diverge, st)
    | S fuel' =>
        match port_read (wire st) with
        | (RxError, w) => (Ret None, print PrintErrorReading (set_wire w st))
        | (RxBytes bs, w) =>
            if decide (length bs = 0%nat)
            then serial_read_first fuel' (set_wire w st)
            else (Ret (Some bs), set_wire w st)
        end
    end.

(** Loop test [len(ret) > 0 and ret[0] != len(ret)]. *)
Definition incomplete (acc : list Z) : bool :=
  match acc with
  | [] => false
  | b :: _ => negb (b =? Z.of_nat (length acc))
  end.

(** Second loop: [while incomplete: ret += read_until()]. *)
Fixpoint serial_read_rest (fuel : nat) (acc : list Z) : M (option (list Z)) :=
  fun st =>
    if incomplete acc then
      match fuel with
      | O => (Diverge, st)
      | S fuel' =>
          match port_read (wire st) with
          | (RxError, w) => (Ret None, print PrintErrorReading (set_wire w st))
          | (RxBytes bs, w) => serial_read_rest fuel' (acc ++ bs) (set_wire w st)
          end
      end
    else (Ret (Some acc), st).

Definition not_opened : exn := RuntimeError "Serial is not opened.".

(** [serial_read]; the value is [None] or the payload [ret[1:len(ret) - 1]]. *)
Definition serial_read (fuel : nat) : M (option (list Z)) :=
  fun st =>
    match serial st with
    | None => (Raise not_opened, st)
    | Some _ =>
        (r1 <- serial_read_first fuel ;;
         match r1 with
         | None => ret None
         | Some first =>
             r2 <- serial_read_rest fuel first ;;
             match r2 with
             | None => ret None
             | Some acc => ret (Some (slice 1 (length acc - 1) acc))
             end
         end) st
    end.

Definition serial_write (fuel : nat) (byte_list : list Z) : M (option (list Z)) :=
  fun st =>
    match serial st with
    | None => (Raise not_opened, st)
    | Some _ =>
        (data_to_send <- lift (bytes_ byte_list) ;;
         (fun st1 =>
            let (failed, w) := port_write data_to_send (wire st1) in
            (Ret tt, if failed
                     then print PrintErrorSending (set_wire w st1)
                     else set_wire w st1)) ;;;
         serial_read fuel) st
    end.

(** ** Struct schemas and the collaborators outside this file *)

(** An entry of [cls.__fields_types__]. *)
Record FieldType : Type := mkFieldType {
  c_type : string;
  offset : Z
}.

(** A [cstruct] class: [cls.__name__], [cls.size], [cls.__fields_types__]. *)
Record CStruct : Type := mkCStruct {
  cls_name : string;
  cls_size : Z;
  fields_types : gmap string FieldType
}.

(** What [armh7interface.py] imports from the rest of the package
    ([rcb4.asm], [rcb4.ctype_utils], [rcb4.struct_header],
    [rcb4.rcb4interface]) and from the libraries it calls, kept abstract:
    - [rcb4_checksum] and the packet helpers of [rcb4.asm];
    - [c_type_to_size typ], the size of a field type or the exception it
      ends in (a size that is not an int makes the next use of it a
      [TypeError], before anything is sent: it is [inl TypeError] here);
    - [armh7_elf_alist], the symbol table read from the firmware image;
    - [c_vector], [max_sensor_num] and the two struct classes;
    - [cstruct_attr cls buf name], the attribute [cls(buf).name];
    - [binary32_of m e], the IEEE-754 binary32 pattern the C conversion to
      [float] gives the double [m * 2 ^ e] ([None]: its magnitude is beyond
      the binary32 range, and the conversion gives an infinity);
    - [numpy_raises]: whether storing an out-of-range Python int in a
      [uint8] array raises [OverflowError] (NumPy 2) or wraps (NumPy 1). *)
Record Env : Type := mkEnv {
  rcb4_checksum : list Z -> Z;
  c_type_to_size : string -> exn + Z;
  armh7_elf_alist : gmap string Z;
  c_vector : gmap string Z;
  max_sensor_num : Z;
  ServoStruct : CStruct;
  WormmoduleStruct : CStruct;
  cstruct_attr : CStruct -> option (list Z) -> string -> exn + Z;
  binary32_of : Z -> Z -> option Z;
  numpy_raises : bool;
  MultiServoSingleVelocity : Z;
  rcb4_servo_ids_to_5bytes : list Z -> list Z;
  rcb4_velocity : Z -> Z;
  rcb4_servo_positions : list Z -> list Z -> list Z
}.

(** [d[key]] on a dict. *)
Definition getitem {A} (d : gmap string A) (key : string) : exn + A :=
  match d !! key with
  | Some a => inr a
  | None => inl KeyError
  end.

(** The binary32 patterns of the two infinities. *)
Definition infinity32 (negative : bool) : Z :=
  if negative then 4286578688 else 2139095040.

(** The four bytes of [(float) x] for the double [x = m * 2 ^ e]: the
    native-mode format ['f'] copies the C conversion without a range check,
    so a double beyond the binary32 range is packed as an infinity. *)
Definition float_bytes (E : Env) (m e : Z) : list Z :=
  match binary32_of E m e with
  | Some w => le_bytes 4 w
  | None => le_bytes 4 (infinity32 (m <? 0))
  end.

(** [struct.pack('f', v)] followed by the [struct.unpack] into single bytes.
    An int is first converted to a double, rounding to nearest even; one too
    large for a double ([2 ^ 1024 - 2 ^ 970] and beyond) and every value
    that is not a number is refused with [struct.error]. *)
Definition pack_f (E : Env) (v : pyval) : exn + list Z :=
  match v with
  | VInt z =>
      match binary_normalize 53 1024 z 0 false with
      | S754_finite s m e => inr (float_bytes E (cond_Zopp s (Z.pos m)) e)
      | S754_zero _ => inr (float_bytes E 0 0)
      | _ => inl StructError
      end
  | VFloat m e => inr (float_bytes E m e)
  | _ => inl StructError
  end.

(** [struct.pack('H', v)] and [struct.pack('B', v)], likewise unpacked. *)

Definition pack_uint (k : nat) (v : pyval) : exn + list Z :=
  match v with
  | VInt z =>
      if (0 <=? z) && (z <? 2 ^ (8 * Z.of_nat k)) then inr (le_bytes k z)
      else inl StructError
  | _ => inl StructError
  end.

(** [for x in l: acc = body(acc, x)]. *)
Fixpoint for_each {A B} (l : list A) (body : B -> A -> M B) (acc : B) : M B :=
  match l with
  | [] => ret acc
  | x :: l' => acc' <- body acc x ;; for_each l' body acc'
  end.

(** [range(n)]. *)
Definition range (n : Z) : list Z := seqZ 0 n.

Section Interface.

Variable E : Env.
Variable fuel : nat.

(** ** Memory read *)

(** The request built by [memory_read_aux]; the checksum is computed over
    the eleven-item list whose last item is still 0. *)
Definition memory_read_frame (addr length : Z) : list Z :=
  let byte_list :=
    [11; 251; Z.land addr 255; Z.land (Z.shiftr addr 8) 255;
     Z.land (Z.shiftr addr 16) 255; Z.land (Z.shiftr addr 24) 255;
     1; length; Z.land 0 255; Z.land (Z.shiftr 0 8) 255; 0] in
  <[10%nat := rcb4_checksum E byte_list]> byte_list.

Definition memory_read_aux (addr length : Z) : M (option (list Z)) :=
  serial_write fuel (memory_read_frame addr length).

(** [a + b] on two results of [serial_write]. *)
Definition add_bytes (a b : option (list Z)) : exn + option (list Z) :=
  match a, b with
  | Some x, Some y => inr (Some (x ++ y))
  | _, _ => inl TypeError
  end.

Definition memory_read (addr length : Z) : M (option (list Z)) :=
  let limit := 250 in
  if length <? limit then
    memory_read_aux addr length
  else if length <? 2 * limit then
    a <- memory_read_aux addr limit ;;
    b <- memory_read_aux (addr + limit) (length - limit) ;;
    lift (add_bytes a b)
  else
    a <- memory_read_aux addr limit ;;
    b <- memory_read_aux (addr + limit) limit ;;
    ab <- lift (add_bytes a b) ;;
    c <- memory_read_aux (addr + 2 * limit) (length - 2 * limit) ;;
    lift (add_bytes ab c).

(** [memory_cstruct]; the value is the buffer handed to [cls(...)], whose
    attributes are read with [cstruct_attr]. *)
Definition memory_cstruct (cls : CStruct) (v_idx : Z) (addr size : option Z)
  : M (option (list Z)) :=
  addr <- match addr with
          | None => lift (getitem (armh7_elf_alist E) (cls_name cls))
          | Some a => ret a
          end ;;
  let size := match size with None => cls_size cls | Some s => s end in
  memory_read (size * v_idx + addr) size.

(** ** Memory write *)

(** [for i in range(length): byte_list[10 + i] = data[i]]. *)
Definition copy_payload (length : Z) (data byte_list : list Z) : M (list Z) :=
  for_each (range length)
    (fun bl i =>
       d <- lift (match data !! Z.to_nat i with
                  | Some d => inr d
                  | None => inl IndexError
                  end) ;;
       lift (ba_store (10 + i) d bl))
    byte_list.

(** The frame of [memory_write], step by step. *)
Definition memory_write_frame (addr length : Z) (data : list Z) : M (list Z) :=
  let cnt := 1 in
  let e_size := length in
  let skip_size := 0 in
  let n := length + 11 in
  byte_list <- lift (bytearray n) ;;
  byte_list <- lift (ba_store 0 n byte_list) ;;
  byte_list <- lift (ba_store 1 252 byte_list) ;;
  a4 <- lift (to_bytes 4 addr) ;;
  let byte_list := ba_store_slice 2 6 a4 byte_list in
  byte_list <- lift (ba_store 6 cnt byte_list) ;;
  byte_list <- lift (ba_store 7 e_size byte_list) ;;
  s2 <- lift (to_bytes 2 skip_size) ;;
  let byte_list := ba_store_slice 8 10 s2 byte_list in
  byte_list <- copy_payload length data byte_list ;;
  lift (ba_store (10 + length)
          (rcb4_checksum E (slice 0 (Z.to_nat (n - 1)) byte_list)) byte_list).

Definition memory_write (addr length : Z) (data : list Z) : M (option (list Z)) :=
  byte_list <- memory_write_frame addr length data ;;
  serial_write fuel byte_list.

(** ** Function call *)

(** [len] applied to the unpacked [args]: it takes exactly one argument,
    which must be sized. *)
Definition len_star (args : list pyval) : exn + Z :=
  match args with
  | [VList items] => inr (Z.of_nat (length items))
  | _ => inl TypeError
  end.

(** [byte_list[7 + i * 4] = args[i].to_bytes(4, byteorder='little')]: the
    right-hand side is evaluated first; an int does have [to_bytes], but the
    [bytes] it yields cannot be stored in one byte of a bytearray. *)
Definition cfunc_store_arg (args : list pyval) (byte_list : list Z) (i : Z)
  : M (list Z) :=
  match args !! Z.to_nat i with
  | None => raise IndexError
  | Some (VInt z) => _ <- lift (to_bytes 4 z) ;; raise TypeError
  | Some _ => raise AttributeError
  end.

Definition cfunc_call (func_string : string) (args : list pyval)
  : M (option (list Z)) :=
  addr <- lift (getitem (armh7_elf_alist E) func_string) ;;
  argc <- lift (len_star args) ;;
  let n := 8 + 4 * argc in
  byte_list <- lift (bytearray n) ;;
  byte_list <- lift (ba_store 0 n byte_list) ;;
  byte_list <- lift (ba_store 1 250 byte_list) ;;
  a4 <- lift (to_bytes 4 addr) ;;
  let byte_list := ba_store_slice 2 6 a4 byte_list in
  byte_list <- lift (ba_store 6 argc byte_list) ;;
  byte_list <- for_each (range argc) (cfunc_store_arg args) byte_list ;;
  byte_list <- lift (ba_store (n - 1)
                       (rcb4_checksum E (slice 0 (Z.to_nat (n - 1)) byte_list))
                       byte_list) ;;
  serial_write fuel byte_list.

(** ** Single-field write *)

Definition not_implemented_typ (typ : string) : exn :=
  RuntimeError (String.append "not implemented typ " typ).

(** The chain [if typ == 'float': ... elif typ == 'uint16': ... elif typ ==
    'uint8': ... else: raise RuntimeError(...)] of [write_cls_alist]. *)
Definition pack_value (typ : string) (v : pyval) : exn + list Z :=
  if decide (typ = "float") then pack_f E v
  else if decide (typ = "uint16") then pack_uint 2 v
  else if decide (typ = "uint8") then pack_uint 1 v
  else inl (not_implemented_typ typ).

Definition write_cls_alist (cls : CStruct) (idx : Z) (slot_name : string)
    (vec : pyval) : M (option (list Z)) :=
  baseaddr <- lift (getitem (armh7_elf_alist E) (cls_name cls)) ;;
  let cls_size := cls_size cls in
  ft <- lift (getitem (fields_types cls) slot_name) ;;
  let typ := c_type ft in
  slot_size <- lift (c_type_to_size E typ) ;;
  let slot_offset := offset ft in
  let addr := baseaddr + idx * cls_size + slot_offset in
  data <- lift (bytearray slot_size) ;;
  v <- match vec with
       | VList [] => raise IndexError
       | VList (v0 :: _) => ret v0
       | _ => ret vec
       end ;;
  byte_data <- lift (pack_value typ v) ;;
  let data := ba_store_slice 0 (length byte_data) byte_data data in
  memory_write addr slot_size data.

(** [set_cstruct_slot]: as [write_cls_alist] on a scalar, but a [uint8]
    value is taken as the one-item list [[v]], which the slice assignment
    converts to bytes. *)
Definition byte_list_of (v : pyval) : exn + list Z :=
  match v with
  | VInt z => if is_byte z then inr [z] else inl ValueError
  | _ => inl TypeError
  end.

(** The same chain in [set_cstruct_slot]. *)
Definition slot_value (typ : string) (v : pyval) : exn + list Z :=
  if decide (typ = "float") then pack_f E v
  else if decide (typ = "uint16") then pack_uint 2 v
  else if decide (typ = "uint8") then byte_list_of v
  else inl (not_implemented_typ typ).

Definition set_cstruct_slot (cls : CStruct) (idx : Z) (slot_name : string)
    (v : pyval) : M (option (list Z)) :=
  baseaddr <- lift (getitem (armh7_elf_alist E) (cls_name cls)) ;;
  let cls_size := cls_size cls in
  ft <- lift (getitem (fields_types cls) slot_name) ;;
  let typ := c_type ft in
  slot_size <- lift (c_type_to_size E typ) ;;
  let slot_offset := offset ft in
  let addr := baseaddr + idx * cls_size + slot_offset in
  bytes <- lift (bytearray slot_size) ;;
  byte_data <- lift (slot_value typ v) ;;
  let bytes := ba_store_slice 0 (length byte_data) byte_data bytes in
  memory_write addr slot_size bytes.

(** ** Slot-vector read *)

(** [a[i] = v] on a NumPy [uint8] array, [v] a Python int. *)
Definition np_store (i : nat) (v : Z) (a : list Z) : exn + list Z :=
  if is_byte v then inr (<[i := v]> a)
  else if numpy_raises E then inl OverflowError
  else inr (<[i := v `mod` 256]> a).

(** [np.frombuffer(b, dtype=np.uint16)]. *)
Fixpoint uint16_pairs (bs : list Z) : list Z :=
  match bs with
  | lo :: hi :: bs' => (lo + 256 * hi) :: uint16_pairs bs'
  | _ => []
  end.

Definition frombuffer_uint16 (b : option (list Z)) : exn + list Z :=
  match b with
  | None => inl TypeError
  | Some bs =>
      if Nat.even (length bs) then inr (uint16_pairs bs) else inl ValueError
  end.

(** The request of [read_cstruct_slot_v]; item 9 is never assigned. *)
Definition read_cstruct_slot_v_frame (cls : CStruct) (slot_name : string)
  : M (list Z) :=
  vcnt <- lift (getitem (c_vector E) (cls_name cls)) ;;
  addr <- lift (getitem (armh7_elf_alist E) (cls_name cls)) ;;
  let cls_size := cls_size cls in
  ft <- lift (getitem (fields_types cls) slot_name) ;;
  let slot_offset := offset ft in
  element_size <- lift (c_type_to_size E (c_type ft)) ;;
  let n := 11%nat in
  let byte_list := replicate n 0 in
  byte_list <- lift (np_store 0 11 byte_list) ;;
  byte_list <- lift (np_store 1 251 byte_list) ;;
  let byte_list :=
    ba_store_slice 2 6
      (map (fun i => Z.land (Z.shiftr (addr + slot_offset) (i * 8)) 255)
           (range 4))
      byte_list in
  byte_list <- lift (np_store 6 vcnt byte_list) ;;
  byte_list <- lift (np_store 7 element_size byte_list) ;;
  byte_list <- lift (np_store 8 cls_size byte_list) ;;
  lift (np_store (n - 1) (rcb4_checksum E byte_list) byte_list).

Definition read_cstruct_slot_v (cls : CStruct) (slot_name : string)
  : M (list Z) :=
  byte_list <- read_cstruct_slot_v_frame cls slot_name ;;
  b <- serial_write fuel byte_list ;;
  lift (frombuffer_uint16 b).

(** ** Discovery *)

Definition sorted (l : list Z) : list Z := merge_sort Z.le l.

(** One turn of the loop of [search_wheel_sids]: the two [if]s follow one
    another, the second is not nested in the first. *)
Definition wheel_turn (indices : list Z) (idx : Z) : M (list Z) :=
  servo <- memory_cstruct (ServoStruct E) idx None None ;;
  rotation <- lift (cstruct_attr E (ServoStruct E) servo "rotation") ;;
  let indices := if 0 <? rotation then indices ++ [idx] else indices in
  feedback <- lift (cstruct_attr E (ServoStruct E) servo "feedback") ;;
  (if 0 <? feedback
   then set_cstruct_slot (ServoStruct E) idx "feedback" (VInt 0) ;;;
        ret tt
   else ret tt) ;;;
  ret indices.

(** Iterating over [self.servo_sorted_ids] while it is [None] is a
    [TypeError]. *)
Definition search_wheel_sids : M (list Z) :=
  ids <- (fun st => match servo_sorted_ids st with
                    | Some ids => (Ret ids, st)
                    | None => (Raise TypeError, st)
                    end) ;;
  indices <- for_each ids wheel_turn [] ;;
  (fun st => (Ret tt, set_wheel_servo_sorted_ids (sorted indices) st)) ;;;
  ret indices.

Definition search_worm_ids : M (list Z) :=
  indices <-
    for_each (range (max_sensor_num E))
      (fun indices idx =>
         worm <- memory_cstruct (WormmoduleStruct E) idx None None ;;
         module_type <-
           lift (cstruct_attr E (WormmoduleStruct E) worm "module_type") ;;
         ret (if module_type =? 1 then indices ++ [idx] else indices))
      [] ;;
  (fun st => (Ret tt, set_worm_sorted_ids indices st)) ;;;
  ret indices.

(** [0 <= idx < max_sensor_num]. *)
Definition valid_index (idx : Z) : bool :=
  (0 <=? idx) && (idx <? max_sensor_num E).

(** ** Worm modules *)

Definition read_worm_angle (idx : Z) : M Z :=
  (if valid_index idx then ret tt else say (PrintWormIndexOutOfRange idx)) ;;;
  ids <- (fun st => match worm_sorted_ids st with
                    | None =>
                        (ids <- search_worm_ids ;;
                         (fun st' => (Ret ids, set_worm_sorted_ids ids st'))) st
                    | Some ids => (Ret ids, st)
                    end) ;;
  (if decide (idx ∈ ids) then ret tt
   else say (PrintWormIndexNotListed idx ids)) ;;;
  worm <- memory_cstruct (WormmoduleStruct E) idx None None ;;
  lift (cstruct_attr E (WormmoduleStruct E) worm "present_angle").

Definition servo_angle_vector (servo_ids servo_vector : list Z) (velocity : Z)
  : M (option (list Z)) :=
  let byte_list :=
    [MultiServoSingleVelocity E] ++ rcb4_servo_ids_to_5bytes E servo_ids
      ++ [rcb4_velocity E velocity]
      ++ rcb4_servo_positions E servo_ids servo_vector in
  let byte_list := (2 + Z.of_nat (length byte_list)) :: byte_list in
  let byte_list := byte_list ++ [rcb4_checksum E byte_list] in
  serial_write fuel byte_list.

(** The value is [None] (nothing returned) or the struct read back. *)
Definition send_worm_angle_and_threshold (worm_idx : Z)
    (angle threshold threshold_scale : pyval) (sign : Z)
  : M (option (option (list Z))) :=
  let angle_lst := VList [angle] in
  let th_lst := VList [threshold] in
  let th_scale_lst := VList [threshold_scale] in
  if negb (valid_index worm_idx) then
    say (PrintInvalidWormIdxLower worm_idx) ;;; ret None
  else
    worm <- memory_cstruct (WormmoduleStruct E) worm_idx None None ;;
    write_cls_alist (WormmoduleStruct E) worm_idx "ref_angle" angle_lst ;;;
    write_cls_alist (WormmoduleStruct E) worm_idx "thleshold" th_lst ;;;
    write_cls_alist (WormmoduleStruct E) worm_idx "thleshold_scale"
      th_scale_lst ;;;
    servo_id <- lift (cstruct_attr E (WormmoduleStruct E) worm "servo_id") ;;
    servo_angle_vector [servo_id] [sign * 135 * 30 + 7500] 10 ;;;
    worm <- memory_cstruct (WormmoduleStruct E) worm_idx None None ;;
    ret (Some worm).

(** [if value is not None: write_cls_alist(..., slot_name, [value])]. *)
Definition write_if_given (worm_idx : Z) (slot_name : string) (value : pyval)
  : M unit :=
  match value with
  | VNone => ret tt
  | _ =>
      write_cls_alist (WormmoduleStruct E) worm_idx slot_name (VList [value])
      ;;; ret tt
  end.

Definition int_or_none (o : option Z) : pyval :=
  match o with
  | None => VNone
  | Some z => VInt z
  end.

(** [magenc_offset] is an encoder count, an int or [None]; the other
    optional arguments are [VNone] for [None]. *)
Definition send_worm_calib_data (worm_idx : Z)
    (servo_idx sensor_idx module_type : pyval) (magenc_offset : option Z)
    (upper_limit thleshold_scale timeout_time_scale gear_ratio : pyval)
  : M (option (option (list Z))) :=
  if negb (valid_index worm_idx) then
    say (PrintInvalidWormIdx worm_idx) ;;; ret None
  else
    say (PrintCalibIds worm_idx module_type servo_idx sensor_idx) ;;;
    say (PrintCalibParams (int_or_none magenc_offset) upper_limit
           thleshold_scale timeout_time_scale gear_ratio) ;;;
    write_if_given worm_idx "module_type" module_type ;;;
    write_if_given worm_idx "servo_id" servo_idx ;;;
    write_if_given worm_idx "sensor_id" sensor_idx ;;;
    write_cls_alist (WormmoduleStruct E) worm_idx "move_state"
      (VList [VInt 0]) ;;;
    match magenc_offset with
    | None => ret tt
    | Some m =>
        write_cls_alist (WormmoduleStruct E) worm_idx "magenc_init"
          (VList [VInt (m `mod` 2 ^ 14)]) ;;;
        ret tt
    end ;;;
    write_if_given worm_idx "linear_upper_limit" upper_limit ;;;
    write_if_given worm_idx "thleshold_scale" thleshold_scale ;;;
    write_if_given worm_idx "timeout_time_scale" timeout_time_scale ;;;
    write_if_given worm_idx "gear_ratio" gear_ratio ;;;
    worm <- memory_cstruct (WormmoduleStruct E) worm_idx None None ;;
    ret (Some worm).

(** The defaults of the signature of [send_worm_calib_data]. *)
Definition default_upper_limit : pyval := VFloat 69 0.
Definition default_thleshold_scale : pyval := VFloat 5 0.
Definition default_timeout_time_scale : pyval := VFloat 5 (-2).
Definition default_gear_ratio : pyval := VFloat 20 0.

(** ** Slot-vector write *)

(** [struct.pack_into(fmt, buf, pos, v)] for an unsigned [k]-byte format. *)
Definition pack_into (k pos : nat) (v : Z) (buf : list Z) : exn + list Z :=
  if (Z.of_nat (length buf) <? Z.of_nat (pos + k)) || (v <? 0)
     || (2 ^ (8 * Z.of_nat k) <=? v)
  then inl StructError
  else inr (ba_store_slice pos (pos + k) (le_bytes k v) buf).

(** One turn of [for i in range(vcnt)] in [write_cstruct_slot_v].  [esize]
    is bound to the field's [c_type], a string, so once [vec[i]] has been
    fetched the offset [10 + i * esize] adds an int and a string, a
    [TypeError]; it is evaluated before [struct.pack_into] is entered. *)
Definition write_slot_item (vec : pyval) (byte_list : list Z) (i : Z)
  : M (list Z) :=
  match vec with
  | VList items =>
      match items !! Z.to_nat i with
      | Some _ => raise TypeError
      | None => raise IndexError
      end
  | _ => raise TypeError
  end.

Definition ctype_to_struct_format (c_type : string) : option string :=
  if decide (c_type = ":integer") then Some "i"
  else if decide (c_type = ":byte") then Some "b"
  else if decide (c_type = ":short") then Some "h"
  else if decide (c_type = ":float") then Some "f"
  else if decide (c_type = ":double") then Some "d"
  else None.

(** [slot_vector_from_str]: the same [esize] makes [offset + i * esize] a
    [TypeError] on the first turn of its loop, whatever [fmt] is. *)
Definition slot_vector_from_str (byte_str : option (list Z)) (cls : CStruct)
    (slot_name : string) : M (list pyval) :=
  length <- lift (getitem (c_vector E) (cls_name cls)) ;;
  let vec := replicate (Z.to_nat length) VNone in
  ft <- lift (getitem (fields_types cls) slot_name) ;;
  _ <- lift (c_type_to_size E (c_type ft)) ;;
  let fmt := ctype_to_struct_format (c_type ft) in
  for_each (range length) (fun _ _ => raise TypeError) vec.

(** The value is [None] for the bare [return] of the size guard. *)
Definition write_cstruct_slot_v (cls : CStruct) (slot_name : string)
    (vec : pyval) : M (option (list pyval)) :=
  vcnt <- lift (getitem (c_vector E) (cls_name cls)) ;;
  addr <- lift (getitem (armh7_elf_alist E) (cls_name cls)) ;;
  let skip_size := cls_size cls in
  ft <- lift (getitem (fields_types cls) slot_name) ;;
  let typ := c_type ft in
  tsize <- lift (c_type_to_size E typ) ;;
  let offset := offset ft in
  let n := 11 + tsize * vcnt in
  if 240 <? n then
    say (PrintShouldBeLessThan240 n) ;;; ret None
  else
    byte_list <- lift (bytearray n) ;;
    byte_list <- lift (ba_store 0 n byte_list) ;;
    byte_list <- lift (ba_store 1 252 byte_list) ;;
    byte_list <- lift (pack_into 4 2 (addr + offset) byte_list) ;;
    byte_list <- lift (ba_store 6 vcnt byte_list) ;;
    byte_list <- lift (ba_store 7 tsize byte_list) ;;
    byte_list <- lift (pack_into 2 8 skip_size byte_list) ;;
    byte_list <- for_each (range vcnt) (write_slot_item vec) byte_list ;;
    byte_list <- lift (ba_store (n - 1) (rcb4_checksum E byte_list)
                         byte_list) ;;
    s <- serial_write fuel byte_list ;;
    v <- slot_vector_from_str s cls slot_name ;;
    ret (Some v).

End Interface.

(** ** A concrete environment for the examples *)

Module Demo.

(** [rcb4_checksum] as the low byte of the sum of the bytes. *)
Definition sum_checksum (byte_list : list Z) : Z :=
  Z.land (foldr (fun b acc => Z.land b 255 + acc) 0 byte_list) 255.

Definition type_size (typ : string) : exn + Z :=
  if decide (typ = "uint8") then inr 1
  else if decide (typ = "uint16") then inr 2
  else if decide (typ = "int32") then inr 4
  else if decide (typ = "float") then inr 4
  else if decide (typ = "double") then inr 8
  else inl KeyError.

(** The names the symbol table is built for ([armh7_variable_list]). *)
Definition armh7_variable_list : list string :=
  ["walking_command"; "walking_mode"; "rom_to_flash"; "flash_to_rom";
   "Mfilter"; "set_sidata_command"; "set_sdata_command";
   "set_edata_command"; "sidata_to_dataram"; "dataflash_to_dataram";
   "servo_vector"; "dataram_to_dataflash"; "_sidata"; "_sdata";
   "uwTickPrio"; "__fdlib_version"; "_impure_ptr"; "_edata"; "_sbss";
   "_ebss"; "servo_idmode_scan"; "buzzer_init_sound";
   "servo_idmode_scan_single"; "imu_data_"; "Sensor_vector"; "Worm_vector";
   "SysB"; "data_address"].

(** Symbol [k] of the list sits at [0x24000000 + 0x1000 * (k + 1)]. *)
Definition elf_alist : gmap string Z :=
  list_to_map
    (imap (fun k name => (name, 603979776 + 4096 * (Z.of_nat k + 1)))
          armh7_variable_list).

Definition vector_lengths : gmap string Z :=
  list_to_map [("servo_vector", 4); ("Worm_vector", 2); ("Sensor_vector", 36);
               ("SysB", 2)].

Definition servo : CStruct :=
  mkCStruct "servo_vector" 8
    (list_to_map
       [("flag", mkFieldType "uint8" 0);
        ("rotation", mkFieldType "uint8" 1);
        ("feedback", mkFieldType "uint8" 2);
        ("ref_angle", mkFieldType "uint16" 4);
        ("current_angle", mkFieldType "uint16" 6)]).

Definition worm : CStruct :=
  mkCStruct "Worm_vector" 16
    (list_to_map
       [("module_type", mkFieldType "uint16" 0);
        ("servo_id", mkFieldType "uint16" 2);
        ("sensor_id", mkFieldType "uint16" 4);
        ("move_state", mkFieldType "uint16" 6);
        ("magenc_init", mkFieldType "uint16" 8);
        ("present_angle", mkFieldType "int32" 12)]).

(** Thirty-six sensor records of 32 bytes. *)
Definition sensor : CStruct :=
  mkCStruct "Sensor_vector" 32
    (list_to_map
       [("port", mkFieldType "uint8" 0);
        ("id", mkFieldType "uint8" 1);
        ("gyro", mkFieldType "float" 4);
        ("adc", mkFieldType "double" 8)]).

(** Two records of 300 bytes. *)
Definition sysb : CStruct :=
  mkCStruct "SysB" 300 (list_to_map [("count", mkFieldType "uint16" 0)]).

(** Attribute of a struct built from a buffer: a little-endian unsigned
    field; a buffer that is [None] or too short reads as 0. *)

Definition attr (cls : CStruct) (buf : option (list Z)) (name : string)
  : exn + Z :=
  match fields_types cls !! name with
  | None => inl AttributeError
  | Some ft =>
      match type_size (c_type ft) with
      | inl e => inl e
      | inr k =>
          inr (le_value (take (Z.to_nat k)
                           (drop (Z.to_nat (offset ft)) (default [] buf))))
      end
  end.

(** The conversion to binary32, rounding to nearest even: sign, biased
    exponent and fraction of the rounded value; subnormals have the biased
    exponent 0. *)
Definition binary32 (m e : Z) : option Z :=
  let sign (s : bool) := if s then 2 ^ 31 else 0 in
  match binary_normalize 24 128 m e false with
  | S754_zero s => Some (sign s)
  | S754_finite s mant expo =>
      Some (sign s
            + (if Z.pos mant <? 2 ^ 23 then Z.pos mant
               else (expo + 150) * 2 ^ 23 + (Z.pos mant - 2 ^ 23)))
  | _ => None
  end.

Definition env : Env :=
  mkEnv sum_checksum type_size elf_alist vector_lengths 2 servo worm attr
        binary32 false 16 (fun ids => ids) (fun v => v)
        (fun _ pos => pos).

(** The same with a NumPy that refuses out-of-range integers. *)
Definition env_numpy2 : Env :=
  mkEnv sum_checksum type_size elf_alist vector_lengths 2 servo worm attr
        binary32 true 16 (fun ids => ids) (fun v => v)
        (fun _ pos => pos).

(** An opened session whose line will deliver [events]. *)
Definition session (events : list RxEvent) : State :=
  mkState (Some "/dev/ttyUSB1") (mkWire [] events []) [] None None None None.

(** A well-formed response frame around [data]. *)
Definition reply (data : list Z) : RxEvent :=
  let body := Z.of_nat (length data + 2) :: data in
  RxBytes (body ++ [sum_checksum body]).

(** The session after the requests [frames], with [events] still queued. *)
Definition after_requests (frames : list (list Z)) (events : list RxEvent)
  : State :=
  mkState (Some "/dev/ttyUSB1") (mkWire frames events []) [] None None None
          None.

(** An opened session after [search_servo_ids] found the servos [ids]. *)
Definition discovered (ids : list Z) (events : list RxEvent) : State :=
  mkState (Some "/dev/ttyUSB1") (mkWire [] events []) [] None (Some ids) None
          None.

(** The same session before [open]. *)
Definition closed_session (events : list RxEvent) : State :=
  mkState None (mkWire [] events []) [] None None None None.

End Demo.

(** * The rest of the interface *)

Definition set_servo_sorted_ids (ids : list Z) (st : State) : State :=
  mkState (serial st) (wire st) (stdout st) (id_vector st) (Some ids)
          (worm_sorted_ids st) (wheel_servo_sorted_ids st).

Definition set_id_vector (ids : list Z) (st : State) : State :=
  mkState (serial st) (wire st) (stdout st) (Some ids) (servo_sorted_ids st)
          (worm_sorted_ids st) (wheel_servo_sorted_ids st).


Section Interface2.

Variable E : Env.
Variable fuel : nat.

(** ** Ack probe *)



(** ** Vector reads of the servo array *)

Definition reference_angle_vector : M (list Z) :=
  read_cstruct_slot_v E fuel (ServoStruct E) "ref_angle".

Definition angle_vector : M (list Z) :=
  read_cstruct_slot_v E fuel (ServoStruct E) "current_angle".

(** ** Servo discovery; [rcb4_dof] comes from [rcb4.rcb4interface]. *)

Variable rcb4_dof : Z.

Definition servo_turn (indices : list Z) (idx : Z) : M (list Z) :=
  servo <- memory_cstruct E fuel (ServoStruct E) idx None None ;;
  flag <- lift (cstruct_attr E (ServoStruct E) servo "flag") ;;
  ret (if 0 <? flag then indices ++ [idx] else indices).

Definition search_servo_ids : M (list Z) :=
  indices <- for_each (range rcb4_dof) servo_turn [] ;;
  (fun st => (Ret tt, set_servo_sorted_ids indices st)) ;;;
  ret indices.

(** ** Servo commands *)

(** [if servo_ids is None: servo_ids = self.servo_sorted_ids], followed by
    [len(servo_ids)], a [TypeError] while the attribute is still [None]. *)
Definition ids_or_sorted (servo_ids : option (list Z)) : M (list Z) :=
  match servo_ids with
  | Some ids => ret ids
  | None =>
      fun st => match servo_sorted_ids st with
                | Some ids => (Ret ids, st)
                | None => (Raise TypeError, st)
                end
  end.

Definition hold (servo_ids : option (list Z)) : M (option (list Z)) :=
  servo_ids <- ids_or_sorted servo_ids ;;
  let servo_vector := replicate (length servo_ids) 32767 in
  servo_angle_vector E fuel servo_ids servo_vector 1000.

Definition free (servo_ids : option (list Z)) : M (option (list Z)) :=
  servo_ids <- ids_or_sorted servo_ids ;;
  let servo_vector := replicate (length servo_ids) 32768 in
  servo_angle_vector E fuel servo_ids servo_vector 1000.

Definition neutral (servo_ids : option (list Z)) (velocity : Z)
  : M (option (list Z)) :=
  servo_ids <- ids_or_sorted servo_ids ;;
  let servo_vector := replicate (length servo_ids) 7500 in
  servo_angle_vector E fuel servo_ids servo_vector velocity.

(** ** Firmware functions *)

Definition buzzer : M (option (list Z)) :=
  cfunc_call E fuel "buzzer_init_sound" [VList []].

Definition write_to_flash : M (option (list Z)) :=
  cfunc_call E fuel "rom_to_flash" [VList []].

(** ** Joint-base sensors; [SensorbaseStruct] and [sensor_sidx] come from
    [rcb4.struct_header]. *)

Variable SensorbaseStruct : CStruct.
Variable sensor_sidx : Z.

Definition sensor_turn (ret_ : list Z) (i : Z) : M (list Z) :=
  sensor <- memory_cstruct E fuel SensorbaseStruct i None None ;;
  port <- lift (cstruct_attr E SensorbaseStruct sensor "port") ;;
  id <- lift (cstruct_attr E SensorbaseStruct sensor "id") ;;
  ret (if (0 <? port) && (id =? (i + sensor_sidx) `div` 2)
       then ret_ ++ [i + sensor_sidx] else ret_).

Definition read_jointbase_sensor_ids : M (list Z) :=
  fun st =>
    match id_vector st with
    | Some ids => (Ret ids, st)
    | None =>
        (ret_ <- for_each (range (max_sensor_num E)) sensor_turn [] ;;
         (fun st' => (Ret (sorted ret_), set_id_vector (sorted ret_) st'))) st
    end.



(** ** Data-segment bookkeeping; [DataAddress] comes from
    [rcb4.struct_header]. *)

Variable DataAddress : CStruct.

(** The value is the decoded vector of a read, or what the write path
    returns. *)
Definition cstruct_slot (cls : CStruct) (slot_name : string) (v : option pyval)
  : M (list Z + option (list pyval)) :=
  match v with
  | Some v => r <- write_cstruct_slot_v E fuel cls slot_name v ;; ret (inr r)
  | None => r <- read_cstruct_slot_v E fuel cls slot_name ;; ret (inl r)
  end.

(** [x or armh7_elf_alist[name]]: the table is consulted when [x] is [None]
    or 0. *)
Definition or_symbol (x : option Z) (name : string) : exn + Z :=
  match x with
  | Some z => if z =? 0 then getitem (armh7_elf_alist E) name else inr z
  | None => getitem (armh7_elf_alist E) name
  end.

Definition set_sidata (sidata : option Z) : M (list Z + option (list pyval)) :=
  sidata <- lift (or_symbol sidata "_sidata") ;;
  cstruct_slot DataAddress "_sidata" (Some (VInt sidata)).

Definition set_sdata (sdata : option Z) : M (list Z + option (list pyval)) :=
  sdata <- lift (or_symbol sdata "_sdata") ;;
  cstruct_slot DataAddress "_sdata" (Some (VInt sdata)).

Definition set_edata (edata : option Z) : M (list Z + option (list pyval)) :=
  edata <- lift (or_symbol edata "_edata") ;;
  cstruct_slot DataAddress "_edata" (Some (VInt edata)).

Definition set_data_size (sdata edata : option Z)
  : M (list Z + option (list pyval)) :=
  sdata <- lift (or_symbol sdata "_sdata") ;;
  edata <- lift (or_symbol edata "uwTickPrio") ;;
  cstruct_slot DataAddress "data_size" (Some (VInt (edata - sdata))).

Definition set_data_address : M unit :=
  set_sidata None ;;;
  set_sdata None ;;;
  set_edata None ;;;
  set_data_size None None ;;;
  ret tt.

End Interface2.

(** ** Symbol lookup in the firmware image *)

(** What [get_func_address] sees of the image: its sections in order, a
    symbol table with the name and [st_value] of its symbols, or any other
    section. *)
Inductive ElfSection : Type :=
| SymbolTableSection (symbols : list (string * Z))
| OtherSection.

(** The inner loop: the value of the first symbol called [name]. *)
Fixpoint first_symbol (name : string) (symbols : list (string * Z))
  : option Z :=
  match symbols with
  | [] => None
  | (symbol_name, st_value) :: symbols' =>
      if decide (symbol_name = name) then Some st_value
      else first_symbol name symbols'
  end.

(** [if address:] on [None] or an int. *)
Definition truthy (address : option Z) : bool :=
  match address with
  | Some a => negb (a =? 0)
  | None => false
  end.

Definition failed_to_find (name : string) : exn :=
  RuntimeError (String.append "Failed to find " name).

(** The outer [for ... else]: [address] survives from one section to the
    next, the loop is left as soon as it is truthy, and the [else] branch
    raises when the sections are exhausted. *)
Fixpoint scan_sections (name : string) (sections : list ElfSection)
    (address : option Z) : exn + option Z :=
  match sections with
  | [] => inl (failed_to_find name)
  | section :: sections' =>
      let address :=
        match section with
        | SymbolTableSection symbols =>
            match first_symbol name symbols with
            | Some st_value => Some st_value
            | None => address
            end
        | OtherSection => address
        end in
      if truthy address then inr address
      else scan_sections name sections' address
  end.

Definition get_func_address (elf : list ElfSection) (name : string)
  : exn + option Z :=
  scan_sections name elf None.

Definition armh7_variable_list : list string := Demo.armh7_variable_list.

(** The dict comprehension building [armh7_elf_alist], name by name. *)
Fixpoint elf_alist_of (elf : list ElfSection) (names : list string)
    (acc : gmap string (option Z)) : exn + gmap string (option Z) :=
  match names with
  | [] => inr acc
  | name :: names' =>
      match get_func_address elf name with
      | inl e => inl e
      | inr address => elf_alist_of elf names' (<[name := address]> acc)
      end
  end.

Definition build_armh7_elf_alist (elf : list ElfSection)
  : exn + gmap string (option Z) :=
  elf_alist_of elf armh7_variable_list ∅.

(** ** EEPROM parameters *)

Definition servo_eeprom_params64 : list (string * list Z) :=
  [("fix_header", [1; 2]);
   ("stretch_gain", [3; 4]);
   ("speed", [5; 6]);
   ("punch", [7; 8]);
   ("dead_band", [9; 10]);
   ("dumping", [11; 12]);
   ("safe_timer", [13; 14]);
   ("mode_flag_b7slave_b4rotation_b3pwm_b1free_b0reverse", [15; 16]);
   ("pulse_max_limit", [17; 18; 19; 20]);
   ("pulse_min_limit", [21; 22; 23; 24]);
   ("fix_dont_change_25", [25; 26]);
   ("ics_baud_rate_10_115200_00_1250000", [27; 28]);
   ("temperature_limit", [29; 30]);
   ("current_limit", [31; 32]);
   ("fix_dont_change_33", [33; 34]);
   ("fix_dont_change_35", [35; 36]);
   ("fix_dont_change_37", [37; 38]);
   ("fix_dont_change_39", [39; 40]);
   ("fix_dont_change_41", [41; 42]);
   ("fix_dont_change_43", [43; 44]);
   ("fix_dont_change_45", [45; 46]);
   ("fix_dont_change_47", [47; 48]);
   ("fix_dont_change_49", [49; 50]);
   ("response", [51; 52]);
   ("user_offset", [53; 54]);
   ("fix_dont_change_55", [55; 56]);
   ("servo_id", [57; 58]);
   ("stretch_1", [59; 60]);
   ("stretch_2", [61; 62]);
   ("stretch_3", [63; 64])].

(** [servo_eeprom_params64[param_name]]. *)
Fixpoint params64_getitem (table : list (string * list Z)) (name : string)
  : exn + list Z :=
  match table with
  | [] => inl KeyError
  | (key, indices) :: table' =>
      if decide (key = name) then inr indices
      else params64_getitem table' name
  end.

Section Eeprom.

Variable E : Env.
Variable fuel : nat.

(** [four_bit_to_num] comes from [rcb4.asm]; [cstruct_params buf] is the
    attribute [ServoStruct(buf).params]. *)
Variable four_bit_to_num : list Z -> list Z -> exn + Z.
Variable cstruct_params : option (list Z) -> exn + list Z.

Definition param_turn (v : option (list Z)) (param_values : gmap string Z)
    (param_name : string) : M (gmap string Z) :=
  indices <- lift (params64_getitem servo_eeprom_params64 param_name) ;;
  params <- lift (cstruct_params v) ;;
  param_value <- lift (four_bit_to_num indices params) ;;
  ret (<[param_name := param_value]> param_values).

Definition servo_param64 (sid : Z) (param_names : option (list string))
  : M (gmap string Z) :=
  v <- memory_cstruct E fuel (ServoStruct E) sid None None ;;
  let param_names :=
    match param_names with
    | None => servo_eeprom_params64.*1
    | Some names => names
    end in
  for_each param_names (param_turn v) ∅.

(** [[self.servo_param64(sid, ['stretch_gain'])['stretch_gain'] // 2
      for sid in servo_ids]]. *)
Definition read_stretch (servo_ids : option (list Z)) : M (list Z) :=
  servo_ids <- (match servo_ids with
                | Some ids => ret ids
                | None =>
                    fun st => match servo_sorted_ids st with
                              | Some ids => (Ret ids, st)
                              | None => (Raise TypeError, st)
                              end
                end) ;;
  for_each servo_ids
    (fun acc sid =>
       d <- servo_param64 sid (Some ["stretch_gain"]) ;;
       g <- lift (getitem d "stretch_gain") ;;
       ret (acc ++ [g `div` 2]))
    [].

End Eeprom.

(** ** The ROS bridge: the node's namespace (rcb4_ros_bridge.py) *)

(** [s.rfind(c)] for a one-character [c]: the highest index of [c] in [s],
    -1 without one. *)
Fixpoint rfind_from (c : Ascii.ascii) (s : list Ascii.ascii) (i last : Z)
  : Z :=
  match s with
  | [] => last
  | a :: s' => rfind_from c s' (i + 1) (if Ascii.eqb a c then i else last)
  end.

Definition rfind (c : Ascii.ascii) (s : list Ascii.ascii) : Z :=
  rfind_from c s 0 (-1).

(** [s[:k]]: a negative [k] counts from the end. *)
Definition slice_to (k : Z) (s : list Ascii.ascii) : list Ascii.ascii :=
  if k <? 0 then take (Z.to_nat (Z.of_nat (length s) + k)) s
  else take (Z.to_nat k) s.

(** The character ['/'], code 47. *)
Definition slash : Ascii.ascii :=
  Ascii.Ascii true true true true false true false false.

(** [get_base_namespace] on the string [rospy.get_namespace()] returns. *)
Definition get_base_namespace (full_namespace : list Ascii.ascii)
  : list Ascii.ascii :=
  let last_slash_pos := rfind slash full_namespace in
  if negb (last_slash_pos =? 0) then slice_to last_slash_pos full_namespace
  else [].

(** ** More concrete data for the examples *)

Module Samples.

Definition type_size (typ : string) : exn + Z :=
  if decide (typ = "uint32") then inr 4 else Demo.type_size typ.

Definition vector_lengths : gmap string Z :=
  <["data_address" := 1]> Demo.vector_lengths.

(** The bookkeeping record: four 32-bit words. *)
Definition data_address : CStruct :=
  mkCStruct "data_address" 16
    (list_to_map
       [("_sidata", mkFieldType "uint32" 0);
        ("_sdata", mkFieldType "uint32" 4);
        ("_edata", mkFieldType "uint32" 8);
        ("data_size", mkFieldType "uint32" 12)]).

(** Stand-ins for the packet helpers of [rcb4.asm]: the servo ids as a
    bit mask of five bytes, the velocity clipped to one byte, and two bytes
    for each position. *)
Definition ids_mask (servo_ids : list Z) : list Z :=
  le_bytes 5 (foldr (fun id acc => Z.lor (Z.shiftl 1 id) acc) 0 servo_ids).

Definition clipped_velocity (v : Z) : Z := Z.max 1 (Z.min 255 v).

Definition positions (servo_ids servo_vector : list Z) : list Z :=
  concat (le_bytes 2 <$> servo_vector).

Definition env : Env :=
  mkEnv Demo.sum_checksum type_size Demo.elf_alist vector_lengths 2
        Demo.servo Demo.worm Demo.attr Demo.binary32 false 16
        ids_mask clipped_velocity positions.

(** A firmware image with two symbol tables around a code section; the
    first table lists [servo_vector] without an address. *)
Definition image : list ElfSection :=
  [SymbolTableSection [("servo_vector", 0); ("_sdata", 603979776)];
   OtherSection;
   SymbolTableSection
     [("Worm_vector", 604086272); ("servo_vector", 604024832);
      ("Worm_vector", 1)]].

(** A stand-in for [four_bit_to_num]: the low nibbles of the bytes at the
    given positions (counted from 1), most significant first. *)
Definition nibbles (indices params : list Z) : exn + Z :=
  foldl (fun acc i =>
           match acc, params !! Z.to_nat (i - 1) with
           | inr n, Some b => inr (16 * n + Z.land b 15)
           | inr _, None => inl IndexError
           | inl e, _ => inl e
           end) (inr 0) indices.

(** A stand-in for the attribute [params]: the bytes of the servo record. *)
Definition servo_params (buf : option (list Z)) : exn + list Z :=
  match buf with
  | Some bs => inr bs
  | None => inl AttributeError
  end.

End Samples.

(** * Vocabulary of the statements *)

(** The state once the line has only [evs] left to deliver. *)
Definition set_rx (evs : list RxEvent) (st : State) : State :=
  set_wire (mkWire (tx (wire st)) evs (tx_faults (wire st))) st.

(** The reassembly loop goes on: nothing accumulated yet, or a first byte
    that differs from the number of bytes accumulated. *)
Definition needs_more (acc : list Z) : bool :=
  match acc with
  | [] => true
  | b :: _ => negb (b =? Z.of_nat (length acc))
  end.

(** [ret[1:len(ret) - 1]]. *)
Definition payload (acc : list Z) : list Z :=
  slice 1 (length acc - 1) acc.

(** The request [memory_write] builds for [payload] at [addr]: total
    length, opcode [0xFC], address, count 1, element size, stride 0, the
    payload, and the checksum of all that precedes it. *)
Definition memory_write_request (E : Env) (addr length : Z)
    (payload : list Z) : list Z :=
  let body :=
    [length + 11; 252] ++ le_bytes 4 addr ++ [1; length; 0; 0] ++ payload in
  body ++ [rcb4_checksum E body].

(** The checksum collaborator yields one byte. *)
Definition checksum_is_byte (E : Env) : Prop :=
  forall l, is_byte (rcb4_checksum E l) = true.

Definition all_bytes (l : list Z) : Prop :=
  Forall (fun b => is_byte b = true) l.

(** [vec[0]] when [vec] is a list, [vec] itself otherwise. *)
Definition first_item (vec : pyval) : option pyval :=
  match vec with
  | VList [] => None
  | VList (v0 :: _) => Some v0
  | _ => Some vec
  end.

(** The field types [write_cls_alist] and [set_cstruct_slot] encode. *)
Definition supported_types : list string := ["float"; "uint16"; "uint8"].

(** The payload of a single-field write: the packed value in a zeroed
    buffer of the field's size, cut to that size. *)
Definition field_payload (slot_size : nat) (byte_data : list Z) : list Z :=
  take slot_size (byte_data ++ replicate (slot_size - length byte_data) 0).

(** The absolute address of field [ft] of record [idx] of an array of
    [cls] records starting at [base]. *)
Definition field_address (cls : CStruct) (base idx : Z) (ft : FieldType) : Z :=
  base + idx * cls_size cls + offset ft.

(** Requests by opcode: [0xFB] reads, [0xFC] writes. *)
Definition is_read_request (frame : list Z) : bool :=
  match frame with
  | _ :: 251 :: _ => true
  | _ => false
  end.

Definition is_write_request (frame : list Z) : bool :=
  match frame with
  | _ :: 252 :: _ => true
  | _ => false
  end.

(** The device memory a request overwrites, read off the wire format (the
    firmware that serves the requests is not part of the package): a vector
    write (opcode [0xFC]) carries the address in bytes 2..5, the record
    count in byte 6, the element size in byte 7 and the stride in bytes
    8..9, and overwrites [element_size] bytes at [addr + k * stride] for
    each record [k]; no other request writes device memory. *)
Definition request_writes (frame : list Z) : list Z :=
  match frame with
  | _ :: 252 :: a0 :: a1 :: a2 :: a3 :: count :: element_size :: s0 :: s1 :: _ =>
      let addr := le_value [a0; a1; a2; a3] in
      let stride := le_value [s0; s1] in
      k ← range count; (fun j => addr + k * stride + j) <$> range element_size
  | _ => []
  end.

(** The bytes of field [ft] of record [idx]. *)
Definition in_field (E : Env) (cls : CStruct) (base idx : Z) (ft : FieldType)
    (s : nat) (a : Z) : Prop :=
  field_address cls base idx ft <= a
  < field_address cls base idx ft + Z.of_nat s.

(** The requests handed to the port between two states. *)
Definition sent (st st' : State) : list (list Z) :=
  drop (length (tx (wire st))) (tx (wire st')).

(** What the wheel scan saw of one servo: its index and the two flags of
    the record read from the device. *)
Record ServoScan : Type := mkServoScan {
  scan_idx : Z;
  scan_rotation : Z;
  scan_feedback : Z
}.

(** [scanned E fuel ids st recs st']: going through the servos [ids] from
    state [st], reading each record and clearing its feedback flag when it is
    positive, sees [recs] and ends in [st']. *)
Inductive scanned (E : Env) (fuel : nat)
  : list Z -> State -> list ServoScan -> State -> Prop :=
| scanned_nil st : scanned E fuel [] st [] st
| scanned_cons idx ids st servo st1 rotation feedback st2 recs st3 :
    memory_cstruct E fuel (ServoStruct E) idx None None st = (Ret servo, st1) ->
    cstruct_attr E (ServoStruct E) servo "rotation" = inr rotation ->
    cstruct_attr E (ServoStruct E) servo "feedback" = inr feedback ->
    (if 0 <? feedback
     then exists r, set_cstruct_slot E fuel (ServoStruct E) idx "feedback"
                      (VInt 0) st1 = (Ret r, st2)
     else st2 = st1) ->
    scanned E fuel ids st2 recs st3 ->
    scanned E fuel (idx :: ids) st
      (mkServoScan idx rotation feedback :: recs) st3.

(** The servos seen with a positive rotation flag, and those seen with a
    positive feedback flag, in scan order. *)
Definition wheels (recs : list ServoScan) : list Z :=
  scan_idx <$> filter (fun r => 0 < scan_rotation r) recs.

Definition cleared (recs : list ServoScan) : list Z :=
  scan_idx <$> filter (fun r => 0 < scan_feedback r) recs.

(** The state right after [self.serial.write(data)], error message
    included when the write raised. *)
Definition after_write (data : list Z) (st : State) : State :=
  let (failed, w) := port_write data (wire st) in
  if failed then print PrintErrorSending (set_wire w st) else set_wire w st.

(** A frame whose first byte is its own length. *)
Definition well_framed (frame : list Z) : Prop :=
  head frame = Some (Z.of_nat (length frame)).

(** A computation that never touches the serial line, however it ends. *)
Definition keeps_wire {A} (m : M A) : Prop :=
  forall st r st', m st = (r, st') -> wire st' = wire st.

(** One turn of a discovery loop: read record [idx] of the [cls] array and
    keep [idx] when the attribute [name] passes the test [p]. *)
Definition select_turn (E : Env) (fuel : nat) (cls : CStruct) (name : string)
    (p : Z -> bool) (indices : list Z) (idx : Z) : M (list Z) :=
  x <- memory_cstruct E fuel cls idx None None ;;
  v <- lift (cstruct_attr E cls x name) ;;
  ret (if p v then indices ++ [idx] else indices).

(** [read_values E fuel cls name ids st vs st']: reading the records [ids]
    of the [cls] array one after the other from state [st] succeeds, finds
    the values [vs] of their attribute [name], and ends in [st']. *)
Inductive read_values (E : Env) (fuel : nat) (cls : CStruct) (name : string)
  : list Z -> State -> list Z -> State -> Prop :=
| read_values_nil st : read_values E fuel cls name [] st [] st
| read_values_cons idx ids st buf st1 v vs st2 :
    memory_cstruct E fuel cls idx None None st = (Ret buf, st1) ->
    cstruct_attr E cls buf name = inr v ->
    read_values E fuel cls name ids st1 vs st2 ->
    read_values E fuel cls name (idx :: ids) st (v :: vs) st2.

(** The indices whose value passes the test, in order. *)
Definition chosen (p : Z -> bool) (ids vs : list Z) : list Z :=
  (filter (fun iv : Z * Z => p iv.2 = true) (zip ids vs)).*1.

(** What discovery has stored on the interface: [id_vector],
    [servo_sorted_ids], [worm_sorted_ids] and [wheel_servo_sorted_ids]. *)
Definition caches (st : State)
  : option (list Z) * option (list Z) * option (list Z) * option (list Z) :=
  (id_vector st, servo_sorted_ids st, worm_sorted_ids st,
   wheel_servo_sorted_ids st).

(** A computation that leaves them alone, however it ends. *)
Definition keeps_caches {A} (m : M A) : Prop :=
  forall st r st', m st = (r, st') -> caches st' = caches st.

(** The frame [servo_angle_vector] builds. *)
Definition servo_angle_frame (E : Env) (servo_ids servo_vector : list Z)
    (velocity : Z) : list Z :=
  let byte_list :=
    [MultiServoSingleVelocity E] ++ rcb4_servo_ids_to_5bytes E servo_ids
      ++ [rcb4_velocity E velocity]
      ++ rcb4_servo_positions E servo_ids servo_vector in
  let byte_list := (2 + Z.of_nat (length byte_list)) :: byte_list in
  byte_list ++ [rcb4_checksum E byte_list].

(** What one section of the image says about [name]: the value of the first
    symbol of that name in a symbol table, nothing otherwise. *)
Definition section_address (name : string) (section : ElfSection)
  : option Z :=
  match section with
  | SymbolTableSection symbols => first_symbol name symbols
  | OtherSection => None
  end.

(** A computation that hands nothing but read requests to the port, however
    it ends. *)
Definition only_reads {A} (m : M A) : Prop :=
  forall st r st',
    m st = (r, st') ->
    exists reads,
      tx (wire st') = tx (wire st) ++ reads
      /\ Forall (fun f => is_read_request f = true) reads.

(** * Properties *)

(** ** The monad *)

Lemma bind_lift_inr {A B} (a : A) (k : A -> M B) st :
  bind (lift (inr a)) k st = k a st.
Proof. done. Qed.

Lemma bind_lift_inl {A B} e (k : A -> M B) st :
  bind (lift (inl e)) k st = (Raise e, st).
Proof. done. Qed.

Lemma bind_ret {A B} (a : A) (k : A -> M B) st :
  bind (ret a) k st = k a st.
Proof. done. Qed.

Lemma bind_run {A B} (m : M A) (k : A -> M B) st a st' :
  m st = (Ret a, st') -> bind m k st = k a st'.
Proof. unfold bind. by intros ->. Qed.

Lemma bind_say {B} p (k : unit -> M B) st :
  bind (say p) k st = k tt (print p st).
Proof. done. Qed.

Lemma bind_ext_l {A B} (m m' : M A) (k : A -> M B) st :
  m st = m' st -> bind m k st = bind m' k st.
Proof. unfold bind. by intros ->. Qed.

Lemma bind_ext_r {A B} (m : M A) (k k' : A -> M B) st :
  (forall a st', k a st' = k' a st') -> bind m k st = bind m k' st.
Proof. unfold bind. intros Hk. by destruct (m st) as [[a| |] st1]. Qed.

Lemma bind_assoc {A B C} (m : M A) (f : A -> M B) (g : B -> M C) st :
  bind (bind m f) g st = bind m (fun a => bind (f a) g) st.
Proof. unfold bind. by destruct (m st) as [[a| |] st1]. Qed.

(** A [bind] that returns went through a returning first step. *)
Lemma bind_inv {A B} (m : M A) (k : A -> M B) st b st' :
  bind m k st = (Ret b, st') ->
  exists a st1, m st = (Ret a, st1) /\ k a st1 = (Ret b, st').
Proof.
  unfold bind. destruct (m st) as [[a| |] st1]; [|done|done]. by exists a, st1.
Qed.

(** ** The transport *)

Lemma set_rx_same st : set_rx (rx (wire st)) st = st.
Proof. by destruct st as [? [] ? ? ? ? ?]. Qed.

Lemma set_rx_set_rx a b st : set_rx a (set_rx b st) = set_rx a st.
Proof. done. Qed.

Lemma rx_set_rx a st : rx (wire (set_rx a st)) = a.
Proof. done. Qed.

Lemma needs_more_incomplete acc :
  acc <> [] -> needs_more acc = incomplete acc.
Proof. by destruct acc. Qed.

Lemma port_read_cons ev evs st :
  rx (wire st) = ev :: evs ->
  port_read (wire st) = (ev, wire (set_rx evs st)).
Proof. unfold port_read. by intros ->. Qed.

Lemma set_wire_set_rx evs st : set_wire (wire (set_rx evs st)) st = set_rx evs st.
Proof. done. Qed.

(** *** What a returned value tells about the reads *)

Lemma serial_read_first_some fuel st first st' :
  serial_read_first fuel st = (Ret (Some first), st') ->
  exists k,
    rx (wire st) = map RxBytes (replicate k []) ++ RxBytes first :: rx (wire st')
    /\ first <> [] /\ st' = set_rx (rx (wire st')) st.
Proof.
  revert st. induction fuel as [|fuel IH]; intros st; simpl; [done|].
  unfold port_read. destruct (rx (wire st)) as [|ev evs] eqn:Hrx.
  - simpl. intros H.
    destruct (IH _ H) as (k & Hk & _). simpl in Hk.
    rewrite Hrx in Hk. by destruct k.
  - destruct ev as [bs|]; [|done].
    destruct (decide (length bs = 0%nat)) as [Hlen|Hlen].
    + intros H. destruct (IH _ H) as (k & Hk & Hne & Hst).
      simpl in Hk. exists (S k). simpl. rewrite Hk.
      destruct bs; [|done]. split; [done|]. split; [done|].
      rewrite Hst at 1. done.
    + intros [= <- <-]. exists 0%nat. simpl. split; [done|].
      split; [by destruct bs|done].
Qed.

Lemma serial_read_first_none fuel st st' :
  serial_read_first fuel st = (Ret None, st') ->
  exists k,
    rx (wire st) = map RxBytes (replicate k []) ++ RxError :: rx (wire st')
    /\ st' = print PrintErrorReading (set_rx (rx (wire st')) st).
Proof.
  revert st. induction fuel as [|fuel IH]; intros st; simpl; [done|].
  unfold port_read. destruct (rx (wire st)) as [|ev evs] eqn:Hrx.
  - simpl. intros H.
    destruct (IH _ H) as (k & Hk & _). simpl in Hk.
    rewrite Hrx in Hk. by destruct k.
  - destruct ev as [bs|].
    + destruct (decide (length bs = 0%nat)) as [Hlen|Hlen]; [|done].
      intros H. destruct (IH _ H) as (k & Hk & Hst).
      simpl in Hk. exists (S k). simpl. rewrite Hk.
      destruct bs; [|done]. split; [done|].
      rewrite Hst at 1. done.
    + intros [= <-]. exists 0%nat. simpl. done.
Qed.

Lemma serial_read_rest_some fuel acc st acc' st' :
  serial_read_rest fuel acc st = (Ret (Some acc'), st') ->
  exists chunks,
    rx (wire st) = map RxBytes chunks ++ rx (wire st')
    /\ acc' = acc ++ concat chunks
    /\ incomplete acc' = false
    /\ (forall p q, chunks = p ++ q -> q <> [] ->
                    incomplete (acc ++ concat p) = true)
    /\ st' = set_rx (rx (wire st')) st.
Proof.
  revert acc st. induction fuel as [|fuel IH]; intros acc st.
  - simpl. destruct (incomplete acc) eqn:Hinc; [done|].
    intros [= <- <-]. exists []. simpl. rewrite app_nil_r, set_rx_same.
    repeat split; try done. intros p q Hpq Hq. by destruct p, q.
  - simpl. destruct (incomplete acc) eqn:Hinc.
    2:{ intros [= <- <-]. exists []. simpl. rewrite app_nil_r, set_rx_same.
        repeat split; try done. intros p q Hpq Hq. by destruct p, q. }
    unfold port_read. destruct (rx (wire st)) as [|ev evs] eqn:Hrx.
    + intros H. destruct (IH _ _ H) as (chunks & Hk & Hacc & Hdone & Hpre & Hst).
      simpl in Hk, Hst. exists chunks. rewrite Hrx in Hk.
      rewrite app_nil_r in Hacc, Hpre.
      repeat split; done.
    + destruct ev as [bs|]; [|done].
      intros H. destruct (IH _ _ H) as (chunks & Hk & Hacc & Hdone & Hpre & Hst).
      simpl in Hk, Hst. exists (bs :: chunks). simpl.
      rewrite Hk. split_and!; try done.
      * by rewrite (assoc_L (++)).
      * intros p q Hpq Hq. destruct p as [|c p]; simpl in *.
        { by rewrite app_nil_r. }
        injection Hpq as <- Hpq. rewrite (assoc_L (++)). by eapply Hpre.
Qed.

Lemma serial_read_rest_none fuel acc st st' :
  serial_read_rest fuel acc st = (Ret None, st') ->
  exists chunks,
    rx (wire st) = map RxBytes chunks ++ RxError :: rx (wire st')
    /\ (forall p q, chunks = p ++ q -> incomplete (acc ++ concat p) = true)
    /\ st' = print PrintErrorReading (set_rx (rx (wire st')) st).
Proof.
  revert acc st. induction fuel as [|fuel IH]; intros acc st.
  - simpl. by destruct (incomplete acc).
  - simpl. destruct (incomplete acc) eqn:Hinc; [|done].
    unfold port_read. destruct (rx (wire st)) as [|ev evs] eqn:Hrx.
    + intros H. destruct (IH _ _ H) as (chunks & Hk & Hpre & Hst).
      simpl in Hk, Hst. exists chunks. rewrite Hrx in Hk.
      rewrite app_nil_r in Hpre.
      repeat split; done.
    + destruct ev as [bs|].
      * intros H. destruct (IH _ _ H) as (chunks & Hk & Hpre & Hst).
        simpl in Hk, Hst. exists (bs :: chunks). simpl. rewrite Hk.
        split_and!; try done.
        intros p q Hpq. destruct p as [|c p]; simpl in *.
        { by rewrite app_nil_r. }
        injection Hpq as <- Hpq. rewrite (assoc_L (++)). by eapply Hpre.
      * intros [= <-]. exists []. simpl. split_and!; try done.
        intros p q Hpq. destruct p; [|done]. simpl. by rewrite app_nil_r.
Qed.

(** *** Enough fuel and a cooperating line give the frame *)

Lemma serial_read_rest_total chunks :
  forall fuel acc st rest,
    rx (wire st) = map RxBytes chunks ++ rest ->
    acc <> [] ->
    (forall p q, chunks = p ++ q -> q <> [] ->
                 needs_more (acc ++ concat p) = true) ->
    needs_more (acc ++ concat chunks) = false ->
    (length chunks <= fuel)%nat ->
    serial_read_rest fuel acc st
    = (Ret (Some (acc ++ concat chunks)), set_rx rest st).
Proof.
  induction chunks as [|c cs IH]; intros fuel acc st rest Hrx Hne Hpre Hdone Hfuel.
  - simpl in *. rewrite app_nil_r in *. subst rest.
    rewrite needs_more_incomplete in Hdone by done.
    rewrite set_rx_same. destruct fuel; simpl; by rewrite Hdone.
  - destruct fuel as [|fuel]; [simpl in Hfuel; lia|].
    assert (incomplete acc = true) as Hinc.
    { rewrite <- needs_more_incomplete by done.
      specialize (Hpre [] (c :: cs) eq_refl). simpl in Hpre.
      rewrite app_nil_r in Hpre. by apply Hpre. }
    simpl. rewrite Hinc. simpl in Hrx.
    rewrite (port_read_cons _ _ _ Hrx), set_wire_set_rx.
    rewrite (IH fuel (acc ++ c) (set_rx (map RxBytes cs ++ rest) st) rest).
    + by rewrite <- (assoc_L (++)), set_rx_set_rx.
    + done.
    + by destruct acc.
    + intros p q Hpq Hq. rewrite <- (assoc_L (++)).
      apply (Hpre (c :: p) q); [by rewrite Hpq|done].
    + by rewrite <- (assoc_L (++)).
    + simpl in Hfuel. lia.
Qed.

Lemma serial_read_first_total chunks :
  forall fuel st rest,
    rx (wire st) = map RxBytes chunks ++ rest ->
    concat chunks <> [] ->
    (length chunks <= fuel)%nat ->
    exists k first cs,
      chunks = replicate k [] ++ first :: cs /\ first <> []
      /\ serial_read_first fuel st
         = (Ret (Some first), set_rx (map RxBytes cs ++ rest) st).
Proof.
  induction chunks as [|c cs IH]; intros fuel st rest Hrx Hne Hfuel; [done|].
  destruct fuel as [|fuel]; [simpl in Hfuel; lia|].
  simpl in Hrx. simpl.
  rewrite (port_read_cons _ _ _ Hrx), set_wire_set_rx.
  destruct c as [|b c].
  - simpl.
    destruct (IH fuel (set_rx (map RxBytes cs ++ rest) st) rest)
      as (k & first & cs' & -> & Hfirst & Hrun); [done|done|simpl in Hfuel; lia|].
    exists (S k), first, cs'. by rewrite Hrun, set_rx_set_rx.
  - exists 0%nat, (b :: c), cs. by rewrite decide_False.
Qed.

Lemma concat_replicate_nil {A} k : concat (replicate k (@nil A)) = [].
Proof. by induction k. Qed.

Lemma serial_read_total fuel st chunks rest :
  serial st <> None ->
  rx (wire st) = map RxBytes chunks ++ rest ->
  (forall n, (n < length chunks)%nat ->
             needs_more (concat (take n chunks)) = true) ->
  needs_more (concat chunks) = false ->
  (length chunks <= fuel)%nat ->
  serial_read fuel st = (Ret (Some (payload (concat chunks))), set_rx rest st).
Proof.
  intros Hopen Hrx Hpre Hdone Hfuel. unfold serial_read.
  destruct (serial st); [|done].
  assert (concat chunks <> []) as Hne by (by intros Heq; rewrite Heq in Hdone).
  destruct (serial_read_first_total chunks fuel st rest Hrx Hne Hfuel)
    as (k & first & cs & -> & Hfirst & Hrun).
  rewrite concat_app, concat_replicate_nil in *. simpl in *.
  unfold bind at 1. rewrite Hrun.
  unfold bind.
  rewrite (serial_read_rest_total cs fuel first _ rest); try done.
  - intros p q -> Hq.
    specialize (Hpre (k + S (length p))%nat).
    rewrite take_app_add' in Hpre by (by rewrite length_replicate).
    rewrite concat_app, concat_replicate_nil in Hpre. simpl in Hpre.
    rewrite take_app_length in Hpre. apply Hpre.
    rewrite !length_app, length_replicate. simpl. rewrite length_app.
    destruct q; [done|]. simpl. lia.
  - rewrite length_app, length_replicate in Hfuel. simpl in Hfuel. lia.
Qed.

(** *** A raising read ends the call *)

Lemma serial_read_first_error k :
  forall fuel st rest,
    rx (wire st) = map RxBytes (replicate k []) ++ RxError :: rest ->
    (k < fuel)%nat ->
    serial_read_first fuel st
    = (Ret None, print PrintErrorReading (set_rx rest st)).
Proof.
  induction k as [|k IH]; intros fuel st rest Hrx Hfuel;
    (destruct fuel as [|fuel]; [lia|]); simpl in Hrx; simpl;
    rewrite (port_read_cons _ _ _ Hrx), set_wire_set_rx; [done|].
  rewrite (IH fuel _ rest); [by rewrite set_rx_set_rx|done|lia].
Qed.

Lemma serial_read_rest_error chunks :
  forall fuel acc st rest,
    rx (wire st) = map RxBytes chunks ++ RxError :: rest ->
    acc <> [] ->
    (forall p q, chunks = p ++ q -> needs_more (acc ++ concat p) = true) ->
    (length chunks < fuel)%nat ->
    serial_read_rest fuel acc st
    = (Ret None, print PrintErrorReading (set_rx rest st)).
Proof.
  induction chunks as [|c cs IH]; intros fuel acc st rest Hrx Hne Hpre Hfuel;
    (destruct fuel as [|fuel]; [simpl in Hfuel; lia|]);
    (assert (incomplete acc = true) as Hinc;
     [rewrite <- needs_more_incomplete by done;
      specialize (Hpre [] _ eq_refl); simpl in Hpre;
      by rewrite app_nil_r in Hpre|]);
    simpl in Hrx; simpl; rewrite Hinc;
    rewrite (port_read_cons _ _ _ Hrx), set_wire_set_rx; [done|].
  rewrite (IH fuel (acc ++ c) _ rest).
  - by rewrite set_rx_set_rx.
  - done.
  - by destruct acc.
  - intros p q Hpq. rewrite <- (assoc_L (++)).
    apply (Hpre (c :: p) q). by rewrite Hpq.
  - simpl in Hfuel. lia.
Qed.

Lemma concat_nil_replicate {A} (chunks : list (list A)) :
  concat chunks = [] -> chunks = replicate (length chunks) [].
Proof.
  induction chunks as [|c cs IH]; [done|]. simpl.
  intros [-> Hcs]%app_eq_nil. by rewrite <- IH.
Qed.

Lemma serial_read_error fuel st chunks rest :
  serial st <> None ->
  rx (wire st) = map RxBytes chunks ++ RxError :: rest ->
  (forall n, (n <= length chunks)%nat ->
             needs_more (concat (take n chunks)) = true) ->
  (length chunks < fuel)%nat ->
  serial_read fuel st = (Ret None, print PrintErrorReading (set_rx rest st)).
Proof.
  intros Hopen Hrx Hpre Hfuel. unfold serial_read.
  destruct (serial st); [|done].
  destruct (decide (concat chunks = [])) as [Hnil|Hne].
  - rewrite (concat_nil_replicate _ Hnil) in Hrx.
    unfold bind. by rewrite (serial_read_first_error _ _ _ _ Hrx Hfuel).
  - destruct (serial_read_first_total chunks fuel st (RxError :: rest) Hrx Hne
                ltac:(lia)) as (k & first & cs & -> & Hfirst & Hrun).
    unfold bind at 1. rewrite Hrun. unfold bind.
    rewrite (serial_read_rest_error cs fuel first _ rest).
    + by rewrite set_rx_set_rx.
    + done.
    + done.
    + intros p q ->.
      specialize (Hpre (k + S (length p))%nat).
      rewrite take_app_add' in Hpre by (by rewrite length_replicate).
      rewrite concat_app, concat_replicate_nil in Hpre. simpl in Hpre.
      rewrite take_app_length in Hpre. apply Hpre.
      rewrite !length_app, length_replicate. simpl. rewrite length_app. lia.
    + rewrite length_app, length_replicate in Hfuel. simpl in Hfuel. lia.
Qed.

(** C10: while [self.serial] is [None] (the port was never opened), every
    call of [serial_write] and of [serial_read] raises the [RuntimeError]
    "Serial is not opened." before anything else happens: the line, the
    console and the rest of the state are exactly as before, whatever the
    bytes to send and however many read attempts would be allowed. *)
Theorem unopened_serial_raises fuel byte_list st :
  serial st = None ->
  serial_write fuel byte_list st = (Raise not_opened, st)
  /\ serial_read fuel st = (Raise not_opened, st).
Proof. unfold serial_write, serial_read. by intros ->. Qed.

Lemma unopened_serial_raises_witness :
  serial_write 3 [4; 254; 6; 8] (Demo.closed_session [RxBytes [4; 254; 6; 8]])
  = (Raise not_opened, Demo.closed_session [RxBytes [4; 254; 6; 8]])
  /\ serial_read 3 (Demo.closed_session [RxBytes [4; 254; 6; 8]])
     = (Raise not_opened, Demo.closed_session [RxBytes [4; 254; 6; 8]]).
Proof. apply unopened_serial_raises. reflexivity. Defined.

Lemma needs_more_false acc :
  needs_more acc = false <-> head acc = Some (Z.of_nat (length acc)).
Proof.
  destruct acc as [|b acc]; simpl; [done|].
  rewrite negb_false_iff, Z.eqb_eq. split; [by intros ->|by intros [= ->]].
Qed.

Lemma concat_take_padded (k : nat) (first : list Z) cs (n : nat) :
  concat (take n (replicate k [] ++ first :: cs))
  = if decide (n <= k)%nat then []
    else first ++ concat (take (n - S k) cs).
Proof.
  destruct (decide (n <= k)%nat) as [Hle|Hgt].
  - rewrite take_app_le by (by rewrite length_replicate).
    rewrite take_replicate. apply concat_replicate_nil.
  - rewrite take_app_ge by (rewrite length_replicate; lia).
    rewrite concat_app, concat_replicate_nil, length_replicate.
    replace (n - k)%nat with (S (n - S k)) by lia. done.
Qed.

(** C3 (amended): [serial_read] on an opened port.
    (1) When the line delivers the byte strings [chunks], possibly empty
    ones among them, such that the bytes accumulated after every proper
    prefix of them are still none or have a first byte different from their
    number, and the bytes accumulated after all of them have a first byte
    equal to their number, then with [fuel] for that many reads [serial_read]
    consumes exactly [chunks] and returns the accumulated bytes without the
    first (length) and the last (checksum) byte.
    (2) Whenever it returns a byte string, that is what happened.
    (3) Whenever it returns [None], a read attempt raised a serial exception
    while the accumulated bytes were still incomplete; the error is printed
    and nothing more is read.
    (4) And whenever a read attempt raises a serial exception while the
    bytes accumulated so far (after every read before it) are still
    incomplete, [serial_read] prints the error and returns [None] at once,
    leaving what follows on the line. *)
Theorem serial_read_reassembles fuel st :
  serial st <> None ->
  (forall chunks rest,
      rx (wire st) = map RxBytes chunks ++ rest ->
      (forall n, (n < length chunks)%nat ->
                 needs_more (concat (take n chunks)) = true) ->
      head (concat chunks) = Some (Z.of_nat (length (concat chunks))) ->
      (length chunks <= fuel)%nat ->
      serial_read fuel st
      = (Ret (Some (payload (concat chunks))), set_rx rest st))
  /\ (forall p st',
         serial_read fuel st = (Ret (Some p), st') ->
         exists chunks,
           rx (wire st) = map RxBytes chunks ++ rx (wire st')
           /\ (forall n, (n < length chunks)%nat ->
                         needs_more (concat (take n chunks)) = true)
           /\ head (concat chunks) = Some (Z.of_nat (length (concat chunks)))
           /\ p = payload (concat chunks)
           /\ st' = set_rx (rx (wire st')) st)
  /\ (forall st',
         serial_read fuel st = (Ret None, st') ->
         exists chunks,
           rx (wire st) = map RxBytes chunks ++ RxError :: rx (wire st')
           /\ (forall n, (n <= length chunks)%nat ->
                         needs_more (concat (take n chunks)) = true)
           /\ st' = print PrintErrorReading (set_rx (rx (wire st')) st))
  /\ (forall chunks rest,
         rx (wire st) = map RxBytes chunks ++ RxError :: rest ->
         (forall n, (n <= length chunks)%nat ->
                    needs_more (concat (take n chunks)) = true) ->
         (length chunks < fuel)%nat ->
         serial_read fuel st
         = (Ret None, print PrintErrorReading (set_rx rest st))).
Proof.
  intros Hopen. split_and!; [| | |intros ??; by apply serial_read_error].
  - intros chunks rest Hrx Hpre Hdone Hfuel.
    apply serial_read_total; try done. by apply needs_more_false.
  - intros p st'. unfold serial_read. destruct (serial st); [|done].
    unfold bind.
    destruct (serial_read_first fuel st) as [[[first|]| |] st1] eqn:H1; try done.
    destruct (serial_read_rest fuel first st1) as [[[acc|]| |] st2] eqn:H2;
      try done.
    intros [= <- <-].
    destruct (serial_read_first_some _ _ _ _ H1) as (k & Hrx1 & Hne & Hst1).
    destruct (serial_read_rest_some _ _ _ _ _ H2)
      as (cs & Hrx2 & -> & Hdone & Hpre & Hst2).
    exists (replicate k [] ++ first :: cs).
    assert (concat (replicate k [] ++ first :: cs) = first ++ concat cs) as Hcat.
    { by rewrite concat_app, concat_replicate_nil. }
    rewrite Hcat. split_and!.
    + rewrite Hrx1, Hrx2, map_app. simpl. by rewrite <- (assoc_L (++)).
    + intros n Hn. rewrite concat_take_padded. case_decide; [done|].
      rewrite needs_more_incomplete by (by destruct first).
      apply (Hpre _ (drop (n - S k) cs)); [by rewrite take_drop|].
      rewrite length_app, length_replicate in Hn. simpl in Hn.
      intros Hnil. apply (f_equal length) in Hnil.
      rewrite length_drop in Hnil. simpl in Hnil. lia.
    + apply needs_more_false. rewrite needs_more_incomplete; [done|].
      by destruct first.
    + done.
    + rewrite Hst2, Hst1. done.
  - intros st'. unfold serial_read. destruct (serial st); [|done].
    unfold bind.
    destruct (serial_read_first fuel st) as [[[first|]| |] st1] eqn:H1; try done.
    + destruct (serial_read_rest fuel first st1) as [[[acc|]| |] st2] eqn:H2;
        try done.
      intros [= <-].
      destruct (serial_read_first_some _ _ _ _ H1) as (k & Hrx1 & Hne & Hst1).
      destruct (serial_read_rest_none _ _ _ _ H2) as (cs & Hrx2 & Hpre & Hst2).
      exists (replicate k [] ++ first :: cs). split_and!.
      * rewrite Hrx1, Hrx2, map_app. simpl. by rewrite <- (assoc_L (++)).
      * intros n Hn. rewrite concat_take_padded. case_decide; [done|].
        rewrite needs_more_incomplete by (by destruct first).
        apply (Hpre _ (drop (n - S k) cs)). by rewrite take_drop.
      * rewrite Hst2, Hst1. done.
    + intros [= <-].
      destruct (serial_read_first_none _ _ _ H1) as (k & Hrx1 & Hst1).
      exists (replicate k []). split_and!; [done| |done].
      intros n Hn. rewrite take_replicate. by rewrite concat_replicate_nil.
Qed.

(** The frame [5, 1, 2, 3, 9] arrives in two pieces between two empty
    reads; the payload is [1, 2, 3] and the next frame stays queued. *)
Lemma serial_read_reassembles_witness :
  serial_read 4
    (Demo.session [RxBytes []; RxBytes [5; 1]; RxBytes []; RxBytes [2; 3; 9];
                   RxBytes [4; 254; 6; 8]])
  = (Ret (Some [1; 2; 3]), Demo.session [RxBytes [4; 254; 6; 8]]).
Proof.
  apply (proj1 (serial_read_reassembles 4
                  (Demo.session [RxBytes []; RxBytes [5; 1]; RxBytes [];
                                 RxBytes [2; 3; 9]; RxBytes [4; 254; 6; 8]])
                  ltac:(discriminate))
           [[]; [5; 1]; []; [2; 3; 9]] [RxBytes [4; 254; 6; 8]]).
  - reflexivity.
  - intros n Hn. simpl in Hn.
    do 4 (destruct n as [|n]; [reflexivity|]). lia.
  - reflexivity.
  - simpl. lia.
Defined.

(** C3 as stated fails on a read error: after [5, 1] has been accumulated
    (first byte 5, two bytes so far) the next read raises, and [serial_read]
    returns at once, with [None] and not with a stripped frame. *)
Lemma serial_read_returns_on_error :
  needs_more [5; 1] = true
  /\ serial_read 4 (Demo.session [RxBytes [5; 1]; RxError; RxBytes [2; 3; 9]])
     = (Ret None,
        print PrintErrorReading (Demo.session [RxBytes [2; 3; 9]])).
Proof. split; reflexivity. Qed.

(** *** The log of requests *)

Lemma serial_read_first_log fuel st r st' :
  serial_read_first fuel st = (r, st') ->
  tx (wire st') = tx (wire st) /\ serial st' = serial st.
Proof.
  revert st. induction fuel as [|fuel IH]; intros st; simpl.
  - by intros [= <- <-].
  - unfold port_read. destruct (rx (wire st)) as [|[bs|] evs].
    + intros H. by destruct (IH _ H).
    + case_decide.
      * intros Hrun. by destruct (IH _ Hrun).
      * by intros [= <- <-].
    + by intros [= <- <-].
Qed.

Lemma serial_read_rest_log fuel acc st r st' :
  serial_read_rest fuel acc st = (r, st') ->
  tx (wire st') = tx (wire st) /\ serial st' = serial st.
Proof.
  revert acc st. induction fuel as [|fuel IH]; intros acc st; simpl.
  - destruct (incomplete acc); by intros [= <- <-].
  - destruct (incomplete acc); [|by intros [= <- <-]].
    unfold port_read. destruct (rx (wire st)) as [|[bs|] evs].
    + intros H. by destruct (IH _ _ H).
    + intros H. by destruct (IH _ _ H).
    + by intros [= <- <-].
Qed.

Lemma serial_read_log fuel st r st' :
  serial_read fuel st = (r, st') ->
  tx (wire st') = tx (wire st) /\ serial st' = serial st.
Proof.
  unfold serial_read. destruct (serial st) eqn:Hs; [|by intros [= <- <-]].
  rewrite <- Hs. unfold bind.
  destruct (serial_read_first fuel st) as [[[first|]| |] st1] eqn:H1;
    apply serial_read_first_log in H1 as [Htx1 Hs1];
    try (by intros [= <- <-]).
  destruct (serial_read_rest fuel first st1) as [[[acc|]| |] st2] eqn:H2;
    apply serial_read_rest_log in H2 as [Htx2 Hs2];
    intros [= <- <-]; split; congruence.
Qed.

(** A [serial_write] that returns has handed exactly its argument to the
    port, once. *)
Lemma serial_write_log fuel byte_list st v st' :
  serial_write fuel byte_list st = (Ret v, st') ->
  tx (wire st') = tx (wire st) ++ [byte_list] /\ serial st' = serial st.
Proof.
  unfold serial_write. destruct (serial st) eqn:Hs; [|done].
  unfold bind, lift, bytes_.
  destruct (forallb is_byte byte_list); [|done]. simpl.
  destruct (port_write byte_list (wire st)) as [failed w] eqn:Hw.
  intros H. apply serial_read_log in H as [Htx Hser].
  rewrite Htx, Hser. unfold port_write in Hw.
  destruct (tx_faults (wire st)) as [|[] ?]; by injection Hw as <- <-.
Qed.

(** *** What a write hands to the port *)

Lemma is_byte_true b : is_byte b = true <-> 0 <= b < 256.
Proof. unfold is_byte. rewrite andb_true_iff, Z.leb_le, Z.ltb_lt. done. Qed.

Lemma le_bytes_all_bytes k x : all_bytes (le_bytes k x).
Proof.
  revert x. induction k as [|k IH]; intros x; simpl; constructor; [|apply IH].
  change 255 with (Z.ones 8). rewrite Z.land_ones by lia.
  apply is_byte_true. apply (Z.mod_pos_bound x (2 ^ 8)). lia.
Qed.

Lemma all_bytes_forallb l : forallb is_byte l = true <-> all_bytes l.
Proof.
  unfold all_bytes. induction l as [|b l IH]; simpl.
  - split; [constructor|done].
  - rewrite andb_true_iff, IH, Forall_cons. done.
Qed.

Lemma after_write_tx data st :
  tx (wire (after_write data st)) = tx (wire st) ++ [data].
Proof.
  unfold after_write, port_write. by destruct (tx_faults (wire st)) as [|[] ?].
Qed.

Lemma after_write_rx data st : rx (wire (after_write data st)) = rx (wire st).
Proof.
  unfold after_write, port_write. by destruct (tx_faults (wire st)) as [|[] ?].
Qed.

Lemma after_write_serial data st : serial (after_write data st) = serial st.
Proof.
  unfold after_write, port_write. by destruct (tx_faults (wire st)) as [|[] ?].
Qed.

(** On an opened port a list of bytes is written, then the reply is read. *)
Lemma serial_write_run fuel byte_list st :
  serial st <> None ->
  all_bytes byte_list ->
  serial_write fuel byte_list st = serial_read fuel (after_write byte_list st).
Proof.
  intros Hopen Hbytes. unfold serial_write, bytes_.
  destruct (serial st); [|done].
  rewrite (proj2 (all_bytes_forallb _) Hbytes), bind_lift_inr.
  unfold bind, after_write.
  by destruct (port_write byte_list (wire st)) as [[] w].
Qed.

Lemma sent_app st st' new :
  tx (wire st') = tx (wire st) ++ new -> sent st st' = new.
Proof. unfold sent. intros ->. by rewrite drop_app_length. Qed.

Lemma sum_checksum_is_byte : checksum_is_byte Demo.env.
Proof.
  intros l. apply is_byte_true. cbn [rcb4_checksum Demo.env].
  unfold Demo.sum_checksum. change 255 with (Z.ones 8).
  rewrite Z.land_ones by lia. apply Z.mod_pos_bound. lia.
Qed.

Lemma memory_write_request_bytes E addr length payload :
  checksum_is_byte E ->
  0 <= length <= 244 ->
  all_bytes payload ->
  all_bytes (memory_write_request E addr length payload).
Proof.
  intros Hcs Hlen Hpayload. unfold memory_write_request. cbv zeta.
  apply Forall_app. split; [|by repeat constructor].
  apply Forall_app. split; [repeat constructor; apply is_byte_true; lia|].
  apply Forall_app. split; [apply le_bytes_all_bytes|].
  apply Forall_app. split; [|done].
  repeat constructor. apply is_byte_true. lia.
Qed.

Lemma serial_read_first_no_raise fuel st e st' :
  serial_read_first fuel st <> (Raise e, st').
Proof.
  revert st. induction fuel as [|fuel IH]; intros st; simpl; [done|].
  destruct (port_read (wire st)) as [[bs|] w]; [|done].
  case_decide; [apply IH|done].
Qed.

Lemma serial_read_rest_no_raise fuel acc st e st' :
  serial_read_rest fuel acc st <> (Raise e, st').
Proof.
  revert acc st. induction fuel as [|fuel IH]; intros acc st; simpl;
    destruct (incomplete acc); try done.
  destruct (port_read (wire st)) as [[bs|] w]; [apply IH|done].
Qed.

(** On an opened port [serial_read] raises nothing: its loops catch the
    serial exception. *)
Lemma serial_read_no_raise fuel st e st' :
  serial st <> None -> serial_read fuel st <> (Raise e, st').
Proof.
  intros Hopen. unfold serial_read. destruct (serial st); [|done].
  unfold bind.
  destruct (serial_read_first fuel st) as [[[first|]| |] st1] eqn:H1;
    try done.
  - destruct (serial_read_rest fuel first st1) as [[[acc|]| |] st2] eqn:H2;
      try done.
    by apply serial_read_rest_no_raise in H2.
  - by apply serial_read_first_no_raise in H1.
Qed.

(** On an opened port a list of bytes is handed to the port exactly once,
    whatever the read that follows ends in; the call raises nothing and the
    port stays opened. *)
Lemma serial_write_sends fuel byte_list st r st' :
  serial st <> None ->
  all_bytes byte_list ->
  serial_write fuel byte_list st = (r, st') ->
  tx (wire st') = tx (wire st) ++ [byte_list]
  /\ serial st' = serial st
  /\ forall e, r <> Raise e.
Proof.
  intros Hopen Hbytes. rewrite serial_write_run by done. intros Hrun.
  destruct (serial_read_log _ _ _ _ Hrun) as [-> ->].
  split_and!; [apply after_write_tx|apply after_write_serial|].
  intros e ->. revert Hrun. apply serial_read_no_raise.
  by rewrite after_write_serial.
Qed.

(** Whatever it ends in, [serial_write] hands its argument to the port or
    nothing at all. *)
Lemma serial_write_log_any fuel byte_list st r st' :
  serial_write fuel byte_list st = (r, st') ->
  tx (wire st') = tx (wire st) \/ tx (wire st') = tx (wire st) ++ [byte_list].
Proof.
  destruct (serial st) as [port|] eqn:Hserial.
  - destruct (forallb is_byte byte_list) eqn:Hbytes.
    + intros Hrun. right.
      apply serial_write_sends in Hrun as [Htx _];
        [done|by rewrite Hserial|by apply all_bytes_forallb].
    + unfold serial_write, bytes_. rewrite Hserial, Hbytes.
      intros [= <- <-]. by left.
  - unfold serial_write. rewrite Hserial. intros [= <- <-]. by left.
Qed.

Lemma tx_set_rx evs st : tx (wire (set_rx evs st)) = tx (wire st).
Proof. done. Qed.

Lemma serial_set_rx evs st : serial (set_rx evs st) = serial st.
Proof. done. Qed.

(** A complete reply frame waiting on the line ends the call with its
    payload. *)
Lemma serial_write_answered fuel byte_list st frame rest :
  serial st <> None ->
  all_bytes byte_list ->
  rx (wire st) = RxBytes frame :: rest ->
  head frame = Some (Z.of_nat (length frame)) ->
  (1 <= fuel)%nat ->
  serial_write fuel byte_list st
  = (Ret (Some (payload frame)), set_rx rest (after_write byte_list st)).
Proof.
  intros Hopen Hbytes Hrx Hframe Hfuel. rewrite serial_write_run by done.
  replace (payload frame) with (payload (concat [frame]))
    by (cbn [concat]; by rewrite app_nil_r).
  apply (serial_read_total fuel _ [frame] rest).
  - by rewrite after_write_serial.
  - by rewrite after_write_rx, Hrx.
  - intros n Hn. cbn [length] in Hn. by replace n with 0%nat by lia.
  - apply needs_more_false. cbn [concat]. by rewrite app_nil_r.
  - done.
Qed.

Section Requests.

Variable E : Env.
Variable fuel : nat.

Lemma memory_read_aux_log addr length st v st' :
  memory_read_aux E fuel addr length st = (Ret v, st') ->
  tx (wire st') = tx (wire st) ++ [memory_read_frame E addr length]
  /\ serial st' = serial st.
Proof. apply serial_write_log. Qed.

(** The vector-read request for [length] bytes at [addr]: eleven bytes,
    opcode [0xFB], the address in four little-endian bytes, count 1, element
    size [length], stride 0, checksum. *)
Lemma memory_read_frame_shape addr length :
  exists checksum,
    memory_read_frame E addr length
    = [11; 251] ++ le_bytes 4 addr ++ [1; length; 0; 0; checksum].
Proof.
  eexists. unfold memory_read_frame. simpl.
  rewrite !Z.shiftr_shiftr by lia. reflexivity.
Qed.

Lemma memory_read_frame_bytes addr length :
  checksum_is_byte E ->
  0 <= length < 256 ->
  all_bytes (memory_read_frame E addr length).
Proof.
  intros Hcs Hlen. unfold memory_read_frame. cbv zeta. cbn [insert list_insert].
  change 255 with (Z.ones 8). rewrite !Z.land_ones by lia.
  repeat constructor; apply is_byte_true;
    first [lia | apply (Z.mod_pos_bound _ (2 ^ 8)); lia | idtac].
  apply is_byte_true, Hcs.
Qed.




End Requests.



(** ** Memory write *)

Lemma le_bytes_length k x : length (le_bytes k x) = k.
Proof. revert x. induction k; intros; simpl; by f_equal. Qed.

Lemma ba_store_ok (i : nat) v b :
  is_byte v = true -> (i < length b)%nat ->
  ba_store (Z.of_nat i) v b = inr (<[i := v]> b).
Proof.
  intros Hv Hi. unfold ba_store. rewrite Hv. simpl.
  rewrite !(proj2 (Z.ltb_ge (Z.of_nat i) 0)) by lia.
  rewrite (proj2 (Z.leb_gt _ _)) by lia. by rewrite Nat2Z.id.
Qed.

Lemma ba_store_at (j : nat) i v b :
  i = Z.of_nat j -> is_byte v = true -> (j < length b)%nat ->
  ba_store i v b = inr (<[j := v]> b).
Proof. intros ->. apply ba_store_ok. Qed.

Ltac len_solve :=
  repeat (rewrite ?length_app, ?length_take, ?length_drop, ?length_insert,
                  ?length_replicate, ?le_bytes_length);
  cbn [length]; lia.

Section Write.

Variable E : Env.
Variable fuel : nat.
Hypothesis checksum_ok : checksum_is_byte E.

Lemma copy_payload_loop data st (k : nat) :
  forall (i : nat) byte_list,
    all_bytes data ->
    (i + k <= length data)%nat ->
    (i + k + 10 <= length byte_list)%nat ->
    for_each (seqZ (Z.of_nat i) (Z.of_nat k))
      (fun bl i =>
         d <- lift (match data !! Z.to_nat i with
                    | Some d => inr d
                    | None => inl IndexError
                    end) ;;
         lift (ba_store (10 + i) d bl))
      byte_list st
    = (Ret (take (i + 10) byte_list ++ take k (drop i data)
              ++ drop (i + k + 10) byte_list), st).
Proof.
  induction k as [|k IH]; intros i byte_list Hdata Hi Hlen.
  - simpl. rewrite Nat.add_0_r. by rewrite take_drop.
  - rewrite seqZ_cons by lia. simpl for_each.
    destruct (lookup_lt_is_Some_2 data i) as [d Hd]; [lia|].
    unfold bind at 1. unfold bind at 1. rewrite Nat2Z.id, Hd. simpl lift at 1.
    unfold ret at 1.
    replace (10 + Z.of_nat i) with (Z.of_nat (i + 10)) by lia.
    rewrite ba_store_ok; [|apply (Forall_lookup_1 _ _ _ _ Hdata Hd)|lia].
    simpl lift. unfold ret at 1.
    replace (Z.succ (Z.of_nat i)) with (Z.of_nat (S i)) by lia.
    replace (Z.pred (Z.of_nat (S k))) with (Z.of_nat k) by lia.
    rewrite IH; [|done|lia|rewrite length_insert; lia].
    f_equal. f_equal.
    replace (S i + 10)%nat with (S (i + 10)) by lia.
    erewrite take_S_r by (apply list_lookup_insert_eq; lia).
    rewrite take_insert_ge by lia.
    rewrite drop_insert_lt by lia.
    rewrite (drop_S data d i Hd).
    rewrite <- (assoc_L (++)). cbn [take app].
    by replace (S i + k + 10)%nat with (i + S k + 10)%nat by lia.
Qed.

Lemma copy_payload_ok (len : nat) data byte_list st :
  all_bytes data ->
  (len <= length data)%nat ->
  (len + 10 <= length byte_list)%nat ->
  copy_payload (Z.of_nat len) data byte_list st
  = (Ret (take 10 byte_list ++ take len data ++ drop (len + 10) byte_list),
     st).
Proof.
  intros Hdata Hlen Hbl. unfold copy_payload, range.
  by apply (copy_payload_loop data st len 0%nat byte_list).
Qed.

(** [memory_write_frame] on a payload that fits: the frame, with no
    exception and no effect. *)
Lemma memory_write_frame_ok addr (len : nat) data st :
  0 <= addr < 2 ^ 32 ->
  (len <= 244)%nat ->
  (len <= length data)%nat ->
  all_bytes data ->
  memory_write_frame E addr (Z.of_nat len) data st
  = (Ret (memory_write_request E addr (Z.of_nat len) (take len data)), st).
Proof.
  intros Haddr Hlen Hdata Hbytes.
  unfold memory_write_frame, bytearray, to_bytes. cbv zeta.
  rewrite (proj2 (Z.ltb_ge _ _)) by lia.
  replace (Z.to_nat (Z.of_nat len + 11)) with (len + 11)%nat by lia.
  rewrite (proj2 (Z.ltb_ge addr 0)) by lia.
  rewrite (proj2 (Z.leb_gt _ addr)) by (simpl; lia).
  cbn [orb]. rewrite bind_lift_inr.
  rewrite (ba_store_at 0); [|done|apply is_byte_true; lia|len_solve].
  rewrite bind_lift_inr.
  rewrite (ba_store_at 1); [|done|done|len_solve].
  rewrite !bind_lift_inr.
  rewrite (ba_store_at 6); [|done|done|unfold ba_store_slice; len_solve].
  rewrite bind_lift_inr.
  rewrite (ba_store_at 7);
    [|done|apply is_byte_true; lia|unfold ba_store_slice; len_solve].
  change ((0 <? 0) || (2 ^ (8 * Z.of_nat 2) <=? 0)) with false. cbn iota.
  rewrite !bind_lift_inr.
  erewrite bind_run;
    [|apply copy_payload_ok; [done|done|unfold ba_store_slice; len_solve]].
  set (hdr := [Z.of_nat len + 11; 252] ++ le_bytes 4 addr
              ++ [1; Z.of_nat len; 0; 0]).
  assert (ba_store_slice 8 10 (le_bytes 2 0)
            (<[7%nat:=Z.of_nat len]>
               (<[6%nat:=1]>
                  (ba_store_slice 2 6 (le_bytes 4 addr)
                     (<[1%nat:=252]>
                        (<[0%nat:=Z.of_nat len + 11]>
                           (replicate (len + 11) 0))))))
          = hdr ++ replicate (len + 1) 0) as ->.
  { replace (len + 11)%nat with (10 + (len + 1))%nat by lia. reflexivity. }
  assert (length hdr = 10%nat) as Hhdr by reflexivity.
  rewrite take_app_length' by (by rewrite Hhdr).
  rewrite (Nat.add_comm len 10), drop_app_add' by (by rewrite Hhdr).
  rewrite drop_replicate.
  replace (len + 1 - len)%nat with 1%nat by lia. cbn [replicate].
  assert (length (take len data) = len) as Htake
      by (rewrite length_take; lia).
  unfold slice.
  replace (Z.to_nat (Z.of_nat len + 11 - 1) - 0)%nat
    with (length (hdr ++ take len data))
    by (rewrite length_app, Hhdr, Htake; lia).
  rewrite drop_0, (assoc_L (++) hdr), take_app_length.
  rewrite (ba_store_at (length (hdr ++ take len data)));
    [|rewrite length_app, Hhdr, Htake; lia|apply checksum_ok
     |rewrite !length_app; simpl; lia].
  rewrite insert_app_r_alt by lia. rewrite Nat.sub_diag.
  unfold memory_write_request. cbn [lift ret list_insert insert].
  subst hdr. by rewrite <- !(assoc_L (++)).
Qed.

End Write.

(** ** Single-field write *)

Section SingleField.

Variable E : Env.
Variable fuel : nat.

Lemma pack_uint_bytes k v bd : pack_uint k v = inr bd -> all_bytes bd.
Proof.
  destruct v; unfold pack_uint; try done. case_match; [|done].
  intros [= <-]. apply le_bytes_all_bytes.
Qed.

Lemma float_bytes_bytes m e : all_bytes (float_bytes E m e).
Proof. unfold float_bytes. case_match; apply (le_bytes_all_bytes 4). Qed.

Lemma pack_f_bytes v bd : pack_f E v = inr bd -> all_bytes bd.
Proof.
  destruct v; unfold pack_f; try done; [case_match; try done|];
    intros [= <-]; apply float_bytes_bytes.
Qed.

Lemma pack_value_inr typ v bd :
  pack_value E typ v = inr bd -> typ ∈ supported_types /\ all_bytes bd.
Proof.
  unfold pack_value, supported_types. repeat case_decide; subst.
  - intros Hb%pack_f_bytes. split; [set_solver|done].
  - intros Hb%pack_uint_bytes. split; [set_solver|done].
  - intros Hb%pack_uint_bytes. split; [set_solver|done].
  - done.
Qed.

Lemma pack_value_unsupported typ v :
  typ ∉ supported_types ->
  pack_value E typ v = inl (not_implemented_typ typ).
Proof.
  unfold pack_value, supported_types. intros Hnot.
  repeat case_decide; subst; try done; exfalso; apply Hnot; set_solver.
Qed.

Lemma field_payload_length s bd : length (field_payload s bd) = s.
Proof.
  unfold field_payload. rewrite length_take, length_app, length_replicate. lia.
Qed.

Lemma field_payload_exact bd : field_payload (length bd) bd = bd.
Proof.
  unfold field_payload. rewrite Nat.sub_diag. simpl.
  by rewrite app_nil_r, firstn_all.
Qed.

Lemma field_payload_bytes s bd : all_bytes bd -> all_bytes (field_payload s bd).
Proof.
  intros Hbd. unfold field_payload. apply Forall_take, Forall_app.
  split; [done|]. by apply Forall_replicate.
Qed.

Lemma first_item_bind vec v (k : pyval -> M (option (list Z))) st :
  first_item vec = Some v ->
  bind (match vec with
        | VList [] => raise IndexError
        | VList (v0 :: _) => ret v0
        | _ => ret vec
        end) k st = k v st.
Proof.
  intros Hv. destruct vec as [| | |[|v0 items]]; simpl in Hv; try done;
    by injection Hv as <-.
Qed.

Lemma bytearray_ok (s : nat) : bytearray (Z.of_nat s) = inr (replicate s 0).
Proof.
  unfold bytearray. rewrite (proj2 (Z.ltb_ge _ _)) by lia. by rewrite Nat2Z.id.
Qed.

(** A single-field write of a supported type is [memory_write] at the
    field's address. *)
Lemma write_cls_alist_memory_write cls idx slot_name vec st base ft s v bd :
  armh7_elf_alist E !! cls_name cls = Some base ->
  fields_types cls !! slot_name = Some ft ->
  c_type_to_size E (c_type ft) = inr (Z.of_nat s) ->
  first_item vec = Some v ->
  pack_value E (c_type ft) v = inr bd ->
  write_cls_alist E fuel cls idx slot_name vec st
  = memory_write E fuel (field_address cls base idx ft) (Z.of_nat s)
      (bd ++ replicate (s - length bd) 0) st.
Proof.
  intros Hbase Hft Hsize Hv Hpack.
  unfold write_cls_alist, getitem. rewrite Hbase, bind_lift_inr.
  rewrite Hft, bind_lift_inr. cbv zeta. rewrite Hsize, bind_lift_inr.
  rewrite bytearray_ok, bind_lift_inr, (first_item_bind _ _ _ _ Hv).
  rewrite Hpack, bind_lift_inr.
  unfold ba_store_slice, field_address. cbn [take app Nat.max].
  by rewrite drop_replicate.
Qed.

(** [memory_write] of a padded packed value hands one request to the
    port. *)
Lemma memory_write_field addr (s : nat) bd st :
  checksum_is_byte E ->
  all_bytes bd ->
  0 <= addr < 2 ^ 32 ->
  (s <= 244)%nat ->
  memory_write E fuel addr (Z.of_nat s) (bd ++ replicate (s - length bd) 0) st
  = serial_write fuel
      (memory_write_request E addr (Z.of_nat s) (field_payload s bd)) st.
Proof.
  intros Hcs Hbytes Haddr Hs. unfold memory_write.
  erewrite bind_run; [done|].
  apply memory_write_frame_ok; try done.
  - rewrite length_app, length_replicate. lia.
  - apply Forall_app. split; [done|]. by apply Forall_replicate.
Qed.

Lemma write_cls_alist_request cls idx slot_name vec st base ft s v bd :
  armh7_elf_alist E !! cls_name cls = Some base ->
  fields_types cls !! slot_name = Some ft ->
  c_type_to_size E (c_type ft) = inr (Z.of_nat s) ->
  first_item vec = Some v ->
  pack_value E (c_type ft) v = inr bd ->
  checksum_is_byte E ->
  0 <= field_address cls base idx ft < 2 ^ 32 ->
  (s <= 244)%nat ->
  write_cls_alist E fuel cls idx slot_name vec st
  = serial_write fuel
      (memory_write_request E (field_address cls base idx ft) (Z.of_nat s)
         (field_payload s bd)) st.
Proof.
  intros Hbase Hft Hsize Hv Hpack Hcs Haddr Hs.
  rewrite (write_cls_alist_memory_write _ _ _ _ _ _ _ _ _ _
             Hbase Hft Hsize Hv Hpack).
  apply memory_write_field; try done.
  by destruct (pack_value_inr _ _ _ Hpack).
Qed.

End SingleField.

(** ** Guards that print and return *)

Section Guards.

Variable E : Env.
Variable fuel : nat.

(** C8 (amended): with a worm index outside [0, max_sensor_num),
    [send_worm_angle_and_threshold] and [send_worm_calib_data] print their
    "invalid argument" message and return [None]: no exception is raised,
    nothing is written to or read from the port, and no other part of the
    state changes. *)
Theorem invalid_worm_index_returns_none worm_idx angle threshold
    threshold_scale sign servo_idx sensor_idx module_type magenc_offset
    upper_limit thleshold_scale timeout_time_scale gear_ratio st :
  ~ (0 <= worm_idx < max_sensor_num E) ->
  send_worm_angle_and_threshold E fuel worm_idx angle threshold
    threshold_scale sign st
  = (Ret None, print (PrintInvalidWormIdxLower worm_idx) st)
  /\ send_worm_calib_data E fuel worm_idx servo_idx sensor_idx module_type
       magenc_offset upper_limit thleshold_scale timeout_time_scale
       gear_ratio st
     = (Ret None, print (PrintInvalidWormIdx worm_idx) st).
Proof.
  intros Hout.
  assert (valid_index E worm_idx = false) as Hinvalid.
  { unfold valid_index. apply andb_false_iff.
    rewrite Z.leb_gt, Z.ltb_ge. lia. }
  unfold send_worm_angle_and_threshold, send_worm_calib_data.
  by rewrite Hinvalid.
Qed.

(** C4 (amended): when the frame size [11 + type_size * array_length] of a
    slot-vector write exceeds 240, [write_cstruct_slot_v] prints
    "n=... should be less than 240" and returns [None]: no exception is
    raised and nothing is sent. *)
Theorem write_cstruct_slot_v_too_large cls slot_name vec st vcnt addr ft tsize :
  c_vector E !! cls_name cls = Some vcnt ->
  armh7_elf_alist E !! cls_name cls = Some addr ->
  fields_types cls !! slot_name = Some ft ->
  c_type_to_size E (c_type ft) = inr tsize ->
  240 < 11 + tsize * vcnt ->
  write_cstruct_slot_v E fuel cls slot_name vec st
  = (Ret None, print (PrintShouldBeLessThan240 (11 + tsize * vcnt)) st).
Proof.
  intros Hvcnt Haddr Hft Hsize Hbig.
  unfold write_cstruct_slot_v, getitem.
  rewrite Hvcnt, bind_lift_inr, Haddr, bind_lift_inr, Hft, bind_lift_inr.
  cbv zeta. rewrite Hsize, bind_lift_inr.
  by rewrite (proj2 (Z.ltb_lt _ _) Hbig).
Qed.

(** The one-turn loop of [cfunc_call] on a non-empty argument list. *)
Lemma cfunc_store_first_raises (items : list pyval) byte_list st :
  items <> [] ->
  for_each (range (Z.of_nat (length items)))
    (cfunc_store_arg [VList items]) byte_list st
  = (Raise AttributeError, st).
Proof.
  intros Hne. unfold range. rewrite seqZ_cons by (destruct items; simpl; [done|lia]).
  done.
Qed.

(** C5 fails on the code: as soon as the argument list is not empty,
    [cfunc_call] raises before anything is sent.  The store
    [byte_list[7 + i * 4] = args[i].to_bytes(4, ...)] indexes the tuple
    [args], whose only item is the argument list itself, instead of the
    list. *)
Theorem cfunc_call_with_arguments_raises func_string (items : list pyval) st :
  items <> [] ->
  exists e, cfunc_call E fuel func_string [VList items] st = (Raise e, st).
Proof.
  intros Hne. unfold cfunc_call. cbv zeta.
  repeat match goal with
         | |- context [bind (lift ?x) _ _] =>
             let Hx := fresh "Hx" in
             destruct x eqn:Hx;
             [rewrite bind_lift_inl; by eexists | rewrite bind_lift_inr]
         end.
  unfold len_star in *. simplify_eq.
  unfold bind at 1. rewrite cfunc_store_first_raises by done. by eexists.
Qed.

End Guards.

Lemma invalid_worm_index_returns_none_witness :
  send_worm_angle_and_threshold Demo.env 2 (-1) (VInt 0) (VInt 30) (VFloat 1 0)
    1 (Demo.session [])
  = (Ret None, print (PrintInvalidWormIdxLower (-1)) (Demo.session []))
  /\ send_worm_calib_data Demo.env 2 (-1) VNone VNone VNone (Some 3)
       default_upper_limit default_thleshold_scale default_timeout_time_scale
       default_gear_ratio (Demo.session [])
     = (Ret None, print (PrintInvalidWormIdx (-1)) (Demo.session [])).
Proof.
  apply invalid_worm_index_returns_none. cbn [max_sensor_num Demo.env]. lia.
Defined.

(** C8 as stated fails: with index 5 of 2 none of the three operations
    raises.  The two senders return [None]; [read_worm_angle] prints, scans
    the worm modules, reads record 5 all the same and returns its angle. *)
Lemma invalid_worm_index_not_raised :
  send_worm_calib_data Demo.env 2 5 VNone VNone VNone (Some 3) VNone VNone
    VNone VNone (Demo.session [])
  = (Ret None, print (PrintInvalidWormIdx 5) (Demo.session []))
  /\ send_worm_angle_and_threshold Demo.env 2 5 (VInt 0) (VInt 30) (VFloat 1 0)
       1 (Demo.session [])
     = (Ret None, print (PrintInvalidWormIdxLower 5) (Demo.session []))
  /\ fst (read_worm_angle Demo.env 2 5
            (Demo.session [Demo.reply (replicate 16 0);
                           Demo.reply (1 :: replicate 15 0);
                           Demo.reply (replicate 12 0 ++ [7; 0; 0; 0])]))
     = Ret 7.
Proof. split_and!; vm_compute; reflexivity. Qed.

Lemma write_cstruct_slot_v_too_large_witness :
  write_cstruct_slot_v Demo.env 2 Demo.sensor "adc" (VList []) (Demo.session [])
  = (Ret None, print (PrintShouldBeLessThan240 (11 + 8 * 36)) (Demo.session [])).
Proof.
  apply (write_cstruct_slot_v_too_large Demo.env 2 Demo.sensor "adc" (VList [])
           (Demo.session []) 36 604082176 (mkFieldType "double" 8) 8);
    [reflexivity|reflexivity|reflexivity|reflexivity|lia].
Defined.

(** C4 as stated fails: the oversized write of the 36 [double] fields
    (frame size 299) is not an error; the call returns [None]. *)
Lemma write_cstruct_slot_v_too_large_not_raised :
  write_cstruct_slot_v Demo.env 2 Demo.sensor "adc"
    (VList (replicate 36 (VFloat 1 0))) (Demo.session [])
  = (Ret None, print (PrintShouldBeLessThan240 299) (Demo.session [])).
Proof. vm_compute. reflexivity. Qed.

Lemma cfunc_call_with_arguments_raises_witness :
  exists e,
    cfunc_call Demo.env 2 "servo_idmode_scan_single" [VList [VInt 1]]
      (Demo.session [Demo.reply []])
    = (Raise e, Demo.session [Demo.reply []]).
Proof. apply cfunc_call_with_arguments_raises. discriminate. Defined.

(** ** Slot-vector read *)

Section SlotVectorRead.

Variable E : Env.
Variable fuel : nat.

Lemma np_store_ok (i : nat) v a :
  is_byte v = true -> np_store E i v a = inr (<[i := v]> a).
Proof. unfold np_store. by intros ->. Qed.

(** With an array length, a type size and a record size that each fit in
    one byte, [read_cstruct_slot_v] sends one vector-read request for the
    field across the array, with the record size in byte 8 and 0 in byte 9,
    and decodes the response as [uint16] values without looking at the
    field's type. *)
Lemma read_cstruct_slot_v_request cls slot_name st vcnt addr ft esize :
  c_vector E !! cls_name cls = Some vcnt ->
  armh7_elf_alist E !! cls_name cls = Some addr ->
  fields_types cls !! slot_name = Some ft ->
  c_type_to_size E (c_type ft) = inr esize ->
  is_byte vcnt = true ->
  is_byte esize = true ->
  is_byte (cls_size cls) = true ->
  checksum_is_byte E ->
  let header :=
    [11; 251] ++ le_bytes 4 (addr + offset ft)
      ++ [vcnt; esize; cls_size cls; 0] in
  read_cstruct_slot_v E fuel cls slot_name st
  = (b <- serial_write fuel (header ++ [rcb4_checksum E (header ++ [0])]) ;;
     lift (frombuffer_uint16 b)) st.
Proof.
  intros Hvcnt Haddr Hft Hsize Hv He Hc Hcs header.
  unfold read_cstruct_slot_v. erewrite bind_run; [done|].
  unfold read_cstruct_slot_v_frame, getitem.
  rewrite Hvcnt, bind_lift_inr, Haddr, bind_lift_inr, Hft, bind_lift_inr.
  cbv zeta. rewrite Hsize, bind_lift_inr.
  rewrite np_store_ok, bind_lift_inr by done.
  rewrite np_store_ok, bind_lift_inr by done.
  rewrite np_store_ok, bind_lift_inr by done.
  rewrite np_store_ok, bind_lift_inr by done.
  rewrite np_store_ok, bind_lift_inr by done.
  rewrite np_store_ok by apply Hcs.
  subst header. cbn [lift ret le_bytes app].
  rewrite !Z.shiftr_shiftr by lia. reflexivity.
Qed.

End SlotVectorRead.

(** C2 fails on the code, in two ways.
    (1) The response is always decoded as little-endian [uint16] values,
    whatever the field's type: for the [uint8] field [flag] of four servo
    records the four bytes 1, 0, 2, 0 come back as the two values 1 and 2.
    (2) Only byte 8 of the request receives the record size and byte 9 stays
    0: for a record of 300 bytes the stride bytes are [44, 0] where the
    two-byte little-endian encoding is [44, 1] (NumPy wrapping the store), or
    the store raises [OverflowError] and no request is sent (NumPy refusing
    it). *)
Theorem read_cstruct_slot_v_uint16_and_one_stride_byte :
  read_cstruct_slot_v Demo.env 2 Demo.servo "flag"
    (Demo.session [Demo.reply [1; 0; 2; 0]])
  = (Ret [1; 2],
     Demo.after_requests [[11; 251; 0; 176; 0; 36; 4; 1; 8; 0; 231]] [])
  /\ (read_cstruct_slot_v_frame Demo.env Demo.sysb "count" (Demo.session [])
      = (Ret [11; 251; 0; 176; 1; 36; 2; 2; 44; 0; 11], Demo.session [])
      /\ le_bytes 2 (cls_size Demo.sysb) = [44; 1])
  /\ read_cstruct_slot_v Demo.env_numpy2 2 Demo.sysb "count"
       (Demo.session [Demo.reply [1; 0; 2; 0]])
     = (Raise OverflowError, Demo.session [Demo.reply [1; 0; 2; 0]]).
Proof. split_and!; vm_compute; reflexivity. Qed.

(** ** Reads never write *)

Lemma memory_read_frame_is_read E addr length :
  is_read_request (memory_read_frame E addr length) = true.
Proof. done. Qed.

Lemma is_read_not_write frame :
  is_read_request frame = true -> is_write_request frame = false.
Proof. destruct frame as [|? [|[|[]|] ?]]; try done. Qed.

Lemma filter_writes_of_reads (reads : list (list Z)) :
  Forall (fun f => is_read_request f = true) reads ->
  filter (fun f => is_write_request f = true) reads = [].
Proof.
  induction 1 as [|f reads Hf _ IH]; [done|].
  rewrite filter_cons_False; [done|].
  by rewrite (is_read_not_write _ Hf).
Qed.

Section ReadLog.

Variable E : Env.
Variable fuel : nat.

Lemma memory_read_log addr length st v st' :
  memory_read E fuel addr length st = (Ret v, st') ->
  exists reads,
    tx (wire st') = tx (wire st) ++ reads
    /\ Forall (fun f => is_read_request f = true) reads.
Proof.
  unfold memory_read. cbv zeta.
  destruct (length <? 250); [|destruct (length <? 2 * 250)].
  - intros [Htx _]%memory_read_aux_log. eexists. split; [done|].
    by repeat constructor.
  - intros (a & st1 & [Ha _]%memory_read_aux_log & H)%bind_inv.
    apply bind_inv in H as (b & st2 & [Hb _]%memory_read_aux_log & H).
    unfold lift in H. destruct (add_bytes a b); [done|]. injection H as <- <-.
    eexists. rewrite Hb, Ha, <- (assoc_L (++)). split; [done|].
    by repeat constructor.
  - intros (a & st1 & [Ha _]%memory_read_aux_log & H)%bind_inv.
    apply bind_inv in H as (b & st2 & [Hb _]%memory_read_aux_log & H).
    apply bind_inv in H as (ab & st2' & Hab & H).
    unfold lift in Hab. destruct (add_bytes a b); [done|].
    injection Hab as <- <-.
    apply bind_inv in H as (c & st3 & [Hc _]%memory_read_aux_log & H).
    unfold lift in H. destruct (add_bytes _ c); [done|]. injection H as <- <-.
    eexists. rewrite Hc, Hb, Ha, <- !(assoc_L (++)). split; [done|].
    by repeat constructor.
Qed.

Lemma memory_cstruct_log cls v_idx st v st' :
  memory_cstruct E fuel cls v_idx None None st = (Ret v, st') ->
  exists reads,
    tx (wire st') = tx (wire st) ++ reads
    /\ Forall (fun f => is_read_request f = true) reads.
Proof.
  unfold memory_cstruct.
  intros (addr & st1 & Haddr & H)%bind_inv.
  unfold lift in Haddr. destruct (getitem _ _); [done|].
  injection Haddr as <- <-. by eapply memory_read_log.
Qed.

Lemma only_reads_bind {A B} (m : M A) (k : A -> M B) :
  only_reads m -> (forall a, only_reads (k a)) -> only_reads (bind m k).
Proof.
  intros Hm Hk st r st'. unfold bind.
  destruct (m st) as [[a| |] st1] eqn:Hrun;
    destruct (Hm _ _ _ Hrun) as (reads1 & Htx1 & Hreads1).
  - intros Hcont. destruct (Hk _ _ _ _ Hcont) as (reads2 & Htx2 & Hreads2).
    exists (reads1 ++ reads2). rewrite Htx2, Htx1, <- (assoc_L (++)).
    split; [done|]. by apply Forall_app.
  - intros [= <- <-]. by exists reads1.
  - intros [= <- <-]. by exists reads1.
Qed.

Lemma only_reads_lift {A} (x : exn + A) : only_reads (lift x).
Proof.
  intros st r st'. destruct x; intros [= <- <-]; exists [];
    by rewrite app_nil_r.
Qed.

Lemma only_reads_ret {A} (a : A) : only_reads (ret a).
Proof. intros st r st' [= <- <-]. exists []. by rewrite app_nil_r. Qed.

Lemma only_reads_memory_read_aux addr length :
  only_reads (memory_read_aux E fuel addr length).
Proof.
  intros st r st' [Htx|Htx]%serial_write_log_any.
  - exists []. by rewrite app_nil_r.
  - eexists. split; [done|]. by repeat constructor.
Qed.

Lemma only_reads_memory_read addr length :
  only_reads (memory_read E fuel addr length).
Proof.
  unfold memory_read. cbv zeta.
  repeat case_match;
    repeat first [ apply only_reads_memory_read_aux
                 | apply only_reads_lift
                 | apply only_reads_bind; [|intros ?] ].
Qed.

(** Reading a record back hands read requests only to the port, however
    the read ends. *)
Lemma only_reads_memory_cstruct cls v_idx addr size :
  only_reads (memory_cstruct E fuel cls v_idx addr size).
Proof.
  unfold memory_cstruct. apply only_reads_bind.
  - destruct addr; [apply only_reads_ret|apply only_reads_lift].
  - intros a. apply only_reads_memory_read.
Qed.

End ReadLog.

(** ** The footprint of a write request *)

Lemma le_value_le_bytes_4 x : 0 <= x < 2 ^ 32 -> le_value (le_bytes 4 x) = x.
Proof.
  intros Hx. cbn [le_bytes le_value]. change 255 with (Z.ones 8).
  rewrite !Z.land_ones, !Z.shiftr_div_pow2 by lia.
  change (2 ^ 8) with 256.
  assert (x / 256 / 256 / 256 / 256 = 0) as Hz.
  { rewrite !Z.div_div by lia. apply Z.div_small. lia. }
  pose proof (Z.div_mod x 256 ltac:(lia)).
  pose proof (Z.div_mod (x / 256) 256 ltac:(lia)).
  pose proof (Z.div_mod (x / 256 / 256) 256 ltac:(lia)).
  pose proof (Z.div_mod (x / 256 / 256 / 256) 256 ltac:(lia)).
  lia.
Qed.

(** A single-field write request overwrites exactly the [s] bytes from its
    address on. *)
Lemma request_writes_field E addr (s : nat) payload a :
  0 <= addr < 2 ^ 32 ->
  a ∈ request_writes (memory_write_request E addr (Z.of_nat s) payload) <->
  addr <= a < addr + Z.of_nat s.
Proof.
  intros Haddr. unfold memory_write_request, request_writes.
  cbn [app le_bytes].
  change [Z.land addr 255; Z.land (addr ≫ 8) 255;
          Z.land ((addr ≫ 8) ≫ 8) 255; Z.land (((addr ≫ 8) ≫ 8) ≫ 8) 255]
    with (le_bytes 4 addr).
  rewrite le_value_le_bytes_4 by done.
  change (le_value [0; 0]) with 0. unfold range.
  change (seqZ 0 1) with [0]. cbn [mbind list_bind app].
  rewrite app_nil_r, list_elem_of_fmap. split.
  - intros (j & -> & Hj%elem_of_seqZ). lia.
  - intros Ha. exists (a - addr). split; [lia|]. apply elem_of_seqZ. lia.
Qed.

(** ** Worm calibration *)

Section Calibration.

Variable E : Env.
Variable fuel : nat.

(** C6: [send_worm_calib_data] on an opened port, with a valid worm index,
    [magenc_offset = m] and [None] for every other optional argument, on a
    schema whose fields [move_state] and [magenc_init] have known sizes and
    pack the values 0 and [m mod 2^14].
    (1) After its two informational prints the call is exactly: the
    single-field write of 0 to [move_state], the single-field write of
    [m mod 2^14] to [magenc_init], and the read-back of the record.
    (2) However the call ends, the port has been handed these two write
    requests, in that order, followed by read requests only: the writes
    among the requests are exactly these two.  The one exception is a
    device that never answers the first write: the call does not end and
    only the first write has been sent.
    (3) On a line that answers the three requests (a record below 250 bytes
    is read back with one request), the call returns the record read back,
    and the port has been handed the two writes and the read request.
    (4) The two writes overwrite no byte of device memory outside the fields
    [move_state] and [magenc_init] of record [worm_idx]. *)
Theorem send_worm_calib_data_magenc_only worm_idx m st base
    ft_ms ft_mi (s_ms s_mi : nat) bd_ms bd_mi :
  0 <= worm_idx < max_sensor_num E ->
  armh7_elf_alist E !! cls_name (WormmoduleStruct E) = Some base ->
  fields_types (WormmoduleStruct E) !! "move_state" = Some ft_ms ->
  fields_types (WormmoduleStruct E) !! "magenc_init" = Some ft_mi ->
  c_type_to_size E (c_type ft_ms) = inr (Z.of_nat s_ms) ->
  c_type_to_size E (c_type ft_mi) = inr (Z.of_nat s_mi) ->
  pack_value E (c_type ft_ms) (VInt 0) = inr bd_ms ->
  pack_value E (c_type ft_mi) (VInt (m `mod` 2 ^ 14)) = inr bd_mi ->
  checksum_is_byte E ->
  0 <= field_address (WormmoduleStruct E) base worm_idx ft_ms < 2 ^ 32 ->
  0 <= field_address (WormmoduleStruct E) base worm_idx ft_mi < 2 ^ 32 ->
  (s_ms <= 244)%nat ->
  (s_mi <= 244)%nat ->
  serial st <> None ->
  let write_move_state :=
    memory_write_request E
      (field_address (WormmoduleStruct E) base worm_idx ft_ms)
      (Z.of_nat s_ms) (field_payload s_ms bd_ms) in
  let write_magenc_init :=
    memory_write_request E
      (field_address (WormmoduleStruct E) base worm_idx ft_mi)
      (Z.of_nat s_mi) (field_payload s_mi bd_mi) in
  let read_back :=
    memory_read_frame E
      (cls_size (WormmoduleStruct E) * worm_idx + base)
      (cls_size (WormmoduleStruct E)) in
  let call :=
    send_worm_calib_data E fuel worm_idx VNone VNone VNone (Some m)
      VNone VNone VNone VNone in
  call st
  = (serial_write fuel write_move_state ;;;
     serial_write fuel write_magenc_init ;;;
     worm <- memory_cstruct E fuel (WormmoduleStruct E) worm_idx None None ;;
     ret (Some worm))
      (print (PrintCalibParams (VInt m) VNone VNone VNone VNone)
         (print (PrintCalibIds worm_idx VNone VNone VNone) st))
  /\ (forall r st',
         call st = (r, st') ->
         (exists reads,
             sent st st' = [write_move_state; write_magenc_init] ++ reads
             /\ Forall (fun f => is_read_request f = true) reads
             /\ filter (fun f => is_write_request f = true) (sent st st')
                = [write_move_state; write_magenc_init])
         \/ (r = Diverge /\ sent st st' = [write_move_state]))
  /\ (forall f1 f2 f3 rest,
         rx (wire st) = RxBytes f1 :: RxBytes f2 :: RxBytes f3 :: rest ->
         head f1 = Some (Z.of_nat (length f1)) ->
         head f2 = Some (Z.of_nat (length f2)) ->
         head f3 = Some (Z.of_nat (length f3)) ->
         (1 <= fuel)%nat ->
         0 <= cls_size (WormmoduleStruct E) < 250 ->
         exists st',
           call st = (Ret (Some (Some (payload f3))), st')
           /\ tx (wire st')
              = tx (wire st)
                  ++ [write_move_state; write_magenc_init; read_back]
           /\ rx (wire st') = rest)
  /\ (forall a,
         a ∈ request_writes write_move_state ++ request_writes write_magenc_init ->
         in_field E (WormmoduleStruct E) base worm_idx ft_ms s_ms a
         \/ in_field E (WormmoduleStruct E) base worm_idx ft_mi s_mi a).
Proof.
  intros Hidx Hbase Hms Hmi Hsms Hsmi Hpms Hpmi Hcs Hams Hami Hs1 Hs2 Hopen
    W1 W2 R call.
  set (printed := print (PrintCalibParams (VInt m) VNone VNone VNone VNone)
                    (print (PrintCalibIds worm_idx VNone VNone VNone) st)).
  assert (call st
          = (serial_write fuel W1 ;;; serial_write fuel W2 ;;;
             worm <- memory_cstruct E fuel (WormmoduleStruct E) worm_idx
                       None None ;;
             ret (Some worm)) printed)
    as Hrun.
  { unfold call, send_worm_calib_data, valid_index.
    rewrite (proj2 (Z.leb_le _ _)), (proj2 (Z.ltb_lt _ _)) by lia.
    cbn [andb negb int_or_none write_if_given].
    rewrite !bind_say, !bind_ret.
    erewrite bind_ext_l; [|by eapply (write_cls_alist_request E fuel)].
    fold W1. apply bind_ext_r. intros _ st1.
    rewrite bind_assoc.
    erewrite bind_ext_l; [|by eapply (write_cls_alist_request E fuel)].
    fold W2. apply bind_ext_r. intros _ st2.
    by rewrite !bind_ret. }
  assert (all_bytes W1) as Hb1.
  { apply memory_write_request_bytes; [done|lia|].
    apply field_payload_bytes. by destruct (pack_value_inr _ _ _ _ Hpms). }
  assert (all_bytes W2) as Hb2.
  { apply memory_write_request_bytes; [done|lia|].
    apply field_payload_bytes. by destruct (pack_value_inr _ _ _ _ Hpmi). }
  assert (serial printed <> None) as Hopenp by done.
  split_and!; [done| | |].
  - intros r st'. rewrite Hrun. unfold bind at 1.
    destruct (serial_write fuel W1 printed) as [[r1|e|] s1] eqn:H1;
      destruct (serial_write_sends _ _ _ _ _ Hopenp Hb1 H1)
        as (Htx1 & Hopen1 & Hno1); [| by destruct (Hno1 e) |];
      change (tx (wire printed)) with (tx (wire st)) in Htx1.
    2:{ intros [= <- <-]. right. split; [done|]. by apply sent_app. }
    assert (serial s1 <> None) as Hopen' by (by rewrite Hopen1).
    unfold bind at 1.
    destruct (serial_write fuel W2 s1) as [[r2|e|] s2] eqn:H2;
      destruct (serial_write_sends _ _ _ _ _ Hopen' Hb2 H2)
        as (Htx2 & _ & Hno2); [| by destruct (Hno2 e) |].
    2:{ intros [= <- <-]. left. exists [].
        assert (sent st s2 = [W1; W2]) as ->
          by (apply sent_app; by rewrite Htx2, Htx1, <- (assoc_L (++))).
        split_and!; [done|done|].
        by rewrite !filter_cons_True by done. }
    intros Hread.
    assert (only_reads
              (worm <- memory_cstruct E fuel (WormmoduleStruct E) worm_idx
                         None None ;;
               ret (Some worm))) as Hreads.
    { apply only_reads_bind; [apply only_reads_memory_cstruct|].
      intros worm. apply only_reads_ret. }
    destruct (Hreads _ _ _ Hread) as (reads & Htx3 & Hreads3).
    left. exists reads.
    assert (sent st st' = [W1; W2] ++ reads) as ->
      by (apply sent_app; by rewrite Htx3, Htx2, Htx1, <- !(assoc_L (++))).
    split_and!; [done|done|].
    cbn [app]. rewrite !filter_cons_True by done.
    by rewrite filter_writes_of_reads.
  - intros f1 f2 f3 rest Hrx Hf1 Hf2 Hf3 Hfuel Hsize.
    set (s1 := set_rx (RxBytes f2 :: RxBytes f3 :: rest)
                 (after_write W1 printed)).
    set (s2 := set_rx (RxBytes f3 :: rest) (after_write W2 s1)).
    exists (set_rx rest (after_write R s2)). split_and!.
    + rewrite Hrun.
      erewrite bind_run;
        [|by apply (serial_write_answered fuel W1 printed f1
                      (RxBytes f2 :: RxBytes f3 :: rest))].
      fold s1.
      erewrite bind_run;
        [|apply (serial_write_answered fuel W2 s1 f2 (RxBytes f3 :: rest));
          try done; unfold s1;
          by rewrite ?serial_set_rx, ?after_write_serial, ?rx_set_rx].
      fold s2.
      erewrite bind_run; [done|].
      unfold memory_cstruct, getitem. rewrite Hbase, bind_lift_inr.
      cbv zeta. unfold memory_read. cbv zeta.
      rewrite (proj2 (Z.ltb_lt _ _)) by lia.
      apply (serial_write_answered fuel R s2 f3 rest); try done.
      * unfold s2, s1.
        by rewrite !serial_set_rx, !after_write_serial, serial_set_rx,
          after_write_serial.
      * apply memory_read_frame_bytes; [done|lia].
    + rewrite tx_set_rx, after_write_tx. unfold s2.
      rewrite tx_set_rx, after_write_tx. unfold s1.
      rewrite tx_set_rx, after_write_tx. cbn [printed print wire].
      by rewrite <- !(assoc_L (++)).
    + by rewrite rx_set_rx.
  - intros a [Ha|Ha]%elem_of_app; [left|right];
      by apply request_writes_field in Ha.
Qed.

End Calibration.

(** Worm record 1 with [magenc_offset = 20000] on a line that answers the
    three requests: [move_state] gets 0, [magenc_init] gets
    20000 mod 16384 = 3616, bytes [32, 14], and the record is read back. *)
Lemma send_worm_calib_data_magenc_only_witness :
  exists st',
    send_worm_calib_data Demo.env 2 1 VNone VNone VNone (Some 20000)
      VNone VNone VNone VNone
      (Demo.session [Demo.reply []; Demo.reply [];
                     Demo.reply (replicate 16 0)])
    = (Ret (Some (Some (payload (18 :: replicate 16 0 ++ [18])))), st')
    /\ tx (wire st')
       = tx (wire (Demo.session [Demo.reply []; Demo.reply [];
                                 Demo.reply (replicate 16 0)]))
           ++ [memory_write_request Demo.env
                 (field_address Demo.worm 604086272 1
                    (mkFieldType "uint16" 6)) 2 (field_payload 2 [0; 0]);
               memory_write_request Demo.env
                 (field_address Demo.worm 604086272 1
                    (mkFieldType "uint16" 8)) 2 (field_payload 2 [32; 14]);
               memory_read_frame Demo.env (16 * 1 + 604086272) 16]
    /\ rx (wire st') = [].
Proof.
  refine (proj1 (proj2 (proj2
            (send_worm_calib_data_magenc_only Demo.env 2 1 20000
               (Demo.session [Demo.reply []; Demo.reply [];
                              Demo.reply (replicate 16 0)])
               604086272 (mkFieldType "uint16" 6) (mkFieldType "uint16" 8)
               2 2 [0; 0] [32; 14] _ eq_refl eq_refl eq_refl eq_refl
               eq_refl eq_refl eq_refl sum_checksum_is_byte _ _ _ _ _)))
            [2; 2] [2; 2] (18 :: replicate 16 0 ++ [18]) []
            eq_refl eq_refl eq_refl eq_refl _ _).
  - cbn [max_sensor_num Demo.env]. lia.
  - vm_compute. split; [discriminate|reflexivity].
  - vm_compute. split; [discriminate|reflexivity].
  - lia.
  - lia.
  - discriminate.
  - lia.
  - cbn [cls_size WormmoduleStruct Demo.env Demo.worm]. lia.
Defined.

(** The same call, run: two write requests, one read request, and the
    record read back. *)
Example send_worm_calib_data_run :
  send_worm_calib_data Demo.env 2 1 VNone VNone VNone (Some 20000)
    VNone VNone VNone VNone
    (Demo.session [Demo.reply []; Demo.reply []; Demo.reply (replicate 16 0)])
  = (Ret (Some (Some (replicate 16 0))),
     mkState (Some "/dev/ttyUSB1")
       (mkWire [[13; 252; 22; 160; 1; 36; 1; 2; 0; 0; 0; 0; 231];
                [13; 252; 24; 160; 1; 36; 1; 2; 0; 0; 32; 14; 23];
                [11; 251; 16; 160; 1; 36; 1; 16; 0; 0; 236]] [] [])
       [PrintCalibIds 1 VNone VNone VNone;
        PrintCalibParams (VInt 20000) VNone VNone VNone VNone]
       None None None None).
Proof. vm_compute. reflexivity. Qed.

(** ** Wheel discovery *)

Section Wheels.

Variable E : Env.
Variable fuel : nat.

Lemma slot_value_inr typ v bd :
  slot_value E typ v = inr bd -> all_bytes bd.
Proof.
  unfold slot_value. repeat case_decide; subst.
  - apply pack_f_bytes.
  - apply pack_uint_bytes.
  - destruct v as [|z| |]; simpl; try done.
    destruct (is_byte z) eqn:Hz; [|done]. intros [= <-]. by constructor.
  - done.
Qed.

Lemma set_cstruct_slot_request cls idx slot_name v st base ft s bd :
  armh7_elf_alist E !! cls_name cls = Some base ->
  fields_types cls !! slot_name = Some ft ->
  c_type_to_size E (c_type ft) = inr (Z.of_nat s) ->
  slot_value E (c_type ft) v = inr bd ->
  checksum_is_byte E ->
  0 <= field_address cls base idx ft < 2 ^ 32 ->
  (s <= 244)%nat ->
  set_cstruct_slot E fuel cls idx slot_name v st
  = serial_write fuel
      (memory_write_request E (field_address cls base idx ft) (Z.of_nat s)
         (field_payload s bd)) st.
Proof.
  intros Hbase Hft Hsize Hpack Hcs Haddr Hs.
  unfold set_cstruct_slot, getitem. rewrite Hbase, bind_lift_inr.
  rewrite Hft, bind_lift_inr. cbv zeta. rewrite Hsize, bind_lift_inr.
  rewrite bytearray_ok, bind_lift_inr, Hpack, bind_lift_inr.
  unfold ba_store_slice. cbn [take app Nat.max]. rewrite drop_replicate.
  apply memory_write_field; try done. by eapply slot_value_inr.
Qed.

Lemma wheels_cons idx rotation feedback recs :
  wheels (mkServoScan idx rotation feedback :: recs)
  = (if 0 <? rotation then [idx] else []) ++ wheels recs.
Proof.
  unfold wheels. destruct (0 <? rotation) eqn:Hrot.
  - apply Z.ltb_lt in Hrot. by rewrite filter_cons_True.
  - apply Z.ltb_ge in Hrot. rewrite filter_cons_False; [done|]. simpl. lia.
Qed.

Lemma cleared_cons idx rotation feedback recs :
  cleared (mkServoScan idx rotation feedback :: recs)
  = (if 0 <? feedback then [idx] else []) ++ cleared recs.
Proof.
  unfold cleared. destruct (0 <? feedback) eqn:Hfb.
  - apply Z.ltb_lt in Hfb. by rewrite filter_cons_True.
  - apply Z.ltb_ge in Hfb. rewrite filter_cons_False; [done|]. simpl. lia.
Qed.

Lemma wheel_loop_scanned ids :
  forall acc st indices st',
    for_each ids (wheel_turn E fuel) acc st = (Ret indices, st') ->
    exists recs, scanned E fuel ids st recs st' /\ indices = acc ++ wheels recs.
Proof.
  induction ids as [|idx ids IH]; intros acc st indices st'.
  - intros [= <- <-]. exists []. split; [constructor|by rewrite app_nil_r].
  - cbn [for_each].
    intros (acc' & st2 & Hturn & Hloop)%bind_inv.
    unfold wheel_turn in Hturn.
    apply bind_inv in Hturn as (servo & st1 & Hread & Hturn).
    destruct (cstruct_attr E (ServoStruct E) servo "rotation")
      as [|rotation] eqn:Hrot; [done|].
    rewrite bind_lift_inr in Hturn. cbv zeta in Hturn.
    destruct (cstruct_attr E (ServoStruct E) servo "feedback")
      as [|feedback] eqn:Hfb; [done|].
    rewrite bind_lift_inr in Hturn.
    apply bind_inv in Hturn as ([] & st2' & Hclear & Hturn).
    injection Hturn as <- <-.
    destruct (IH _ _ _ _ Hloop) as (recs & Hscan & ->).
    exists (mkServoScan idx rotation feedback :: recs). split.
    + econstructor; [done|done|done| |done].
      destruct (0 <? feedback).
      * apply bind_inv in Hclear as (r & st2'' & Hset & Hret).
        injection Hret as <-. by exists r.
      * by injection Hclear as <-.
    + rewrite wheels_cons. destruct (0 <? rotation); [|done].
      by rewrite <- (assoc_L (++)).
Qed.

Lemma scanned_wheel_loop ids st recs st' :
  scanned E fuel ids st recs st' ->
  forall acc,
    for_each ids (wheel_turn E fuel) acc st = (Ret (acc ++ wheels recs), st').
Proof.
  induction 1 as [st|idx ids st servo st1 rotation feedback st2 recs st3
                    Hread Hrot Hfb Hclear _ IH]; intros acc.
  - by rewrite app_nil_r.
  - cbn [for_each]. unfold wheel_turn at 1.
    rewrite !bind_assoc. erewrite bind_run by done.
    rewrite Hrot, bind_assoc, bind_lift_inr. cbv zeta.
    rewrite Hfb, !bind_assoc, bind_lift_inr.
    destruct (0 <? feedback).
    + destruct Hclear as [r Hset].
      rewrite !bind_assoc. erewrite bind_run by done.
      cbv beta iota delta [bind ret]. rewrite IH, wheels_cons.
      destruct (0 <? rotation); [|done]. by rewrite <- (assoc_L (++)).
    + subst st2. cbv beta iota delta [bind ret]. rewrite IH, wheels_cons.
      destruct (0 <? rotation); [|done]. by rewrite <- (assoc_L (++)).
Qed.

Lemma scanned_ids ids st recs st' :
  scanned E fuel ids st recs st' -> scan_idx <$> recs = ids.
Proof. induction 1; [done|]. simpl. by f_equal. Qed.

Section Clearing.

Variables (base : Z) (ft : FieldType) (s : nat) (bd : list Z).
Hypothesis base_known :
  armh7_elf_alist E !! cls_name (ServoStruct E) = Some base.
Hypothesis feedback_field :
  fields_types (ServoStruct E) !! "feedback" = Some ft.
Hypothesis feedback_size : c_type_to_size E (c_type ft) = inr (Z.of_nat s).
Hypothesis zero_packs : slot_value E (c_type ft) (VInt 0) = inr bd.
Hypothesis checksum_ok : checksum_is_byte E.
Hypothesis size_fits : (s <= 244)%nat.

Lemma scanned_writes ids st recs st' :
  scanned E fuel ids st recs st' ->
  Forall (fun idx =>
            0 <= field_address (ServoStruct E) base idx ft < 2 ^ 32) ids ->
  exists new,
    tx (wire st') = tx (wire st) ++ new
    /\ filter (fun f => is_write_request f = true) new
       = (fun idx =>
            memory_write_request E (field_address (ServoStruct E) base idx ft)
              (Z.of_nat s) (field_payload s bd)) <$> cleared recs.
Proof.
  induction 1 as [st|idx ids st servo st1 rotation feedback st2 recs st3
                    Hread Hrot Hfb Hclear _ IH].
  - intros _. exists []. by rewrite app_nil_r.
  - intros [Haddr Hrest]%Forall_cons.
    destruct (IH Hrest) as (new & Htx3 & Hnew).
    apply memory_cstruct_log in Hread as (reads & Htx1 & Hreads).
    rewrite cleared_cons. destruct (0 <? feedback).
    + destruct Hclear as [r Hset].
      rewrite (set_cstruct_slot_request _ _ _ _ _ _ _ _ _
                 base_known feedback_field feedback_size zero_packs
                 checksum_ok Haddr size_fits) in Hset.
      apply serial_write_log in Hset as [Htx2 _].
      eexists. rewrite Htx3, Htx2, Htx1, <- !(assoc_L (++)).
      split; [done|].
      rewrite !filter_app, filter_writes_of_reads by done.
      rewrite filter_cons_True by done. by rewrite filter_nil, Hnew.
    + subst st2. eexists. rewrite Htx3, Htx1, <- !(assoc_L (++)).
      split; [done|].
      by rewrite filter_app, filter_writes_of_reads, Hnew.
Qed.

End Clearing.

(** C7 (amended): [search_wheel_sids] over the discovered servos [ids], on a
    schema whose [feedback] field has a known size and packs the value 0.
    (1) It returns exactly when the scan of [ids] goes through, and then it
    returns the servos seen with a positive rotation flag, in scan order,
    and stores them sorted as the wheel servos.
    (2) The scan sees every servo of [ids] once, and the write requests it
    hands to the port are exactly, in scan order, one write clearing the
    feedback flag for each servo seen with a positive feedback flag, whether
    or not its rotation flag is positive.
    (3) Such a write overwrites exactly the bytes of the [feedback] field of
    that servo's record. *)
Theorem search_wheel_sids_scan st ids base ft (s : nat) bd :
  servo_sorted_ids st = Some ids ->
  armh7_elf_alist E !! cls_name (ServoStruct E) = Some base ->
  fields_types (ServoStruct E) !! "feedback" = Some ft ->
  c_type_to_size E (c_type ft) = inr (Z.of_nat s) ->
  slot_value E (c_type ft) (VInt 0) = inr bd ->
  checksum_is_byte E ->
  (s <= 244)%nat ->
  Forall (fun idx =>
            0 <= field_address (ServoStruct E) base idx ft < 2 ^ 32) ids ->
  let clear_feedback idx :=
    memory_write_request E (field_address (ServoStruct E) base idx ft)
      (Z.of_nat s) (field_payload s bd) in
  (forall indices st',
      search_wheel_sids E fuel st = (Ret indices, st') <->
      exists recs st3,
        scanned E fuel ids st recs st3
        /\ indices = wheels recs
        /\ st' = set_wheel_servo_sorted_ids (sorted indices) st3)
  /\ (forall recs st3,
         scanned E fuel ids st recs st3 ->
         scan_idx <$> recs = ids
         /\ filter (fun f => is_write_request f = true) (sent st st3)
            = clear_feedback <$> cleared recs)
  /\ (forall idx a,
         idx ∈ ids ->
         a ∈ request_writes (clear_feedback idx) <->
         in_field E (ServoStruct E) base idx ft s a).
Proof.
  intros Hids Hbase Hft Hsize Hpack Hcs Hs Haddr clear_feedback.
  split_and!.
  - intros indices st'. unfold search_wheel_sids.
    unfold bind at 1. rewrite Hids. split.
    + intros (indices' & st3 & Hloop & Hend)%bind_inv.
      injection Hend as <- <-.
      apply wheel_loop_scanned in Hloop as (recs & Hscan & ->).
      by exists recs, st3.
    + intros (recs & st3 & Hscan & -> & ->).
      erewrite bind_run; [done|].
      apply (scanned_wheel_loop _ _ _ _ Hscan []).
  - intros recs st3 Hscan. split; [by eapply scanned_ids|].
    destruct (scanned_writes base ft s bd Hbase Hft Hsize Hpack Hcs Hs
                _ _ _ _ Hscan Haddr) as (new & Htx & Hnew).
    by rewrite (sent_app _ _ _ Htx).
  - intros idx a Hidx. unfold in_field.
    apply request_writes_field.
    by apply (proj1 (Forall_forall _ _) Haddr).
Qed.

End Wheels.

(** Servos 0 and 2 were discovered.  Servo 0 has rotation 0 and feedback 1,
    servo 2 has rotation 1 and feedback 0: servo 2 is the only wheel. *)
Lemma search_wheel_sids_scan_witness :
  exists recs st3,
    scanned Demo.env 2 [0; 2]
      (Demo.discovered [0; 2]
         [Demo.reply [2; 0; 1; 0; 0; 0; 0; 0]; Demo.reply [];
          Demo.reply [2; 1; 0; 0; 0; 0; 0; 0]])
      recs st3
    /\ [2] = wheels recs
    /\ mkState (Some "/dev/ttyUSB1")
         (mkWire [[11; 251; 0; 176; 0; 36; 1; 8; 0; 0; 227];
                  [12; 252; 2; 176; 0; 36; 1; 1; 0; 0; 0; 224];
                  [11; 251; 16; 176; 0; 36; 1; 8; 0; 0; 243]] [] [])
         [] None (Some [0; 2]) None (Some [2])
       = set_wheel_servo_sorted_ids (sorted [2]) st3.
Proof.
  apply (proj1 (proj1 (search_wheel_sids_scan Demo.env 2
                         (Demo.discovered [0; 2]
                            [Demo.reply [2; 0; 1; 0; 0; 0; 0; 0];
                             Demo.reply [];
                             Demo.reply [2; 1; 0; 0; 0; 0; 0; 0]])
                         [0; 2] 604024832 (mkFieldType "uint8" 2) 1 [0]
                         eq_refl eq_refl eq_refl eq_refl eq_refl
                         sum_checksum_is_byte ltac:(lia)
                         ltac:(repeat constructor; vm_compute;
                               first [discriminate | reflexivity]))
                  [2] _)).
  vm_compute. reflexivity.
Defined.

(** C7 as stated fails: servo 0 is not a wheel (rotation 0, it is not among
    the servos returned), and yet the scan sends a write request that
    overwrites the feedback byte of its record. *)
Lemma search_wheel_sids_clears_non_wheel :
  search_wheel_sids Demo.env 2
    (Demo.discovered [0; 2]
       [Demo.reply [2; 0; 1; 0; 0; 0; 0; 0]; Demo.reply [];
        Demo.reply [2; 1; 0; 0; 0; 0; 0; 0]])
  = (Ret [2],
     mkState (Some "/dev/ttyUSB1")
       (mkWire [[11; 251; 0; 176; 0; 36; 1; 8; 0; 0; 227];
                [12; 252; 2; 176; 0; 36; 1; 1; 0; 0; 0; 224];
                [11; 251; 16; 176; 0; 36; 1; 8; 0; 0; 243]] [] [])
       [] None (Some [0; 2]) None (Some [2]))
  /\ request_writes [12; 252; 2; 176; 0; 36; 1; 1; 0; 0; 0; 224]
     = [field_address Demo.servo 604024832 0 (mkFieldType "uint8" 2)].
Proof. split; vm_compute; reflexivity. Qed.


(** * Further properties *)

(** ** What reaches the port *)

Lemma serial_read_first_suffix fuel st r st' :
  serial_read_first fuel st = (r, st') -> rx (wire st') `suffix_of` rx (wire st).
Proof.
  revert st. induction fuel as [|fuel IH]; intros st; simpl.
  - by intros [= <- <-].
  - unfold port_read. destruct (rx (wire st)) as [|[bs|] evs] eqn:Hrx.
    + intros Hrun. apply IH in Hrun. simpl in Hrun. by rewrite Hrx in Hrun.
    + case_decide.
      * intros Hrun. apply IH in Hrun. simpl in Hrun.
        by apply suffix_cons_r.
      * intros [= <- <-]. simpl. by apply suffix_cons_r.
    + intros [= <- <-]. simpl. by apply suffix_cons_r.
Qed.

Lemma serial_read_rest_suffix fuel acc st r st' :
  serial_read_rest fuel acc st = (r, st') ->
  rx (wire st') `suffix_of` rx (wire st).
Proof.
  revert acc st. induction fuel as [|fuel IH]; intros acc st; simpl.
  - destruct (incomplete acc); by intros [= <- <-].
  - destruct (incomplete acc); [|by intros [= <- <-]].
    unfold port_read. destruct (rx (wire st)) as [|[bs|] evs] eqn:Hrx.
    + intros Hrun. apply IH in Hrun. simpl in Hrun. by rewrite Hrx in Hrun.
    + intros Hrun. apply IH in Hrun. simpl in Hrun. by apply suffix_cons_r.
    + intros [= <- <-]. simpl. by apply suffix_cons_r.
Qed.

(** X1: whatever [serial_read] ends in (a payload, [None], an exception or
    a timeout), it has sent nothing, the port object is the same, and what
    is left on the line is a suffix of what was there: reads are consumed
    from the front, in order, and nothing is put back. *)
Theorem serial_read_consumes_front fuel st r st' :
  serial_read fuel st = (r, st') ->
  tx (wire st') = tx (wire st)
  /\ serial st' = serial st
  /\ rx (wire st') `suffix_of` rx (wire st).
Proof.
  intros Hrun. destruct (serial_read_log _ _ _ _ Hrun) as [Htx Hserial].
  split_and!; [done|done|].
  revert Hrun. unfold serial_read. destruct (serial st); [|by intros [= <- <-]].
  unfold bind.
  destruct (serial_read_first fuel st) as [[[first|]| |] st1] eqn:H1;
    apply serial_read_first_suffix in H1; try (by intros [= <- <-]).
  destruct (serial_read_rest fuel first st1) as [[[acc|]| |] st2] eqn:H2;
    apply serial_read_rest_suffix in H2;
    intros [= <- <-]; by etrans.
Qed.

Lemma serial_read_consumes_front_witness :
  tx (wire (print PrintErrorReading (Demo.session [RxBytes [2; 3; 9]])))
  = tx (wire (Demo.session [RxBytes [5; 1]; RxError; RxBytes [2; 3; 9]]))
  /\ serial (print PrintErrorReading (Demo.session [RxBytes [2; 3; 9]]))
     = serial (Demo.session [RxBytes [5; 1]; RxError; RxBytes [2; 3; 9]])
  /\ rx (wire (print PrintErrorReading (Demo.session [RxBytes [2; 3; 9]])))
     `suffix_of`
     rx (wire (Demo.session [RxBytes [5; 1]; RxError; RxBytes [2; 3; 9]])).
Proof.
  apply (serial_read_consumes_front 4 _ (Ret None)). reflexivity.
Defined.

(** X2: [serial_write] hands its argument to the port at most once, and
    only as a string of bytes.  With the port not opened it raises
    [RuntimeError] and with an item outside [0, 255] it raises [ValueError],
    in both cases with the state untouched; otherwise the argument is
    written exactly once, whatever the read that follows ends in. *)
Theorem serial_write_sends_bytes_once fuel byte_list st r st' :
  serial_write fuel byte_list st = (r, st') ->
  (serial st = None /\ r = Raise not_opened /\ st' = st)
  \/ (serial st <> None /\ ~ all_bytes byte_list
      /\ r = Raise ValueError /\ st' = st)
  \/ (serial st <> None /\ all_bytes byte_list
      /\ tx (wire st') = tx (wire st) ++ [byte_list]).
Proof.
  destruct (serial st) as [port|] eqn:Hserial.
  - destruct (forallb is_byte byte_list) eqn:Hbytes.
    + intros Hrun. right. right.
      apply all_bytes_forallb in Hbytes.
      rewrite serial_write_run in Hrun by (done || by rewrite Hserial).
      apply serial_read_log in Hrun as [-> _].
      split_and!; [done|done|apply after_write_tx].
    + unfold serial_write, bytes_. rewrite Hserial, Hbytes.
      intros [= <- <-]. right. left. split_and!; try done.
      intros Hall%all_bytes_forallb. congruence.
  - unfold serial_write. rewrite Hserial. intros [= <- <-]. by left.
Qed.

Lemma serial_write_sends_bytes_once_witness :
  (serial (Demo.session [Demo.reply []]) = None
   /\ @Raise (option (list Z)) ValueError = Raise not_opened
   /\ Demo.session [Demo.reply []] = Demo.session [Demo.reply []])
  \/ (serial (Demo.session [Demo.reply []]) <> None
      /\ ~ all_bytes [4; 254; 300; 8]
      /\ @Raise (option (list Z)) ValueError = Raise ValueError
      /\ Demo.session [Demo.reply []] = Demo.session [Demo.reply []])
  \/ (serial (Demo.session [Demo.reply []]) <> None
      /\ all_bytes [4; 254; 300; 8]
      /\ tx (wire (Demo.session [Demo.reply []]))
         = tx (wire (Demo.session [Demo.reply []])) ++ [[4; 254; 300; 8]]).
Proof.
  apply (serial_write_sends_bytes_once 2 [4; 254; 300; 8]
           (Demo.session [Demo.reply []]) (Raise ValueError)).
  reflexivity.
Defined.

(** ** Ack probe *)


Section Ack.

Variable fuel : nat.


End Ack.


(** ** Bounds of [memory_write] *)

Lemma for_each_app {A B} (l1 l2 : list A) (body : B -> A -> M B) acc st :
  for_each (l1 ++ l2) body acc st
  = bind (for_each l1 body acc) (fun acc' => for_each l2 body acc') st.
Proof.
  revert acc st. induction l1 as [|x l1 IH]; intros acc st; [done|].
  cbn [app for_each]. rewrite bind_assoc. apply bind_ext_r.
  intros acc' st'. apply IH.
Qed.

Lemma ba_store_inr i v b b' : ba_store i v b = inr b' -> is_byte v = true.
Proof. unfold ba_store. by destruct (is_byte v). Qed.

Lemma to_bytes_inr k x l : to_bytes k x = inr l -> 0 <= x < 2 ^ (8 * Z.of_nat k).
Proof.
  unfold to_bytes. destruct (x <? 0) eqn:Hneg; [done|].
  destruct (2 ^ (8 * Z.of_nat k) <=? x) eqn:Hbig; [done|].
  intros _. apply Z.ltb_ge in Hneg. apply Z.leb_gt in Hbig. lia.
Qed.

Section WriteBounds.

Variable E : Env.
Variable fuel : nat.
Hypothesis checksum_ok : checksum_is_byte E.

(** A data buffer shorter than the announced length stops the copy loop
    with [IndexError]. *)
Lemma copy_payload_short (len : nat) data byte_list st :
  all_bytes data ->
  (length data < len)%nat ->
  (len + 10 <= length byte_list)%nat ->
  copy_payload (Z.of_nat len) data byte_list st = (Raise IndexError, st).
Proof.
  intros Hdata Hshort Hbl. unfold copy_payload, range.
  replace (Z.of_nat len)
    with (Z.of_nat (length data) + Z.of_nat (len - length data)) by lia.
  rewrite seqZ_app by lia. rewrite for_each_app.
  erewrite bind_run.
  2:{ apply (copy_payload_loop data st (length data) 0%nat byte_list);
        [done|lia|lia]. }
  rewrite seqZ_cons by lia. cbn [for_each].
  unfold bind at 1. unfold bind at 1.
  replace (0 + Z.of_nat (length data)) with (Z.of_nat (length data)) by lia.
  rewrite Nat2Z.id, lookup_ge_None_2 by lia. done.
Qed.

(** Outside its bounds [memory_write] raises while the frame is built. *)
Lemma memory_write_refused addr length data st :
  all_bytes data ->
  ~ (0 <= addr < 2 ^ 32 /\ 0 <= length <= 244
     /\ length <= Z.of_nat (List.length data)) ->
  exists e, memory_write E fuel addr length data st = (Raise e, st).
Proof.
  intros Hdata Hout. unfold memory_write.
  assert (forall e, (byte_list <- @raise (list Z) e ;;
                     serial_write fuel byte_list) st = (Raise e, st))
    as Hraise by done.
  destruct (decide (0 <= addr < 2 ^ 32 /\ 0 <= length <= 244)) as [[Ha Hl]|Hbad].
  + (* the buffer is too short *)
    assert (List.length data < Z.to_nat length)%nat as Hshort by lia.
    exists IndexError. unfold bind at 1.
    replace length with (Z.of_nat (Z.to_nat length)) by lia.
    set (len := Z.to_nat length) in *.
    unfold memory_write_frame, bytearray, to_bytes. cbv zeta.
    rewrite (proj2 (Z.ltb_ge _ _)) by lia.
    replace (Z.to_nat (Z.of_nat len + 11)) with (len + 11)%nat by lia.
    rewrite (proj2 (Z.ltb_ge addr 0)) by lia.
    rewrite (proj2 (Z.leb_gt _ addr)) by (simpl; lia).
    cbn [orb]. rewrite bind_lift_inr.
    rewrite (ba_store_at 0); [|done|apply is_byte_true; lia|len_solve].
    rewrite bind_lift_inr.
    rewrite (ba_store_at 1); [|done|done|len_solve].
    rewrite !bind_lift_inr.
    rewrite (ba_store_at 6); [|done|done|unfold ba_store_slice; len_solve].
    rewrite bind_lift_inr.
    rewrite (ba_store_at 7);
      [|done|apply is_byte_true; lia|unfold ba_store_slice; len_solve].
    change ((0 <? 0) || (2 ^ (8 * Z.of_nat 2) <=? 0)) with false. cbn iota.
    rewrite !bind_lift_inr.
    unfold bind at 1.
    rewrite copy_payload_short;
      [done|done|done|unfold ba_store_slice; len_solve].
  + (* the address or the length is out of range *)
    unfold bind at 1. unfold memory_write_frame. cbv zeta.
    repeat match goal with
           | |- context [bind (lift ?x) _ _] =>
               let Hx := fresh "Hx" in
               destruct x eqn:Hx;
               [rewrite bind_lift_inl; by eexists | rewrite bind_lift_inr]
           end.
    exfalso. apply Hbad.
    match goal with H : to_bytes 4 addr = inr _ |- _ =>
      apply to_bytes_inr in H end.
    match goal with H : ba_store 0 (length + 11) _ = inr _ |- _ =>
      apply ba_store_inr, is_byte_true in H end.
    match goal with H : ba_store 7 length _ = inr _ |- _ =>
      apply ba_store_inr, is_byte_true in H end.
    change (2 ^ (8 * Z.of_nat 4)) with (2 ^ 32) in *. lia.
Qed.

(** Within its bounds [memory_write] is the transmission of its request. *)
Lemma memory_write_accepted addr length data st :
  all_bytes data ->
  0 <= addr < 2 ^ 32 ->
  0 <= length <= 244 ->
  length <= Z.of_nat (List.length data) ->
  memory_write E fuel addr length data st
  = serial_write fuel
      (memory_write_request E addr length (take (Z.to_nat length) data)) st.
Proof.
  intros Hdata Haddr Hlen Hfit.
  replace length with (Z.of_nat (Z.to_nat length)) at 1 2 by lia.
  unfold memory_write. erewrite bind_run; [done|].
  apply memory_write_frame_ok; try done; lia.
Qed.

(** X4: [memory_write addr length data], for a buffer [data] of bytes.
    When the address fits four bytes, [0 <= length <= 244] and [data] has at
    least [length] items, the call is the transmission of the one request
    made of the ten-byte header, the first [length] bytes of [data] and the
    checksum, a frame whose first byte is its own length [length + 11]: on
    an opened port exactly that request is handed to the port, however the
    call ends, and nothing is raised; on a port that is not opened the call
    raises [RuntimeError] and sends nothing.  In every other case it raises
    before anything is sent and leaves the state untouched. *)
Theorem memory_write_bounds addr length data st :
  all_bytes data ->
  let request :=
    memory_write_request E addr length (take (Z.to_nat length) data) in
  (0 <= addr < 2 ^ 32 /\ 0 <= length <= 244
   /\ length <= Z.of_nat (List.length data) ->
   memory_write E fuel addr length data st = serial_write fuel request st
   /\ well_framed request
   /\ (serial st <> None ->
       forall r st',
         memory_write E fuel addr length data st = (r, st') ->
         sent st st' = [request] /\ forall e, r <> Raise e)
   /\ (serial st = None ->
       memory_write E fuel addr length data st = (Raise not_opened, st)))
  /\ (~ (0 <= addr < 2 ^ 32 /\ 0 <= length <= 244
         /\ length <= Z.of_nat (List.length data)) ->
      exists e, memory_write E fuel addr length data st = (Raise e, st)).
Proof.
  intros Hdata request. split; [|by apply memory_write_refused].
  intros (Haddr & Hlen & Hfit).
  assert (memory_write E fuel addr length data st
          = serial_write fuel request st) as Hrun
    by (by apply memory_write_accepted).
  split_and!; [done| | |].
  - unfold well_framed, request, memory_write_request.
    cbn [app head le_bytes].
    f_equal. cbn [List.length]. rewrite length_app, length_take.
    cbn [List.length]. lia.
  - intros Hopen r st'. rewrite Hrun. intros Hsend.
    apply serial_write_sends in Hsend as (Htx & _ & Hno); [|done|].
    + split; [by apply sent_app|done].
    + apply memory_write_request_bytes; [done|done|].
      by apply Forall_take.
  - intros Hclosed. rewrite Hrun. unfold serial_write. by rewrite Hclosed.
Qed.

End WriteBounds.

(** Two bytes of a three-byte buffer are written: the port is handed the
    one request [13, 0xFC, address, 1, 2, 0, 0, 1, 2, checksum]. *)
Lemma memory_write_bounds_witness :
  sent (Demo.session [Demo.reply []])
    (Demo.after_requests [[13; 252; 232; 3; 0; 0; 1; 2; 0; 0; 1; 2; 250]] [])
  = [memory_write_request Demo.env 1000 2 (take (Z.to_nat 2) [1; 2; 3])]
  /\ forall e, Ret (Some []) <> @Raise (option (list Z)) e.
Proof.
  assert (all_bytes [1; 2; 3]) as Hdata by (by repeat constructor).
  apply (proj1 (proj2 (proj2
           (proj1 (memory_write_bounds Demo.env 2 sum_checksum_is_byte
                     1000 2 [1; 2; 3] (Demo.session [Demo.reply []]) Hdata)
              ltac:(simpl; lia))))
           ltac:(discriminate) (Ret (Some []))
           (Demo.after_requests
              [[13; 252; 232; 3; 0; 0; 1; 2; 0; 0; 1; 2; 250]] [])).
  vm_compute. reflexivity.
Defined.

(** ** Firmware function calls without arguments *)

Section FunctionCall.

Variable E : Env.
Variable fuel : nat.

(** X5: a call of a firmware function without arguments
    ([cfunc_call(name, [])], as [buzzer] and [write_to_flash] do).  For a
    name the symbol table knows, with an address that fits four bytes, the
    call is the transmission of the eight-byte frame [8, 0xFA, address (4
    bytes, little-endian), 0, checksum]: on an opened port exactly that
    frame is handed to the port, however the call ends, and nothing is
    raised.  For a name the table does not know it raises [KeyError] and
    sends nothing. *)
Theorem cfunc_call_no_arguments func_string st :
  (forall addr,
      armh7_elf_alist E !! func_string = Some addr ->
      0 <= addr < 2 ^ 32 ->
      checksum_is_byte E ->
      let body := [8; 250] ++ le_bytes 4 addr ++ [0] in
      cfunc_call E fuel func_string [VList []] st
      = serial_write fuel (body ++ [rcb4_checksum E body]) st
      /\ well_framed (body ++ [rcb4_checksum E body])
      /\ (serial st <> None ->
          forall r st',
            cfunc_call E fuel func_string [VList []] st = (r, st') ->
            sent st st' = [body ++ [rcb4_checksum E body]]
            /\ forall e, r <> Raise e))
  /\ (armh7_elf_alist E !! func_string = None ->
      cfunc_call E fuel func_string [VList []] st = (Raise KeyError, st)).
Proof.
  split.
  - intros addr Hlookup Haddr Hcs body.
    assert (cfunc_call E fuel func_string [VList []] st
            = serial_write fuel (body ++ [rcb4_checksum E body]) st) as Hrun;
      [|split_and!; [done|done|];
        intros Hopen r st'; rewrite Hrun; intros Hsend;
        apply serial_write_sends in Hsend as (Htx & _ & Hno);
        [split; [by apply sent_app|done]|done|];
        apply Forall_app; split; [|repeat constructor; apply Hcs];
        apply Forall_app; split; [by repeat constructor|];
        apply Forall_app; split;
        [apply le_bytes_all_bytes|by repeat constructor]].
    unfold cfunc_call, getitem, to_bytes. rewrite Hlookup, bind_lift_inr.
    cbn [len_star lift List.length]. rewrite bind_ret. cbv zeta.
    change (8 + 4 * Z.of_nat 0) with 8.
    change (bytearray 8) with (@inr exn _ (replicate 8 0)).
    rewrite bind_lift_inr.
    rewrite (ba_store_at 0); [|done|done|simpl; lia].
    rewrite bind_lift_inr.
    rewrite (ba_store_at 1); [|done|done|simpl; lia].
    rewrite bind_lift_inr.
    rewrite (proj2 (Z.ltb_ge addr 0)) by lia.
    rewrite (proj2 (Z.leb_gt _ addr)) by (simpl; lia).
    cbn [orb]. rewrite bind_lift_inr.
    rewrite (ba_store_at 6); [|done|done|simpl; lia].
    rewrite bind_lift_inr.
    change (range (Z.of_nat 0)) with (@nil Z). cbn [for_each].
    rewrite bind_ret.
    rewrite (ba_store_at 7); [|done|apply Hcs|simpl; lia].
    rewrite bind_lift_inr. reflexivity.
  - intros Hlookup. unfold cfunc_call, getitem. by rewrite Hlookup.
Qed.

End FunctionCall.

(** The buzzer on an answering line: the port is handed the one frame
    [8, 0xFA, 0x00, 0x60, 0x01, 0x24, 0, checksum]. *)
Lemma cfunc_call_no_arguments_witness :
  sent (Demo.session [Demo.reply []])
    (Demo.after_requests [[8; 250; 0; 96; 1; 36; 0; 135]] [])
  = [([8; 250] ++ le_bytes 4 604069888 ++ [0])
       ++ [rcb4_checksum Demo.env ([8; 250] ++ le_bytes 4 604069888 ++ [0])]]
  /\ forall e, Ret (Some []) <> @Raise (option (list Z)) e.
Proof.
  apply (proj2 (proj2
           (proj1 (cfunc_call_no_arguments Demo.env 2 "buzzer_init_sound"
                     (Demo.session [Demo.reply []]))
              604069888 eq_refl ltac:(lia) sum_checksum_is_byte))
           ltac:(discriminate) (Ret (Some []))
           (Demo.after_requests [[8; 250; 0; 96; 1; 36; 0; 135]] [])).
  change (cfunc_call Demo.env 2 "buzzer_init_sound" [VList []])
    with (buzzer Demo.env 2).
  vm_compute. reflexivity.
Defined.

(** ** Single-field writes, case by case *)

Lemma pack_uint_inr k v bd :
  pack_uint k v = inr bd <->
  exists z, v = VInt z /\ 0 <= z < 2 ^ (8 * Z.of_nat k) /\ bd = le_bytes k z.
Proof.
  unfold pack_uint. destruct v as [|z| |]; try (split; [done|]);
    try (by intros (? & ? & _)).
  destruct ((0 <=? z) && (z <? 2 ^ (8 * Z.of_nat k))) eqn:Hin.
  - apply andb_true_iff in Hin as [Hlo%Z.leb_le Hhi%Z.ltb_lt]. split.
    + intros [= <-]. by exists z.
    + by intros (? & [= <-] & _ & ->).
  - split; [done|]. intros (? & [= <-] & [Hlo Hhi] & _).
    apply andb_false_iff in Hin as [Hin%Z.leb_gt|Hin%Z.ltb_ge]; lia.
Qed.

Lemma pack_uint_inl k v e : pack_uint k v = inl e -> e = StructError.
Proof.
  unfold pack_uint. destruct v; try (by intros [= <-]).
  case_match; [done|by intros [= <-]].
Qed.

Section SingleFieldCases.

Variable E : Env.
Variable fuel : nat.

Lemma pack_f_inl v e : pack_f E v = inl e -> e = StructError.
Proof.
  unfold pack_f. destruct v; try (by intros [= <-]).
  case_match; try done; by intros [= <-].
Qed.

Lemma pack_value_inl typ v e :
  pack_value E typ v = inl e ->
  (typ ∈ supported_types -> e = StructError)
  /\ (typ ∉ supported_types -> e = not_implemented_typ typ).
Proof.
  intros Hpack. split.
  - intros Hin. revert Hpack. unfold pack_value.
    repeat case_decide; subst;
      [apply pack_f_inl|apply pack_uint_inl|apply pack_uint_inl|].
    exfalso. unfold supported_types in Hin.
    repeat (apply elem_of_cons in Hin as [->|Hin]; [done|]).
    by apply elem_of_nil in Hin.
  - intros Hnot. rewrite pack_value_unsupported in Hpack by done.
    by injection Hpack as <-.
Qed.

(** C9 (amended): a single-field write [write_cls_alist cls idx slot_name
    vec] on a schema whose base address and field are known; [typ] is the
    field's type, [addr] the absolute address
    [base + idx * record_size + field_offset], and the value is [vec[0]]
    for a list and [vec] itself otherwise.
    (1) When [typ] has a size [s <= 244], the value packs (this needs
    [typ] to be [float], [uint16] or [uint8]) and [addr] fits 32 bits, the
    call is [memory_write] of [s] bytes at [addr]: on an opened port it
    hands to the port exactly one write request, for that address, with a
    payload of exactly [s] bytes (the packed value when [s] is its width),
    however the call ends, and raises nothing; on a port that is not opened
    it raises [RuntimeError] and sends nothing.
    (2) When the value does not pack, the call raises and the state is
    untouched; for a supported type the exception is [struct.error].
    (3) For every other type the call raises the [RuntimeError]
    "not implemented typ ...", whatever the value.
    (4) An empty list raises [IndexError].
    (5) A type without a size raises what [c_type_to_size] raises, and a
    negative size [ValueError].
    (6) An address beyond 32 bits or a size above 244 raises while the
    request is built.
    In (2) to (6) the state is untouched: nothing is sent.
    (7) The formats [uint16] and [uint8] accept exactly the ints of their
    range, the format [float] every float. *)
Theorem write_cls_alist_single_field cls idx slot_name vec st base ft :
  armh7_elf_alist E !! cls_name cls = Some base ->
  fields_types cls !! slot_name = Some ft ->
  let typ := c_type ft in
  let addr := field_address cls base idx ft in
  let call := write_cls_alist E fuel cls idx slot_name vec in
  (forall (s : nat) v byte_data,
      c_type_to_size E typ = inr (Z.of_nat s) ->
      first_item vec = Some v ->
      pack_value E typ v = inr byte_data ->
      checksum_is_byte E ->
      0 <= addr < 2 ^ 32 ->
      (s <= 244)%nat ->
      let request :=
        memory_write_request E addr (Z.of_nat s)
          (field_payload s byte_data) in
      typ ∈ supported_types
      /\ call st
         = memory_write E fuel addr (Z.of_nat s)
             (byte_data ++ replicate (s - length byte_data) 0) st
      /\ length (field_payload s byte_data) = s
      /\ (length byte_data = s -> field_payload s byte_data = byte_data)
      /\ (serial st <> None ->
          forall r st',
            call st = (r, st') ->
            sent st st' = [request] /\ forall e, r <> Raise e)
      /\ (serial st = None -> call st = (Raise not_opened, st)))
  /\ (forall (s : nat) v e,
         c_type_to_size E typ = inr (Z.of_nat s) ->
         first_item vec = Some v ->
         pack_value E typ v = inl e ->
         call st = (Raise e, st)
         /\ (typ ∈ supported_types -> e = StructError)
         /\ (typ ∉ supported_types -> e = not_implemented_typ typ))
  /\ (forall (s : nat) v,
         c_type_to_size E typ = inr (Z.of_nat s) ->
         first_item vec = Some v ->
         typ ∉ supported_types ->
         call st = (Raise (not_implemented_typ typ), st))
  /\ (forall s : nat,
         c_type_to_size E typ = inr (Z.of_nat s) ->
         vec = VList [] ->
         call st = (Raise IndexError, st))
  /\ (forall e, c_type_to_size E typ = inl e -> call st = (Raise e, st))
  /\ (forall z,
         c_type_to_size E typ = inr z -> z < 0 ->
         call st = (Raise ValueError, st))
  /\ (forall (s : nat) v byte_data,
         c_type_to_size E typ = inr (Z.of_nat s) ->
         first_item vec = Some v ->
         pack_value E typ v = inr byte_data ->
         ~ (0 <= addr < 2 ^ 32 /\ (s <= 244)%nat) ->
         exists e, call st = (Raise e, st))
  /\ (forall v bd,
         pack_value E "uint16" v = inr bd <->
         exists z, v = VInt z /\ 0 <= z < 65536 /\ bd = le_bytes 2 z)
  /\ (forall v bd,
         pack_value E "uint8" v = inr bd <->
         exists z, v = VInt z /\ 0 <= z < 256 /\ bd = le_bytes 1 z)
  /\ (forall m e, pack_value E "float" (VFloat m e) = inr (float_bytes E m e)).
Proof.
  intros Hbase Hft typ addr call.
  assert (forall s : nat,
             c_type_to_size E typ = inr (Z.of_nat s) ->
             call st
             = (v <- match vec with
                     | VList [] => raise IndexError
                     | VList (v0 :: _) => ret v0
                     | _ => ret vec
                     end ;;
                byte_data <- lift (pack_value E typ v) ;;
                memory_write E fuel addr (Z.of_nat s)
                  (ba_store_slice 0 (length byte_data) byte_data
                     (replicate s 0))) st) as Hstart.
  { intros s Hsize. unfold call, write_cls_alist, getitem.
    rewrite Hbase, bind_lift_inr, Hft, bind_lift_inr. cbv zeta.
    fold typ. rewrite Hsize, bind_lift_inr, bytearray_ok, bind_lift_inr.
    done. }
  split_and!.
  - intros s v byte_data Hsize Hv Hpack Hcs Haddr Hs request.
    destruct (pack_value_inr _ _ _ _ Hpack) as [Hin Hbytes].
    assert (call st = serial_write fuel request st) as Hrun
      by (by eapply write_cls_alist_request).
    split_and!.
    + done.
    + by eapply write_cls_alist_memory_write.
    + apply field_payload_length.
    + intros <-. apply field_payload_exact.
    + intros Hopen r st'. rewrite Hrun. intros Hsend.
      apply serial_write_sends in Hsend as (Htx & _ & Hno); [|done|].
      * split; [by apply sent_app|done].
      * apply memory_write_request_bytes; [done|lia|].
        by apply field_payload_bytes.
    + intros Hclosed. rewrite Hrun. unfold serial_write. by rewrite Hclosed.
  - intros s v e Hsize Hv Hpack. split; [|exact (pack_value_inl _ _ _ Hpack)].
    rewrite (Hstart s Hsize), (first_item_bind _ _ _ _ Hv).
    by rewrite Hpack.
  - intros s v Hsize Hv Hnot.
    rewrite (Hstart s Hsize), (first_item_bind _ _ _ _ Hv).
    by rewrite pack_value_unsupported.
  - intros s Hsize ->. by rewrite (Hstart s Hsize).
  - intros e Hsize. unfold call, write_cls_alist, getitem.
    rewrite Hbase, bind_lift_inr, Hft, bind_lift_inr. cbv zeta.
    fold typ. by rewrite Hsize.
  - intros z Hsize Hneg. unfold call, write_cls_alist, getitem, bytearray.
    rewrite Hbase, bind_lift_inr, Hft, bind_lift_inr. cbv zeta.
    fold typ. rewrite Hsize, bind_lift_inr.
    by rewrite (proj2 (Z.ltb_lt _ _) Hneg).
  - intros s v byte_data Hsize Hv Hpack Hout.
    destruct (pack_value_inr _ _ _ _ Hpack) as [_ Hbytes].
    unfold call.
    rewrite (write_cls_alist_memory_write _ _ _ _ _ _ _ _ _ _ _ _
               Hbase Hft Hsize Hv Hpack).
    apply memory_write_refused.
    + apply Forall_app. split; [done|]. by apply Forall_replicate.
    + intros (Ha & Hl & _). apply Hout. fold addr. lia.
  - intros v bd. unfold pack_value. rewrite decide_False by done.
    rewrite decide_True by done. apply (pack_uint_inr 2).
  - intros v bd. unfold pack_value. do 2 rewrite decide_False by done.
    rewrite decide_True by done. apply (pack_uint_inr 1).
  - intros m e. unfold pack_value. by rewrite decide_True by done.
Qed.

End SingleFieldCases.

(** Writing 300 to the [uint16] field [magenc_init] of worm record 1 on an
    answering line: the port is handed the one write request with the
    two-byte payload [44, 1]. *)
Lemma write_cls_alist_single_field_witness :
  sent (Demo.session [Demo.reply []])
    (Demo.after_requests
       [[13; 252; 24; 160; 1; 36; 1; 2; 0; 0; 44; 1; 22]] [])
  = [memory_write_request Demo.env
       (field_address Demo.worm 604086272 1 (mkFieldType "uint16" 8)) 2
       (field_payload 2 [44; 1])]
  /\ forall e, Ret (Some []) <> @Raise (option (list Z)) e.
Proof.
  apply (proj1 (proj2 (proj2 (proj2 (proj2
           (proj1 (write_cls_alist_single_field Demo.env 2 Demo.worm 1
                     "magenc_init" (VList [VInt 300])
                     (Demo.session [Demo.reply []]) 604086272
                     (mkFieldType "uint16" 8) eq_refl eq_refl)
              2%nat (VInt 300) [44; 1] eq_refl eq_refl eq_refl
              sum_checksum_is_byte
              ltac:(vm_compute; split; [discriminate|reflexivity])
              ltac:(lia))))))
           ltac:(discriminate) (Ret (Some []))
           (Demo.after_requests
              [[13; 252; 24; 160; 1; 36; 1; 2; 0; 0; 44; 1; 22]] [])).
  vm_compute. reflexivity.
Defined.

(** C9 as stated fails: not every value is written.  The value 70000 does
    not fit the [uint16] field [magenc_init], and an empty list has no first
    item: the call raises and nothing is sent.  And a field of another type
    is refused with a [RuntimeError]. *)
Lemma write_cls_alist_refuses_value :
  write_cls_alist Demo.env 2 Demo.worm 1 "magenc_init" (VList [VInt 70000])
    (Demo.session [Demo.reply []])
  = (Raise StructError, Demo.session [Demo.reply []])
  /\ write_cls_alist Demo.env 2 Demo.worm 1 "magenc_init" (VList [])
       (Demo.session [Demo.reply []])
     = (Raise IndexError, Demo.session [Demo.reply []])
  /\ write_cls_alist Demo.env 2 Demo.worm 1 "present_angle" (VList [VInt 300])
       (Demo.session [Demo.reply []])
     = (Raise (not_implemented_typ "int32"), Demo.session [Demo.reply []]).
Proof. split_and!; vm_compute; reflexivity. Qed.

(** ** The slot-vector write path *)

Lemma keeps_wire_bind {A B} (m : M A) (k : A -> M B) :
  keeps_wire m -> (forall a, keeps_wire (k a)) -> keeps_wire (bind m k).
Proof.
  intros Hm Hk st r st'. unfold bind.
  destruct (m st) as [[a| |] st1] eqn:Hrun.
  - intros Hcont. rewrite (Hk _ _ _ _ Hcont). by eapply Hm.
  - intros [= <- <-]. by eapply Hm.
  - intros [= <- <-]. by eapply Hm.
Qed.

Lemma keeps_wire_lift {A} (x : exn + A) : keeps_wire (lift x).
Proof. intros st r st'. destruct x; by intros [= <- <-]. Qed.

Lemma keeps_wire_ret {A} (a : A) : keeps_wire (ret a).
Proof. intros st r st'. by intros [= <- <-]. Qed.

Lemma bind_raise_run {A B} (m : M A) (k : A -> M B) st e st' :
  m st = (Raise e, st') -> bind m k st = (Raise e, st').
Proof. unfold bind. by intros ->. Qed.

Section SlotVectorWrite.

Variable E : Env.
Variable fuel : nat.

Lemma write_slot_item_raises vec byte_list i st :
  exists e, write_slot_item vec byte_list i st = (Raise e, st).
Proof.
  unfold write_slot_item. destruct vec as [| | |items]; try by eexists.
  destruct (items !! Z.to_nat i); by eexists.
Qed.

Lemma write_slot_loop_raises vec vcnt byte_list st :
  0 < vcnt ->
  exists e,
    for_each (range vcnt) (write_slot_item vec) byte_list st = (Raise e, st).
Proof.
  intros Hpos. unfold range. rewrite seqZ_cons by lia. cbn [for_each].
  destruct (write_slot_item_raises vec byte_list 0 st) as [e He].
  exists e. unfold bind. by rewrite He.
Qed.

Lemma write_cstruct_slot_v_outcome cls slot_name vec st :
  c_vector E !! cls_name cls <> Some 0 ->
  wire (write_cstruct_slot_v E fuel cls slot_name vec st).2 = wire st
  /\ ((write_cstruct_slot_v E fuel cls slot_name vec st).1 = Ret None
      \/ exists e,
          (write_cstruct_slot_v E fuel cls slot_name vec st).1 = Raise e).
Proof.
  intros Hvcnt. unfold write_cstruct_slot_v, getitem.
  destruct (c_vector E !! cls_name cls) as [vcnt|] eqn:Hlookup;
    [|rewrite bind_lift_inl; eauto].
  rewrite bind_lift_inr.
  repeat match goal with
         | |- context [bind (lift ?x) _ _] =>
             let Hx := fresh "Hx" in
             destruct x eqn:Hx;
             [rewrite bind_lift_inl; by eauto | rewrite bind_lift_inr]
         end.
  cbv zeta.
  destruct (240 <? _); [rewrite bind_say; split; [done|by left]|].
  repeat match goal with
         | |- context [bind (lift ?x) _ _] =>
             let Hx := fresh "Hx" in
             destruct x eqn:Hx;
             [rewrite bind_lift_inl; by eauto | rewrite bind_lift_inr]
         end.
  match goal with H : ba_store 6 vcnt _ = inr _ |- _ =>
    apply ba_store_inr, is_byte_true in H end.
  assert (0 < vcnt) as Hpos by (destruct (decide (vcnt = 0)); [congruence|lia]).
  match goal with |- context [for_each (range vcnt) (write_slot_item vec) ?bl] =>
    destruct (write_slot_loop_raises vec vcnt bl st Hpos) as [e He] end.
  rewrite (bind_raise_run _ _ _ _ _ He). eauto.
Qed.

(** X6: a slot-vector write never reaches the port when the schema's array
    is not empty.  Whatever the field and the values, [write_cstruct_slot_v]
    then ends either in the [None] of its size guard or in an exception, and
    the serial line is exactly as before: the loop that should encode the
    values raises on its first turn (or the negative array length is refused
    as a byte). *)
Theorem write_cstruct_slot_v_never_sends cls slot_name vec st r st' :
  c_vector E !! cls_name cls <> Some 0 ->
  write_cstruct_slot_v E fuel cls slot_name vec st = (r, st') ->
  wire st' = wire st /\ (r = Ret None \/ exists e, r = Raise e).
Proof.
  intros Hvcnt Hrun.
  destruct (write_cstruct_slot_v_outcome cls slot_name vec st Hvcnt)
    as [Hwire Hres].
  by rewrite Hrun in Hwire, Hres.
Qed.

Lemma write_cstruct_slot_v_keeps_wire cls slot_name vec :
  c_vector E !! cls_name cls <> Some 0 ->
  keeps_wire (write_cstruct_slot_v E fuel cls slot_name vec).
Proof.
  intros Hvcnt st r st' Hrun.
  destruct (write_cstruct_slot_v_outcome cls slot_name vec st Hvcnt)
    as [Hwire _].
  by rewrite Hrun in Hwire.
Qed.

Variable DataAddress : CStruct.

Lemma cstruct_slot_write_keeps_wire slot_name v :
  c_vector E !! cls_name DataAddress <> Some 0 ->
  keeps_wire (cstruct_slot E fuel DataAddress slot_name (Some v)).
Proof.
  intros Hvcnt. apply keeps_wire_bind.
  - by apply write_cstruct_slot_v_keeps_wire.
  - intros a. apply keeps_wire_ret.
Qed.

(** X7: [set_data_address], which should record the data-segment
    boundaries in the [DataAddress] record before a flash write, sends
    nothing to the device when the [DataAddress] array is not empty: each of
    its four steps goes through the slot-vector write path.  The serial line
    is as before however the call ends. *)
Theorem set_data_address_sends_nothing st r st' :
  c_vector E !! cls_name DataAddress <> Some 0 ->
  set_data_address E fuel DataAddress st = (r, st') ->
  wire st' = wire st.
Proof.
  intros Hvcnt. revert st r st'.
  change (keeps_wire (set_data_address E fuel DataAddress)).
  assert (forall slot_name v,
             keeps_wire (cstruct_slot E fuel DataAddress slot_name (Some v)))
    as Hslot by (intros; by apply cstruct_slot_write_keeps_wire).
  unfold set_data_address, set_sidata, set_sdata, set_edata, set_data_size.
  apply keeps_wire_bind.
  { apply keeps_wire_bind; [apply keeps_wire_lift|intros; apply Hslot]. }
  intros _. apply keeps_wire_bind.
  { apply keeps_wire_bind; [apply keeps_wire_lift|intros; apply Hslot]. }
  intros _. apply keeps_wire_bind.
  { apply keeps_wire_bind; [apply keeps_wire_lift|intros; apply Hslot]. }
  intros _. apply keeps_wire_bind.
  { apply keeps_wire_bind; [apply keeps_wire_lift|intros].
    apply keeps_wire_bind; [apply keeps_wire_lift|intros; apply Hslot]. }
  intros _. apply keeps_wire_ret.
Qed.

End SlotVectorWrite.

Lemma write_cstruct_slot_v_never_sends_witness :
  wire (Demo.session [Demo.reply []]) = wire (Demo.session [Demo.reply []])
  /\ (@Raise (option (list pyval)) TypeError = Ret None
      \/ exists e, @Raise (option (list pyval)) TypeError = Raise e).
Proof.
  apply (write_cstruct_slot_v_never_sends Demo.env 2 Demo.servo "ref_angle"
           (VList [VInt 7500; VInt 7500; VInt 7500; VInt 7500])
           (Demo.session [Demo.reply []])).
  - discriminate.
  - vm_compute. reflexivity.
Defined.

Lemma set_data_address_sends_nothing_witness :
  wire (Demo.session [Demo.reply []]) = wire (Demo.session [Demo.reply []]).
Proof.
  apply (set_data_address_sends_nothing Samples.env 2 Samples.data_address
           (Demo.session [Demo.reply []]) (Raise TypeError)).
  - discriminate.
  - vm_compute. reflexivity.
Defined.

(** ** Discovery loops *)

Lemma StronglySorted_seqZ m n : StronglySorted Z.lt (seqZ m n).
Proof.
  destruct (decide (n <= 0)) as [Hn|Hn]; [rewrite seqZ_nil by done; constructor|].
  replace n with (Z.of_nat (Z.to_nat n)) by lia.
  induction (Z.to_nat n) as [|k IH]; [constructor|].
  rewrite seqZ_S. apply StronglySorted_app_2; [|done|by repeat constructor].
  intros x1 x2 Hx1%elem_of_seqZ Hx2%list_elem_of_singleton. lia.
Qed.

Lemma sublist_StronglySorted {A} (R : relation A) l1 l2 :
  l1 `sublist_of` l2 -> StronglySorted R l2 -> StronglySorted R l1.
Proof.
  induction 1 as [|x l1 l2 Hsub IH|x l1 l2 Hsub IH].
  - done.
  - rewrite !StronglySorted_cons. intros [Hall Hsorted]. split; [|by apply IH].
    apply Forall_forall. intros y Hy.
    apply (proj1 (Forall_forall _ _) Hall). by eapply elem_of_sublist.
  - rewrite StronglySorted_cons. intros [_ Hsorted]. by apply IH.
Qed.

Lemma sorted_of_ascending l : StronglySorted Z.lt l -> sorted l = l.
Proof.
  intros Hasc. unfold sorted.
  apply (Sorted_unique Z.le).
  - apply Sorted_merge_sort. apply _.
  - apply StronglySorted_Sorted.
    induction Hasc as [|x l Hl IH Hx]; constructor; [done|].
    eapply Forall_impl; [exact Hx|]. intros y. simpl. lia.
  - apply merge_sort_Permutation.
Qed.

Lemma chosen_cons p idx ids v vs :
  chosen p (idx :: ids) (v :: vs)
  = (if p v then [idx] else []) ++ chosen p ids vs.
Proof.
  unfold chosen. cbn [zip zip_with]. destruct (p v) eqn:Hp.
  - by rewrite filter_cons_True.
  - rewrite filter_cons_False; [done|]. simpl. congruence.
Qed.

Lemma chosen_sublist p ids vs : chosen p ids vs `sublist_of` ids.
Proof.
  revert vs. induction ids as [|idx ids IH]; intros vs.
  - unfold chosen. by destruct vs.
  - destruct vs as [|v vs]; [apply sublist_nil_l|].
    rewrite chosen_cons. destruct (p v); simpl.
    + by apply sublist_skip.
    + by apply sublist_cons.
Qed.

Lemma chosen_range_ascending p n vs :
  StronglySorted Z.lt (chosen p (range n) vs).
Proof.
  eapply sublist_StronglySorted; [apply chosen_sublist|].
  apply StronglySorted_seqZ.
Qed.

Section Discovery.

Variable E : Env.
Variable fuel : nat.

Lemma select_loop_read_values cls name p ids :
  forall acc st indices st',
    for_each ids (select_turn E fuel cls name p) acc st = (Ret indices, st') ->
    exists vs,
      read_values E fuel cls name ids st vs st'
      /\ indices = acc ++ chosen p ids vs.
Proof.
  induction ids as [|idx ids IH]; intros acc st indices st'.
  - intros [= <- <-]. exists []. split; [constructor|by rewrite app_nil_r].
  - cbn [for_each]. intros (acc' & st1 & Hturn & Hloop)%bind_inv.
    unfold select_turn in Hturn.
    apply bind_inv in Hturn as (buf & st1' & Hread & Hturn).
    destruct (cstruct_attr E cls buf name) as [|v] eqn:Hattr; [done|].
    rewrite bind_lift_inr in Hturn. injection Hturn as <- <-.
    destruct (IH _ _ _ _ Hloop) as (vs & Hvalues & ->).
    exists (v :: vs). split; [by econstructor|].
    rewrite chosen_cons. destruct (p v); [|done].
    by rewrite <- (assoc_L (++)).
Qed.

Lemma read_values_select_loop cls name p ids st vs st' :
  read_values E fuel cls name ids st vs st' ->
  forall acc,
    for_each ids (select_turn E fuel cls name p) acc st
    = (Ret (acc ++ chosen p ids vs), st').
Proof.
  induction 1 as [st|idx ids st buf st1 v vs st2 Hread Hattr _ IH]; intros acc.
  - unfold chosen. simpl. by rewrite app_nil_r.
  - cbn [for_each]. unfold select_turn at 1.
    rewrite !bind_assoc. erewrite bind_run by done.
    rewrite Hattr, bind_assoc, bind_lift_inr.
    cbv beta iota delta [bind ret]. rewrite IH, chosen_cons.
    destruct (p v); [|done]. by rewrite <- (assoc_L (++)).
Qed.

Lemma read_values_log cls name ids st vs st' :
  read_values E fuel cls name ids st vs st' ->
  length vs = length ids
  /\ exists reads,
      tx (wire st') = tx (wire st) ++ reads
      /\ Forall (fun f => is_read_request f = true) reads.
Proof.
  induction 1 as [st|idx ids st buf st1 v vs st2 Hread Hattr _ [Hlen IH]].
  - split; [done|]. exists []. by rewrite app_nil_r.
  - split; [simpl; by f_equal|].
    destruct IH as (reads2 & Htx2 & Hreads2).
    apply memory_cstruct_log in Hread as (reads1 & Htx1 & Hreads1).
    exists (reads1 ++ reads2). rewrite Htx2, Htx1, <- (assoc_L (++)).
    split; [done|]. by apply Forall_app.
Qed.

Lemma search_servo_ids_iff rcb4_dof st indices st' :
  search_servo_ids E fuel rcb4_dof st = (Ret indices, st') <->
  exists flags st1,
    read_values E fuel (ServoStruct E) "flag" (range rcb4_dof) st flags st1
    /\ indices = chosen (fun flag => 0 <? flag) (range rcb4_dof) flags
    /\ st' = set_servo_sorted_ids indices st1.
Proof.
  unfold search_servo_ids. split.
  - intros (indices' & st1 & Hloop & Hend)%bind_inv.
    injection Hend as <- <-.
    apply (select_loop_read_values _ "flag" (fun flag => 0 <? flag))
      in Hloop as (flags & Hvalues & ->).
    by exists flags, st1.
  - intros (flags & st1 & Hvalues & -> & ->).
    erewrite bind_run; [done|].
    apply (read_values_select_loop _ _ (fun flag => 0 <? flag) _ _ _ _
             Hvalues []).
Qed.

(** X8: [search_servo_ids], which scans the [rcb4_dof] servo records.  It
    returns exactly when every record can be read and has a [flag]
    attribute, and then the indices it returns are those of the records
    whose flag is positive.  They form an ascending sub-list of
    [range(rcb4_dof)], they are what [servo_sorted_ids] holds afterwards,
    and the requests handed to the port are read requests only. *)
Theorem search_servo_ids_exact rcb4_dof st indices st' :
  (search_servo_ids E fuel rcb4_dof st = (Ret indices, st') <->
   exists flags st1,
     read_values E fuel (ServoStruct E) "flag" (range rcb4_dof) st flags st1
     /\ indices = chosen (fun flag => 0 <? flag) (range rcb4_dof) flags
     /\ st' = set_servo_sorted_ids indices st1)
  /\ (search_servo_ids E fuel rcb4_dof st = (Ret indices, st') ->
      indices `sublist_of` range rcb4_dof
      /\ StronglySorted Z.lt indices
      /\ servo_sorted_ids st' = Some indices
      /\ Forall (fun f => is_read_request f = true) (sent st st')).
Proof.
  split; [apply search_servo_ids_iff|].
  intros (flags & st1 & Hvalues & -> & ->)%search_servo_ids_iff.
  split_and!; [apply chosen_sublist|apply chosen_range_ascending|done|].
  apply read_values_log in Hvalues as (_ & reads & Htx & Hreads).
  by rewrite (sent_app st _ reads).
Qed.

Lemma search_worm_ids_iff st indices st' :
  search_worm_ids E fuel st = (Ret indices, st') <->
  exists types st1,
    read_values E fuel (WormmoduleStruct E) "module_type"
      (range (max_sensor_num E)) st types st1
    /\ indices = chosen (fun t => t =? 1) (range (max_sensor_num E)) types
    /\ st' = set_worm_sorted_ids indices st1.
Proof.
  unfold search_worm_ids. split.
  - intros (indices' & st1 & Hloop & Hend)%bind_inv.
    injection Hend as <- <-.
    apply (select_loop_read_values (WormmoduleStruct E) "module_type"
             (fun t => t =? 1))
      in Hloop as (types & Hvalues & ->).
    by exists types, st1.
  - intros (types & st1 & Hvalues & -> & ->).
    erewrite bind_run; [done|].
    apply (read_values_select_loop _ _ (fun t => t =? 1) _ _ _ _
             Hvalues []).
Qed.

(** X9: [search_worm_ids], which scans the [max_sensor_num] worm-module
    records.  It returns exactly when every record can be read and has a
    [module_type] attribute, and then the indices it returns are those of
    the records whose module type is 1.  They form an ascending sub-list of
    [range(max_sensor_num)], they are what [worm_sorted_ids] holds
    afterwards, and the requests handed to the port are read requests
    only. *)
Theorem search_worm_ids_exact st indices st' :
  (search_worm_ids E fuel st = (Ret indices, st') <->
   exists types st1,
     read_values E fuel (WormmoduleStruct E) "module_type"
       (range (max_sensor_num E)) st types st1
     /\ indices = chosen (fun t => t =? 1) (range (max_sensor_num E)) types
     /\ st' = set_worm_sorted_ids indices st1)
  /\ (search_worm_ids E fuel st = (Ret indices, st') ->
      indices `sublist_of` range (max_sensor_num E)
      /\ StronglySorted Z.lt indices
      /\ worm_sorted_ids st' = Some indices
      /\ Forall (fun f => is_read_request f = true) (sent st st')).
Proof.
  split; [apply search_worm_ids_iff|].
  intros (types & st1 & Hvalues & -> & ->)%search_worm_ids_iff.
  split_and!; [apply chosen_sublist|apply chosen_range_ascending|done|].
  apply read_values_log in Hvalues as (_ & reads & Htx & Hreads).
  by rewrite (sent_app st _ reads).
Qed.

(** X10: the wheel scan after the servo discovery.  When [search_servo_ids]
    has returned, the servos [search_wheel_sids] returns next are among the
    discovered ones, in ascending order and below [rcb4_dof]; sorting them
    changes nothing, so [wheel_servo_sorted_ids] holds the very list that
    is returned. *)
Theorem wheels_after_discovery rcb4_dof st ids st1 wheel_ids st2 :
  search_servo_ids E fuel rcb4_dof st = (Ret ids, st1) ->
  search_wheel_sids E fuel st1 = (Ret wheel_ids, st2) ->
  wheel_ids `sublist_of` ids
  /\ StronglySorted Z.lt wheel_ids
  /\ Forall (fun idx => 0 <= idx < rcb4_dof) wheel_ids
  /\ wheel_servo_sorted_ids st2 = Some wheel_ids.
Proof.
  intros (flags & st0 & _ & -> & ->)%search_servo_ids_iff.
  set (ids := chosen _ _ _).
  unfold search_wheel_sids. unfold bind at 1. cbn [servo_sorted_ids
    set_servo_sorted_ids].
  intros (indices' & st3 & Hloop & Hend)%bind_inv.
  injection Hend as <- <-.
  apply wheel_loop_scanned in Hloop as (recs & Hscan & ->).
  apply scanned_ids in Hscan. cbn [app].
  assert (wheels recs `sublist_of` ids) as Hsub.
  { rewrite <- Hscan. unfold wheels. apply fmap_sublist, sublist_filter. }
  assert (StronglySorted Z.lt (wheels recs)) as Hasc.
  { eapply sublist_StronglySorted; [done|]. apply chosen_range_ascending. }
  split_and!; [done|done| |].
  - apply Forall_forall. intros idx Hidx.
    assert (idx ∈ range rcb4_dof) as Hin.
    { eapply elem_of_sublist; [done|].
      etrans; [exact Hsub|apply chosen_sublist]. }
    apply elem_of_seqZ in Hin. lia.
  - cbn [wheel_servo_sorted_ids set_wheel_servo_sorted_ids].
    by rewrite sorted_of_ascending.
Qed.

End Discovery.

(** Two servo records: servo 0 answers with a raised flag, servo 1 with its
    flag down. *)
Lemma search_servo_ids_exact_witness :
  [0] `sublist_of` range 2
  /\ StronglySorted Z.lt [0]
  /\ servo_sorted_ids
       (mkState (Some "/dev/ttyUSB1")
          (mkWire [[11; 251; 0; 176; 0; 36; 1; 8; 0; 0; 227];
                   [11; 251; 8; 176; 0; 36; 1; 8; 0; 0; 235]] [] [])
          [] None (Some [0]) None None) = Some [0]
  /\ Forall (fun f => is_read_request f = true)
       (sent
          (Demo.session [Demo.reply [1; 0; 0; 0; 0; 0; 0; 0];
                         Demo.reply [0; 0; 0; 0; 0; 0; 0; 0]])
          (mkState (Some "/dev/ttyUSB1")
             (mkWire [[11; 251; 0; 176; 0; 36; 1; 8; 0; 0; 227];
                      [11; 251; 8; 176; 0; 36; 1; 8; 0; 0; 235]] [] [])
             [] None (Some [0]) None None)).
Proof.
  apply (proj2 (search_servo_ids_exact Demo.env 2 2
                  (Demo.session [Demo.reply [1; 0; 0; 0; 0; 0; 0; 0];
                                 Demo.reply [0; 0; 0; 0; 0; 0; 0; 0]])
                  [0] _)).
  vm_compute. reflexivity.
Defined.

(** Two worm records: only the second is a worm module. *)
Lemma search_worm_ids_exact_witness :
  [1] `sublist_of` range (max_sensor_num Demo.env)
  /\ StronglySorted Z.lt [1]
  /\ worm_sorted_ids
       (mkState (Some "/dev/ttyUSB1")
          (mkWire [[11; 251; 0; 160; 1; 36; 1; 16; 0; 0; 220];
                   [11; 251; 16; 160; 1; 36; 1; 16; 0; 0; 236]] [] [])
          [] None None (Some [1]) None) = Some [1]
  /\ Forall (fun f => is_read_request f = true)
       (sent
          (Demo.session
             [Demo.reply [0; 0; 0; 0; 0; 0; 0; 0; 0; 0; 0; 0; 0; 0; 0; 0];
              Demo.reply [1; 0; 0; 0; 0; 0; 0; 0; 0; 0; 0; 0; 0; 0; 0; 0]])
          (mkState (Some "/dev/ttyUSB1")
             (mkWire [[11; 251; 0; 160; 1; 36; 1; 16; 0; 0; 220];
                      [11; 251; 16; 160; 1; 36; 1; 16; 0; 0; 236]] [] [])
             [] None None (Some [1]) None)).
Proof.
  apply (proj2 (search_worm_ids_exact Demo.env 2
                  (Demo.session
                     [Demo.reply
                        [0; 0; 0; 0; 0; 0; 0; 0; 0; 0; 0; 0; 0; 0; 0; 0];
                      Demo.reply
                        [1; 0; 0; 0; 0; 0; 0; 0; 0; 0; 0; 0; 0; 0; 0; 0]])
                  [1] _)).
  vm_compute. reflexivity.
Defined.

(** Servos 0 and 1 are discovered; the wheel scan then finds rotation set
    on servo 0 only. *)
Lemma wheels_after_discovery_witness :
  [0] `sublist_of` [0; 1]
  /\ StronglySorted Z.lt [0]
  /\ Forall (fun idx => 0 <= idx < 2) [0]
  /\ wheel_servo_sorted_ids
       (mkState (Some "/dev/ttyUSB1")
          (mkWire [[11; 251; 0; 176; 0; 36; 1; 8; 0; 0; 227];
                   [11; 251; 8; 176; 0; 36; 1; 8; 0; 0; 235];
                   [11; 251; 0; 176; 0; 36; 1; 8; 0; 0; 227];
                   [11; 251; 8; 176; 0; 36; 1; 8; 0; 0; 235]] [] [])
          [] None (Some [0; 1]) None (Some [0])) = Some [0].
Proof.
  apply (wheels_after_discovery Demo.env 2 2
           (Demo.session [Demo.reply [1; 1; 0; 0; 0; 0; 0; 0];
                          Demo.reply [1; 0; 0; 0; 0; 0; 0; 0];
                          Demo.reply [1; 1; 0; 0; 0; 0; 0; 0];
                          Demo.reply [1; 0; 0; 0; 0; 0; 0; 0]])
           [0; 1]
           (mkState (Some "/dev/ttyUSB1")
              (mkWire [[11; 251; 0; 176; 0; 36; 1; 8; 0; 0; 227];
                       [11; 251; 8; 176; 0; 36; 1; 8; 0; 0; 235]]
                 [Demo.reply [1; 1; 0; 0; 0; 0; 0; 0];
                  Demo.reply [1; 0; 0; 0; 0; 0; 0; 0]] [])
              [] None (Some [0; 1]) None None)
           [0] _).
  - vm_compute. reflexivity.
  - vm_compute. reflexivity.
Defined.

(** ** The caches of discovery *)

Lemma keeps_caches_bind {A B} (m : M A) (k : A -> M B) :
  keeps_caches m -> (forall a, keeps_caches (k a)) -> keeps_caches (bind m k).
Proof.
  intros Hm Hk st r st'. unfold bind.
  destruct (m st) as [[a| |] st1] eqn:Hrun.
  - intros Hcont. rewrite (Hk _ _ _ _ Hcont). by eapply Hm.
  - intros [= <- <-]. by eapply Hm.
  - intros [= <- <-]. by eapply Hm.
Qed.

Lemma keeps_caches_lift {A} (x : exn + A) : keeps_caches (lift x).
Proof. intros st r st'. destruct x; by intros [= <- <-]. Qed.

Lemma keeps_caches_ret {A} (a : A) : keeps_caches (ret a).
Proof. intros st r st'. by intros [= <- <-]. Qed.

Lemma keeps_caches_raise {A} e : keeps_caches (@raise A e).
Proof. intros st r st'. by intros [= <- <-]. Qed.

Lemma keeps_caches_say p : keeps_caches (say p).
Proof. intros st r st'. by intros [= <- <-]. Qed.

Lemma keeps_caches_for_each {A B} (body : B -> A -> M B) l :
  (forall acc a, keeps_caches (body acc a)) ->
  forall acc, keeps_caches (for_each l body acc).
Proof.
  intros Hbody. induction l as [|a l IH]; intros acc; cbn [for_each].
  - apply keeps_caches_ret.
  - apply keeps_caches_bind; [apply Hbody|apply IH].
Qed.

Lemma keeps_caches_serial_read_first fuel :
  keeps_caches (serial_read_first fuel).
Proof.
  induction fuel as [|fuel IH]; intros st r st'; cbn [serial_read_first].
  - by intros [= <- <-].
  - destruct (port_read (wire st)) as [[bs|] w].
    + case_decide.
      * intros Hrun. by rewrite (IH _ _ _ Hrun).
      * by intros [= <- <-].
    + by intros [= <- <-].
Qed.

Lemma keeps_caches_serial_read_rest fuel :
  forall acc, keeps_caches (serial_read_rest fuel acc).
Proof.
  induction fuel as [|fuel IH]; intros acc st r st'; cbn [serial_read_rest];
    destruct (incomplete acc); try by intros [= <- <-].
  destruct (port_read (wire st)) as [[bs|] w].
  - intros Hrun. by rewrite (IH _ _ _ _ Hrun).
  - by intros [= <- <-].
Qed.

Lemma keeps_caches_serial_read fuel : keeps_caches (serial_read fuel).
Proof.
  intros st r st'. unfold serial_read.
  destruct (serial st); [|by intros [= <- <-]].
  apply keeps_caches_bind; [apply keeps_caches_serial_read_first|].
  intros [first|]; [|apply keeps_caches_ret].
  apply keeps_caches_bind; [apply keeps_caches_serial_read_rest|].
  intros [acc|]; apply keeps_caches_ret.
Qed.

Lemma keeps_caches_serial_write fuel byte_list :
  keeps_caches (serial_write fuel byte_list).
Proof.
  intros st r st'. unfold serial_write.
  destruct (serial st); [|by intros [= <- <-]].
  apply keeps_caches_bind; [apply keeps_caches_lift|]. intros data.
  apply keeps_caches_bind; [|intros _; apply keeps_caches_serial_read].
  intros st1 r1 st1'. destruct (port_write data (wire st1)) as [[] w];
    by intros [= <- <-].
Qed.

Ltac caches_step :=
  first
    [ apply keeps_caches_lift
    | apply keeps_caches_ret
    | apply keeps_caches_raise
    | apply keeps_caches_say
    | apply keeps_caches_serial_write
    | apply keeps_caches_bind; [|intros ?]
    | apply keeps_caches_for_each; intros ? ? ].

Ltac caches_solve := cbv zeta; repeat caches_step.

Section Caches.

Variable E : Env.
Variable fuel : nat.

Lemma keeps_caches_memory_read addr length :
  keeps_caches (memory_read E fuel addr length).
Proof.
  unfold memory_read, memory_read_aux. cbv zeta.
  repeat case_match; caches_solve.
Qed.

Lemma keeps_caches_memory_cstruct cls v_idx addr size :
  keeps_caches (memory_cstruct E fuel cls v_idx addr size).
Proof.
  unfold memory_cstruct. apply keeps_caches_bind.
  - destruct addr; caches_solve.
  - intros a. apply keeps_caches_memory_read.
Qed.

Lemma keeps_caches_memory_write addr length data :
  keeps_caches (memory_write E fuel addr length data).
Proof.
  unfold memory_write, memory_write_frame, copy_payload. caches_solve.
Qed.

Lemma keeps_caches_cfunc_call func_string args :
  keeps_caches (cfunc_call E fuel func_string args).
Proof.
  unfold cfunc_call. caches_solve.
  unfold cfunc_store_arg. repeat case_match; caches_solve.
Qed.

Lemma keeps_caches_write_cls_alist cls idx slot_name vec :
  keeps_caches (write_cls_alist E fuel cls idx slot_name vec).
Proof.
  unfold write_cls_alist. caches_solve.
  all: repeat case_match; caches_solve.
Qed.

Lemma keeps_caches_set_cstruct_slot cls idx slot_name v :
  keeps_caches (set_cstruct_slot E fuel cls idx slot_name v).
Proof.
  unfold set_cstruct_slot. caches_solve.
Qed.

Lemma keeps_caches_read_cstruct_slot_v cls slot_name :
  keeps_caches (read_cstruct_slot_v E fuel cls slot_name).
Proof.
  unfold read_cstruct_slot_v, read_cstruct_slot_v_frame. caches_solve.
Qed.

Lemma keeps_caches_servo_angle_vector servo_ids servo_vector velocity :
  keeps_caches (servo_angle_vector E fuel servo_ids servo_vector velocity).
Proof. unfold servo_angle_vector. caches_solve. Qed.

Lemma keeps_caches_write_cstruct_slot_v cls slot_name vec :
  keeps_caches (write_cstruct_slot_v E fuel cls slot_name vec).
Proof.
  unfold write_cstruct_slot_v. caches_solve.
  case_match; caches_solve.
  unfold write_slot_item. repeat case_match; caches_solve.
Qed.

(** X11: what discovery stored ([id_vector], [servo_sorted_ids],
    [worm_sorted_ids], [wheel_servo_sorted_ids]) is never changed by the
    transport, the memory reads and writes, a firmware call, a field or
    slot-vector access or a servo command, whether the operation returns,
    raises or never gets its answer. *)
Theorem operations_keep_caches :
  (forall byte_list, keeps_caches (serial_write fuel byte_list))
  /\ keeps_caches (serial_read fuel)
  /\ (forall addr length, keeps_caches (memory_read E fuel addr length))
  /\ (forall cls v_idx addr size,
         keeps_caches (memory_cstruct E fuel cls v_idx addr size))
  /\ (forall addr length data,
         keeps_caches (memory_write E fuel addr length data))
  /\ (forall func_string args,
         keeps_caches (cfunc_call E fuel func_string args))
  /\ (forall cls idx slot_name vec,
         keeps_caches (write_cls_alist E fuel cls idx slot_name vec))
  /\ (forall cls idx slot_name v,
         keeps_caches (set_cstruct_slot E fuel cls idx slot_name v))
  /\ (forall cls slot_name,
         keeps_caches (read_cstruct_slot_v E fuel cls slot_name))
  /\ (forall cls slot_name vec,
         keeps_caches (write_cstruct_slot_v E fuel cls slot_name vec))
  /\ (forall servo_ids servo_vector velocity,
         keeps_caches
           (servo_angle_vector E fuel servo_ids servo_vector velocity)).
Proof.
  split_and!; intros.
  - apply keeps_caches_serial_write.
  - apply keeps_caches_serial_read.
  - apply keeps_caches_memory_read.
  - apply keeps_caches_memory_cstruct.
  - apply keeps_caches_memory_write.
  - apply keeps_caches_cfunc_call.
  - apply keeps_caches_write_cls_alist.
  - apply keeps_caches_set_cstruct_slot.
  - apply keeps_caches_read_cstruct_slot_v.
  - apply keeps_caches_write_cstruct_slot_v.
  - apply keeps_caches_servo_angle_vector.
Qed.

End Caches.

(** A servo record is read from a session where servos 0 and 2 were
    discovered: the caches are as before. *)
Lemma operations_keep_caches_witness :
  caches
    (mkState (Some "/dev/ttyUSB1")
       (mkWire [[11; 251; 0; 176; 0; 36; 1; 8; 0; 0; 227]] [] [])
       [] None (Some [0; 2]) None None)
  = caches (Demo.discovered [0; 2] [Demo.reply [2; 0; 1; 0; 0; 0; 0; 0]]).
Proof.
  apply (proj1 (proj2 (proj2 (proj2 (operations_keep_caches Demo.env 2))))
           Demo.servo 0 None None
           (Demo.discovered [0; 2] [Demo.reply [2; 0; 1; 0; 0; 0; 0; 0]])
           (Ret (Some [2; 0; 1; 0; 0; 0; 0; 0])) _).
  vm_compute. reflexivity.
Defined.

(** ** Joint-base sensors *)

Section Sensors.

Variable E : Env.
Variable fuel : nat.
Variable SensorbaseStruct : CStruct.
Variable sensor_sidx : Z.

Lemma sensor_loop_inv ids :
  forall acc st acc' st',
    for_each ids (sensor_turn E fuel SensorbaseStruct sensor_sidx) acc st
    = (Ret acc', st') ->
    exists found reads,
      acc' = acc ++ found
      /\ found `sublist_of` ((fun i => i + sensor_sidx) <$> ids)
      /\ tx (wire st') = tx (wire st) ++ reads
      /\ Forall (fun f => is_read_request f = true) reads.
Proof.
  induction ids as [|i ids IH]; intros acc st acc' st'.
  - intros [= <- <-]. exists [], []. by rewrite !app_nil_r.
  - cbn [for_each]. intros (acc1 & st1 & Hturn & Hloop)%bind_inv.
    unfold sensor_turn in Hturn.
    apply bind_inv in Hturn as (sensor & st1' & Hread & Hturn).
    destruct (cstruct_attr E SensorbaseStruct sensor "port") as [|port];
      [done|].
    rewrite bind_lift_inr in Hturn.
    destruct (cstruct_attr E SensorbaseStruct sensor "id") as [|id];
      [done|].
    rewrite bind_lift_inr in Hturn. injection Hturn as <- <-.
    apply memory_cstruct_log in Hread as (reads1 & Htx1 & Hreads1).
    destruct (IH _ _ _ _ Hloop) as (found & reads2 & -> & Hsub & Htx2 & Hreads2).
    exists ((if (0 <? port) && (id =? (i + sensor_sidx) `div` 2)
             then [i + sensor_sidx] else []) ++ found), (reads1 ++ reads2).
    split_and!.
    + destruct ((0 <? port) && _); [|done]. by rewrite <- (assoc_L (++)).
    + rewrite fmap_cons. destruct ((0 <? port) && _); simpl.
      * by apply sublist_skip.
      * by apply sublist_cons.
    + by rewrite Htx2, Htx1, <- (assoc_L (++)).
    + by apply Forall_app.
Qed.

Lemma read_jointbase_sensor_ids_inv st ids st' :
  read_jointbase_sensor_ids E fuel SensorbaseStruct sensor_sidx st
  = (Ret ids, st') ->
  id_vector st' = Some ids
  /\ (exists reads,
         tx (wire st') = tx (wire st) ++ reads
         /\ Forall (fun f => is_read_request f = true) reads)
  /\ (id_vector st = None ->
      StronglySorted Z.lt ids
      /\ Forall (fun id => sensor_sidx <= id < sensor_sidx + max_sensor_num E)
           ids)
  /\ (forall cached, id_vector st = Some cached -> ids = cached /\ st' = st).
Proof.
  unfold read_jointbase_sensor_ids.
  destruct (id_vector st) as [cached|] eqn:Hid.
  - intros [= <- <-]. split_and!; [done| |done|by intros ? [= <-]].
    exists []. by rewrite app_nil_r.
  - intros (ret_ & st1 & Hloop & Hend)%bind_inv.
    apply sensor_loop_inv in Hloop as (found & reads & -> & Hsub & Htx & Hreads).
    cbn [app] in Hend.
    assert (StronglySorted Z.lt found) as Hasc.
    { eapply sublist_StronglySorted; [done|].
      eapply StronglySorted_fmap; [|apply StronglySorted_seqZ].
      intros x y. simpl. lia. }
    rewrite (sorted_of_ascending _ Hasc) in Hend. injection Hend as <- <-.
    split_and!; [done|by exists reads| |done].
    intros _. split; [done|].
    apply Forall_forall. intros id Hin.
    assert (id ∈ (fun i => i + sensor_sidx) <$> range (max_sensor_num E))
      as (i & -> & Hi%elem_of_seqZ)%list_elem_of_fmap
      by by eapply elem_of_sublist.
    lia.
Qed.

(** X12: [read_jointbase_sensor_ids] computes the sensor ids once.  When it
    returns, [id_vector] holds the list it returned and a second call
    returns the same list without touching the state.  A first call (with
    [id_vector] still [None]) hands read requests only to the port, and the
    ids it finds are in ascending order, each within
    [sensor_sidx, sensor_sidx + max_sensor_num); a call on a filled
    [id_vector] returns it and leaves the state as it was. *)
Theorem read_jointbase_sensor_ids_memo st ids st' :
  read_jointbase_sensor_ids E fuel SensorbaseStruct sensor_sidx st
  = (Ret ids, st') ->
  id_vector st' = Some ids
  /\ read_jointbase_sensor_ids E fuel SensorbaseStruct sensor_sidx st'
     = (Ret ids, st')
  /\ Forall (fun f => is_read_request f = true) (sent st st')
  /\ (id_vector st = None ->
      StronglySorted Z.lt ids
      /\ Forall (fun id => sensor_sidx <= id < sensor_sidx + max_sensor_num E)
           ids)
  /\ (forall cached, id_vector st = Some cached -> ids = cached /\ st' = st).
Proof.
  intros (Hid & (reads & Htx & Hreads) & Hfresh & Hcached)
    %read_jointbase_sensor_ids_inv.
  split_and!; [done| | |done|done].
  - unfold read_jointbase_sensor_ids. by rewrite Hid.
  - by rewrite (sent_app st _ reads).
Qed.



End Sensors.

(** Two sensor records: record 0 has [port] 1 and [id] 18 (that is
    [36 // 2]), record 1 has its port down. *)
Lemma read_jointbase_sensor_ids_memo_witness :
  let st' :=
    mkState (Some "/dev/ttyUSB1")
      (mkWire [[11; 251; 0; 144; 1; 36; 1; 32; 0; 0; 220];
               [11; 251; 32; 144; 1; 36; 1; 32; 0; 0; 252]] [] [])
      [] (Some [36]) None None None in
  let st :=
    Demo.session [Demo.reply (1 :: 18 :: replicate 30 0);
                  Demo.reply (0 :: 18 :: replicate 30 0)] in
  id_vector st' = Some [36]
  /\ read_jointbase_sensor_ids Demo.env 2 Demo.sensor 36 st' = (Ret [36], st')
  /\ Forall (fun f => is_read_request f = true) (sent st st')
  /\ (id_vector st = None ->
      StronglySorted Z.lt [36]
      /\ Forall (fun id => 36 <= id < 36 + max_sensor_num Demo.env) [36])
  /\ (forall cached, id_vector st = Some cached -> [36] = cached /\ st' = st).
Proof.
  apply (read_jointbase_sensor_ids_memo Demo.env 2 Demo.sensor 36).
  vm_compute. reflexivity.
Defined.


(** ** Servo commands *)

Section ServoCommands.

Variable E : Env.
Variable fuel : nat.

Lemma servo_angle_frame_well_framed servo_ids servo_vector velocity :
  well_framed (servo_angle_frame E servo_ids servo_vector velocity).
Proof.
  unfold well_framed, servo_angle_frame. cbv zeta. cbn [app head].
  f_equal. cbn [length]. rewrite !length_app. cbn [length]. lia.
Qed.

(** X14: [hold], [free] and [neutral] called without servo ids.  Before any
    discovery ([servo_sorted_ids] is [None]) each raises [TypeError] and
    leaves the state alone.  Once [search_servo_ids] has returned [ids],
    each addresses exactly those servos, with one position per servo
    (32767, 32768 and 7500) and the velocity 1000 for [hold] and [free]:
    it hands to the port the one frame [servo_angle_vector] builds, whose
    first byte is its own length, and when it returns the discovered
    servos are still the cached ones. *)
Theorem servo_commands_after_discovery rcb4_dof st ids st1 velocity :
  search_servo_ids E fuel rcb4_dof st = (Ret ids, st1) ->
  let frame position v :=
    servo_angle_frame E ids (replicate (length ids) position) v in
  hold E fuel None st1 = serial_write fuel (frame 32767 1000) st1
  /\ free E fuel None st1 = serial_write fuel (frame 32768 1000) st1
  /\ neutral E fuel None velocity st1
     = serial_write fuel (frame 7500 velocity) st1
  /\ (forall position v, well_framed (frame position v))
  /\ (forall position v r st2,
         serial_write fuel (frame position v) st1 = (Ret r, st2) ->
         sent st1 st2 = [frame position v]
         /\ servo_sorted_ids st2 = Some ids)
  /\ (forall st0,
         servo_sorted_ids st0 = None ->
         hold E fuel None st0 = (Raise TypeError, st0)
         /\ free E fuel None st0 = (Raise TypeError, st0)
         /\ neutral E fuel None velocity st0 = (Raise TypeError, st0)).
Proof.
  intros (flags & st0 & _ & Hids & ->)%search_servo_ids_iff frame.
  assert (forall A (k : list Z -> M A),
             bind (ids_or_sorted None) k (set_servo_sorted_ids ids st0)
             = k ids (set_servo_sorted_ids ids st0)) as Hrun by done.
  split_and!.
  - unfold hold. by rewrite Hrun.
  - unfold free. by rewrite Hrun.
  - unfold neutral. by rewrite Hrun.
  - intros. apply servo_angle_frame_well_framed.
  - intros position v r st2 Hsend. split.
    + apply serial_write_log in Hsend as [Htx _].
      by rewrite (sent_app _ _ [frame position v]).
    + apply keeps_caches_serial_write in Hsend.
      by injection Hsend as _ -> _ _.
  - intros st' Hnone. unfold hold, free, neutral, bind, ids_or_sorted.
    by rewrite Hnone.
Qed.

End ServoCommands.

(** Servo 0 is discovered, then held. *)
Lemma servo_commands_after_discovery_witness :
  let st1 :=
    mkState (Some "/dev/ttyUSB1")
      (mkWire [[11; 251; 0; 176; 0; 36; 1; 8; 0; 0; 227];
               [11; 251; 8; 176; 0; 36; 1; 8; 0; 0; 235]]
         [Demo.reply []] [])
      [] None (Some [0]) None None in
  let frame position v :=
    servo_angle_frame Samples.env [0] (replicate (length [0]) position) v in
  hold Samples.env 2 None st1 = serial_write 2 (frame 32767 1000) st1
  /\ free Samples.env 2 None st1 = serial_write 2 (frame 32768 1000) st1
  /\ neutral Samples.env 2 None 500 st1 = serial_write 2 (frame 7500 500) st1
  /\ (forall position v, well_framed (frame position v))
  /\ (forall position v r st2,
         serial_write 2 (frame position v) st1 = (Ret r, st2) ->
         sent st1 st2 = [frame position v]
         /\ servo_sorted_ids st2 = Some [0])
  /\ (forall st0,
         servo_sorted_ids st0 = None ->
         hold Samples.env 2 None st0 = (Raise TypeError, st0)
         /\ free Samples.env 2 None st0 = (Raise TypeError, st0)
         /\ neutral Samples.env 2 None 500 st0 = (Raise TypeError, st0)).
Proof.
  apply (servo_commands_after_discovery Samples.env 2 2
           (Demo.session [Demo.reply [1; 0; 0; 0; 0; 0; 0; 0];
                          Demo.reply [0; 0; 0; 0; 0; 0; 0; 0];
                          Demo.reply []])).
  vm_compute. reflexivity.
Defined.

(** ** Symbol lookup *)

Lemma scan_step name section address :
  truthy address = false ->
  let address' :=
    match section with
    | SymbolTableSection symbols =>
        match first_symbol name symbols with
        | Some st_value => Some st_value
        | None => address
        end
    | OtherSection => address
    end in
  truthy address' = truthy (section_address name section)
  /\ (truthy address' = true -> address' = section_address name section).
Proof.
  intros Hfalse. destruct section as [symbols|]; simpl.
  - destruct (first_symbol name symbols); simpl; [done|]. by rewrite Hfalse.
  - by rewrite Hfalse.
Qed.

Lemma scan_sections_inr name sections :
  forall address a,
    truthy address = false ->
    scan_sections name sections address = inr a <->
    exists before section after,
      sections = before ++ section :: after
      /\ Forall (fun s => truthy (section_address name s) = false) before
      /\ truthy a = true
      /\ a = section_address name section.
Proof.
  induction sections as [|s sections IH]; intros address a Hfalse.
  - simpl. split; [done|]. intros (before & ? & ? & Heq & _).
    by destruct before.
  - cbn [scan_sections]. cbv zeta.
    destruct (scan_step name s address Hfalse) as [Htruthy Hsame].
    destruct (truthy (match s with
                      | SymbolTableSection symbols => _
                      | OtherSection => address
                      end)) eqn:Hnow.
    + specialize (Hsame eq_refl). split.
      * intros [= <-]. exists [], s, sections.
        split_and!; [done|constructor|done|done].
      * intros (before & s' & after & Heq & Hbefore & Ha & ->).
        destruct before as [|s0 before]; simplify_eq/=.
        -- by rewrite Hsame.
        -- apply Forall_cons in Hbefore as [Hs _]. congruence.
    + rewrite (IH _ a Hnow). split.
      * intros (before & s' & after & -> & Hbefore & Ha & ->).
        exists (s :: before), s', after.
        split_and!; [done| |done|done]. constructor; [congruence|done].
      * intros (before & s' & after & Heq & Hbefore & Ha & ->).
        destruct before as [|s0 before]; simplify_eq/=; [congruence|].
        apply Forall_cons in Hbefore as [_ Hbefore].
        by exists before, s', after.
Qed.

Lemma scan_sections_inl name sections :
  forall address e,
    truthy address = false ->
    scan_sections name sections address = inl e <->
    e = failed_to_find name
    /\ Forall (fun s => truthy (section_address name s) = false) sections.
Proof.
  induction sections as [|s sections IH]; intros address e Hfalse.
  - simpl. split; [by intros [= <-]|by intros [-> _]].
  - cbn [scan_sections]. cbv zeta.
    destruct (scan_step name s address Hfalse) as [Htruthy Hsame].
    destruct (truthy (match s with
                      | SymbolTableSection symbols => _
                      | OtherSection => address
                      end)) eqn:Hnow.
    + split; [done|]. intros [_ [Hs _]%Forall_cons]. congruence.
    + rewrite (IH _ e Hnow), Forall_cons. split.
      * intros [-> Hrest]. split_and!; [done|congruence|done].
      * by intros [-> [_ Hrest]].
Qed.

Lemma truthy_nonzero a : truthy a = true <-> exists v, a = Some v /\ v <> 0.
Proof.
  destruct a as [v|]; simpl.
  - rewrite negb_true_iff, Z.eqb_neq. split; [by exists v|].
    by intros (? & [= <-] & ?).
  - split; [done|]. by intros (? & ? & ?).
Qed.

(** X15: [get_func_address] goes through the sections of the image in
    order.  It returns exactly when some section is a symbol table in which
    the first symbol called [name] has a non-zero value, and returns that
    value for the first such section; a table whose first symbol of that
    name has the value 0 is passed over like a section without the symbol.
    What it returns is never [None] and never 0.  It raises the
    [RuntimeError] "Failed to find <name>" exactly when no section gives a
    non-zero value. *)
Theorem get_func_address_first_nonzero elf name :
  (forall a,
      get_func_address elf name = inr a <->
      exists before section after,
        elf = before ++ section :: after
        /\ Forall (fun s => truthy (section_address name s) = false) before
        /\ truthy a = true
        /\ a = section_address name section)
  /\ (forall a,
         get_func_address elf name = inr a -> exists v, a = Some v /\ v <> 0)
  /\ (forall e,
         get_func_address elf name = inl e <->
         e = failed_to_find name
         /\ Forall (fun s => truthy (section_address name s) = false) elf).
Proof.
  unfold get_func_address. split_and!.
  - intros a. by apply scan_sections_inr.
  - intros a (_ & _ & _ & _ & _ & Ha & _)%scan_sections_inr; [|done].
    by apply truthy_nonzero.
  - intros e. by apply scan_sections_inl.
Qed.

(** In the sample image the first table lists [servo_vector] with the value
    0; the address comes from the second table. *)
Lemma get_func_address_first_nonzero_witness :
  exists v, Some 604024832 = Some v /\ v <> 0.
Proof.
  apply (proj1 (proj2 (get_func_address_first_nonzero Samples.image
                         "servo_vector")) (Some 604024832)).
  vm_compute. reflexivity.
Defined.

Lemma elf_alist_of_inr elf names :
  forall acc m,
    elf_alist_of elf names acc = inr m ->
    forall name,
      (name ∈ names ->
       exists a, get_func_address elf name = inr a /\ m !! name = Some a)
      /\ (name ∉ names -> m !! name = acc !! name).
Proof.
  induction names as [|n names IH]; intros acc m.
  - intros [= <-] name. split; [by intros ?%elem_of_nil|done].
  - cbn [elf_alist_of].
    destruct (get_func_address elf n) as [e|a] eqn:Hn; [done|].
    intros Hrest name. destruct (IH _ _ Hrest name) as [Hin Hout].
    split.
    + intros Hname. destruct (decide (name ∈ names)) as [Hnames|Hnames].
      * by apply Hin.
      * apply elem_of_cons in Hname as [->|?]; [|done].
        exists a. split; [done|]. by rewrite Hout, lookup_insert_eq.
    + intros [Hne Hnames]%not_elem_of_cons.
      by rewrite Hout, lookup_insert_ne.
Qed.

Lemma elf_alist_of_inl elf names :
  forall acc e,
    elf_alist_of elf names acc = inl e ->
    exists name, name ∈ names /\ get_func_address elf name = inl e.
Proof.
  induction names as [|n names IH]; intros acc e; [done|].
  cbn [elf_alist_of].
  destruct (get_func_address elf n) as [e'|a] eqn:Hn.
  - intros [= <-]. exists n. split; [by left|done].
  - intros (name & Hin & Hname)%IH. exists name. split; [by right|done].
Qed.

(** X16: the table [armh7_elf_alist] is built for the names of
    [armh7_variable_list].  When the image gives every one of them a
    non-zero address, the table has exactly those names as keys, each with
    the address [get_func_address] finds for it.  When one of them is
    missing the construction raises the [RuntimeError] of
    [get_func_address] for a missing name, and there is no table. *)
Theorem build_armh7_elf_alist_keys elf :
  (forall m,
      build_armh7_elf_alist elf = inr m ->
      forall name,
        (name ∈ armh7_variable_list ->
         exists a, get_func_address elf name = inr a /\ m !! name = Some a)
        /\ (name ∉ armh7_variable_list -> m !! name = None))
  /\ (forall e,
         build_armh7_elf_alist elf = inl e ->
         exists name,
           name ∈ armh7_variable_list
           /\ e = failed_to_find name
           /\ get_func_address elf name = inl e)
  /\ ((forall name,
          name ∈ armh7_variable_list ->
          exists a, get_func_address elf name = inr a) ->
      exists m, build_armh7_elf_alist elf = inr m).
Proof.
  unfold build_armh7_elf_alist. split_and!.
  - intros m Hm name. destruct (elf_alist_of_inr _ _ _ _ Hm name) as [Hin Hout].
    split; [done|]. intros Hname. by rewrite Hout.
  - intros e (name & Hin & Hname)%elf_alist_of_inl.
    exists name. split_and!; [done| |done].
    by apply scan_sections_inl in Hname as [-> _].
  - intros Hall.
    destruct (elf_alist_of elf armh7_variable_list ∅) as [e|m] eqn:Hrun;
      [|by exists m].
    apply elf_alist_of_inl in Hrun as (name & Hin & Hname).
    destruct (Hall name Hin) as [a Ha]. congruence.
Qed.

(** The sample image has no symbol [walking_command]: no table is built. *)
Lemma build_armh7_elf_alist_keys_witness :
  exists name,
    name ∈ armh7_variable_list
    /\ failed_to_find "walking_command" = failed_to_find name
    /\ get_func_address Samples.image name
       = inl (failed_to_find "walking_command").
Proof.
  apply (proj1 (proj2 (build_armh7_elf_alist_keys Samples.image))
           (failed_to_find "walking_command")).
  vm_compute. reflexivity.
Defined.

(** ** The namespace of the ROS node *)

Lemma rfind_from_none c s :
  Forall (fun a => a <> c) s -> forall i last, rfind_from c s i last = last.
Proof.
  induction 1 as [|a s Ha _ IH]; intros i last; [done|].
  cbn [rfind_from]. rewrite IH.
  by rewrite (proj2 (Ascii.eqb_neq a c) Ha).
Qed.

Lemma rfind_from_last c a b :
  Forall (fun x => x <> c) b ->
  forall i last,
    rfind_from c (a ++ c :: b) i last = i + Z.of_nat (length a).
Proof.
  intros Hb. induction a as [|x a IH]; intros i last.
  - cbn [app rfind_from]. rewrite rfind_from_none by done.
    rewrite Ascii.eqb_refl. simpl. lia.
  - cbn [app rfind_from]. rewrite IH. cbn [length]. lia.
Qed.

(** X17: [get_base_namespace] cuts the namespace at its last slash: for
    [a + '/' + b] with no slash in [b] it returns [a] (so [ns + '/'] gives
    [ns], and the root namespace ['/'] gives the empty string).  A
    namespace without any slash loses its last character, as [rfind] then
    answers -1 and the slice is [full_namespace[:-1]]. *)
Theorem get_base_namespace_cuts_last_slash :
  (forall a b,
      Forall (fun x => x <> slash) b ->
      get_base_namespace (a ++ slash :: b) = a)
  /\ (forall s,
         Forall (fun x => x <> slash) s ->
         get_base_namespace s = take (length s - 1) s).
Proof.
  split.
  - intros a b Hb. unfold get_base_namespace, rfind. cbv zeta.
    rewrite rfind_from_last by done.
    destruct a as [|x a]; [done|].
    replace (0 + Z.of_nat (length (x :: a)) =? 0) with false
      by (symmetry; apply Z.eqb_neq; simpl; lia).
    unfold slice_to. cbn [negb].
    replace (0 + Z.of_nat (length (x :: a)) <? 0) with false
      by (symmetry; apply Z.ltb_ge; lia).
    rewrite Z.add_0_l, Nat2Z.id. apply take_app_length.
  - intros s Hs. unfold get_base_namespace, rfind. cbv zeta.
    rewrite rfind_from_none by done. cbn [Z.eqb negb]. unfold slice_to.
    cbn [Z.ltb Z.compare]. f_equal. lia.
Qed.

(** The namespace ["/robot/"] gives ["/robot"]. *)
Lemma get_base_namespace_cuts_last_slash_witness :
  get_base_namespace
    (String.list_ascii_of_string "/robot" ++ slash
       :: String.list_ascii_of_string EmptyString)
  = String.list_ascii_of_string "/robot".
Proof.
  apply (proj1 get_base_namespace_cuts_last_slash
           (String.list_ascii_of_string "/robot")
           (String.list_ascii_of_string EmptyString)).
  simpl. constructor.
Defined.

(** ** Decoding a slot vector *)

Lemma uint16_pairs_le_bytes values :
  Forall (fun v => 0 <= v < 65536) values ->
  uint16_pairs (concat (le_bytes 2 <$> values)) = values.
Proof.
  induction 1 as [|v values Hv _ IH]; [done|].
  rewrite fmap_cons. cbn [concat le_bytes app uint16_pairs] in *. rewrite IH.
  f_equal. change 255 with (Z.ones 8).
  rewrite !Z.land_ones, !Z.shiftr_div_pow2 by lia. change (2 ^ 8) with 256.
  rewrite (Z.mod_small (v / 256)) by (split; [apply Z.div_pos|
    apply Z.div_lt_upper_bound]; lia).
  pose proof (Z.div_mod v 256 ltac:(lia)). lia.
Qed.

Lemma length_concat_le_bytes k values :
  length (concat (le_bytes k <$> values)) = (k * length values)%nat.
Proof.
  induction values as [|v values IH]; [simpl; lia|].
  rewrite fmap_cons. cbn [concat length].
  rewrite length_app, le_bytes_length, IH. lia.
Qed.

Lemma frombuffer_uint16_le_bytes values :
  Forall (fun v => 0 <= v < 65536) values ->
  frombuffer_uint16 (Some (concat (le_bytes 2 <$> values))) = inr values.
Proof.
  intros Hvalues. unfold frombuffer_uint16.
  rewrite length_concat_le_bytes.
  replace (Nat.even (2 * length values)) with true.
  - by rewrite uint16_pairs_le_bytes.
  - symmetry. apply Nat.even_spec. by exists (length values).
Qed.

Section SlotVectorDecode.

Variable E : Env.
Variable fuel : nat.

(** X18: [read_cstruct_slot_v] from the request to the decoded values (so
    [angle_vector] and [reference_angle_vector]).  On an opened port, with
    an array length, a type size and a record size that each fit in one
    byte, when the line answers with one frame that carries the two-byte
    little-endian encodings of [values], the call sends the one vector-read
    request for the field and returns [values]; the checksum byte [cs] of
    the answer is not looked at. *)
Theorem read_cstruct_slot_v_decodes cls slot_name st vcnt addr ft esize
    values cs rest :
  serial st <> None ->
  (1 <= fuel)%nat ->
  c_vector E !! cls_name cls = Some vcnt ->
  armh7_elf_alist E !! cls_name cls = Some addr ->
  fields_types cls !! slot_name = Some ft ->
  c_type_to_size E (c_type ft) = inr esize ->
  is_byte vcnt = true ->
  is_byte esize = true ->
  is_byte (cls_size cls) = true ->
  checksum_is_byte E ->
  Forall (fun v => 0 <= v < 65536) values ->
  let answer := concat (le_bytes 2 <$> values) in
  rx (wire st)
  = RxBytes (Z.of_nat (length answer + 2) :: answer ++ [cs]) :: rest ->
  let header :=
    [11; 251] ++ le_bytes 4 (addr + offset ft)
      ++ [vcnt; esize; cls_size cls; 0] in
  let request := header ++ [rcb4_checksum E (header ++ [0])] in
  read_cstruct_slot_v E fuel cls slot_name st
  = (Ret values, set_rx rest (after_write request st)).
Proof.
  intros Hopen Hfuel Hvcnt Haddr Hft Hsize Hv He Hc Hcs Hvalues answer Hrx
    header request.
  rewrite (read_cstruct_slot_v_request E fuel cls slot_name st vcnt addr ft
             esize) by done.
  cbv zeta. fold header. fold request.
  assert (all_bytes request) as Hbytes.
  { unfold request, header. apply Forall_app. split; [|by repeat constructor].
    apply Forall_app. split; [by repeat constructor|].
    apply Forall_app. split; [apply le_bytes_all_bytes|by repeat constructor]. }
  erewrite bind_run.
  2:{ rewrite serial_write_run by done.
      apply (serial_read_total fuel _
               [Z.of_nat (length answer + 2) :: answer ++ [cs]] rest).
      - by rewrite after_write_serial.
      - by rewrite after_write_rx, Hrx.
      - intros n Hn. cbn [length] in Hn. by replace n with 0%nat by lia.
      - apply needs_more_false. cbn [concat]. rewrite app_nil_r.
        cbn [head length]. rewrite length_app. cbn [length].
        do 2 f_equal. lia.
      - done. }
  cbn [concat]. rewrite app_nil_r. unfold payload, slice.
  cbn [length drop]. rewrite length_app. cbn [length].
  replace (S (length answer + 1) - 1 - 1)%nat with (length answer) by lia.
  rewrite drop_0, take_app_length. unfold answer.
  by rewrite frombuffer_uint16_le_bytes.
Qed.

End SlotVectorDecode.

(** The current angles of four servos. *)
Lemma read_cstruct_slot_v_decodes_witness :
  read_cstruct_slot_v Demo.env 2 Demo.servo "current_angle"
    (Demo.session [RxBytes [10; 76; 29; 176; 29; 0; 0; 255; 255; 0]])
  = (Ret [7500; 7600; 0; 65535],
     set_rx []
       (after_write [11; 251; 6; 176; 0; 36; 4; 2; 8; 0; 238]
          (Demo.session [RxBytes [10; 76; 29; 176; 29; 0; 0; 255; 255; 0]]))).
Proof.
  apply (read_cstruct_slot_v_decodes Demo.env 2 Demo.servo "current_angle"
           (Demo.session [RxBytes [10; 76; 29; 176; 29; 0; 0; 255; 255; 0]])
           4 604024832 (mkFieldType "uint16" 6) 2 [7500; 7600; 0; 65535] 0 []);
    try reflexivity; try done; try lia.
  - apply sum_checksum_is_byte.
  - repeat constructor; lia.
Defined.

(** ** EEPROM parameters *)

Section EepromParameters.

Variable E : Env.
Variable fuel : nat.
Variable four_bit_to_num : list Z -> list Z -> exn + Z.
Variable cstruct_params : option (list Z) -> exn + list Z.

Lemma param_loop_inv v names :
  forall acc st d st',
    for_each names (param_turn four_bit_to_num cstruct_params v) acc st
    = (Ret d, st') ->
    st' = st
    /\ forall name,
        (name ∈ names ->
         exists indices params value,
           params64_getitem servo_eeprom_params64 name = inr indices
           /\ cstruct_params v = inr params
           /\ four_bit_to_num indices params = inr value
           /\ d !! name = Some value)
        /\ (name ∉ names -> d !! name = acc !! name).
Proof.
  induction names as [|n names IH]; intros acc st d st'.
  - intros [= <- <-]. split; [done|]. intros name.
    split; [by intros ?%elem_of_nil|done].
  - cbn [for_each]. intros (acc1 & st1 & Hturn & Hloop)%bind_inv.
    unfold param_turn in Hturn.
    destruct (params64_getitem servo_eeprom_params64 n) as [|indices] eqn:Hn;
      [done|].
    rewrite bind_lift_inr in Hturn.
    destruct (cstruct_params v) as [|params] eqn:Hparams; [done|].
    rewrite bind_lift_inr in Hturn.
    destruct (four_bit_to_num indices params) as [|value] eqn:Hvalue; [done|].
    rewrite bind_lift_inr in Hturn. injection Hturn as <- <-.
    destruct (IH _ _ _ _ Hloop) as [-> Hd]. split; [done|]. intros name.
    destruct (Hd name) as [Hin Hout]. split.
    + intros Hname. destruct (decide (name ∈ names)) as [Hnames|Hnames].
      * by apply Hin.
      * apply elem_of_cons in Hname as [->|?]; [|done].
        exists indices, params, value. split_and!; try done.
        by rewrite Hout, lookup_insert_eq.
    + intros [Hne Hnames]%not_elem_of_cons.
      by rewrite Hout, lookup_insert_ne.
Qed.

(** X19: [servo_param64] reads the record of servo [sid] once and decodes
    the requested parameters from it.  When it returns, the dict has
    exactly the requested names as keys (all names of
    [servo_eeprom_params64] when none is given), each with the number
    [four_bit_to_num] finds at the positions the table lists for it, and
    only read requests were handed to the port.  A name the table does not
    have makes the call raise [KeyError], after the record has been
    read. *)
Theorem servo_param64_keys sid param_names st :
  let names :=
    match param_names with
    | None => servo_eeprom_params64.*1
    | Some names => names
    end in
  (forall d st',
      servo_param64 E fuel four_bit_to_num cstruct_params sid param_names st
      = (Ret d, st') ->
      exists v,
        memory_cstruct E fuel (ServoStruct E) sid None None st = (Ret v, st')
        /\ Forall (fun f => is_read_request f = true) (sent st st')
        /\ forall name,
            (name ∈ names ->
             exists indices params value,
               params64_getitem servo_eeprom_params64 name = inr indices
               /\ cstruct_params v = inr params
               /\ four_bit_to_num indices params = inr value
               /\ d !! name = Some value)
            /\ (name ∉ names -> d !! name = None))
  /\ (forall v st1 name names',
         param_names = Some (name :: names') ->
         memory_cstruct E fuel (ServoStruct E) sid None None st
         = (Ret v, st1) ->
         params64_getitem servo_eeprom_params64 name = inl KeyError ->
         servo_param64 E fuel four_bit_to_num cstruct_params sid param_names
           st
         = (Raise KeyError, st1)).
Proof.
  intros names. split.
  - intros d st'. unfold servo_param64.
    intros (v & st1 & Hread & Hloop)%bind_inv. cbv zeta in Hloop.
    apply param_loop_inv in Hloop as [-> Hd].
    exists v. split_and!; [done| |].
    + apply memory_cstruct_log in Hread as (reads & Htx & Hreads).
      by rewrite (sent_app st _ reads).
    + intros name. destruct (Hd name) as [Hin Hout]. split; [done|].
      intros Hname. by rewrite Hout.
  - intros v st1 name names' -> Hread Hname. unfold servo_param64.
    erewrite bind_run by done. cbn [for_each]. unfold param_turn at 1.
    by rewrite Hname.
Qed.

End EepromParameters.

(** The stretch gain of servo 0, whose record has the nibbles 3 and 12 in
    its third and fourth byte: 3 * 16 + 12 = 60. *)
Lemma servo_param64_keys_witness :
  exists v,
    memory_cstruct Samples.env 2 (ServoStruct Samples.env) 0 None None
      (Demo.session [Demo.reply [1; 0; 3; 12; 0; 0; 0; 0]])
    = (Ret v,
       Demo.after_requests [[11; 251; 0; 176; 0; 36; 1; 8; 0; 0; 227]] [])
    /\ Forall (fun f => is_read_request f = true)
         (sent (Demo.session [Demo.reply [1; 0; 3; 12; 0; 0; 0; 0]])
            (Demo.after_requests
               [[11; 251; 0; 176; 0; 36; 1; 8; 0; 0; 227]] []))
    /\ forall name,
        (name ∈ ["stretch_gain"] ->
         exists indices params value,
           params64_getitem servo_eeprom_params64 name = inr indices
           /\ Samples.servo_params v = inr params
           /\ Samples.nibbles indices params = inr value
           /\ ({["stretch_gain" := 60]} : gmap string Z) !! name = Some value)
        /\ (name ∉ ["stretch_gain"] ->
            ({["stretch_gain" := 60]} : gmap string Z) !! name = None).
Proof.
  apply (proj1 (servo_param64_keys Samples.env 2 Samples.nibbles
                  Samples.servo_params 0 (Some ["stretch_gain"])
                  (Demo.session [Demo.reply [1; 0; 3; 12; 0; 0; 0; 0]]))).
  vm_compute. reflexivity.
Defined.

(** ** Reading a worm angle *)

Section WormAngle.

Variable E : Env.
Variable fuel : nat.


End WormAngle.

